(** * git-check-conflicts: the conflict detection engine

    A shallow embedding of [src/lib.ts] and of the pipeline of
    [src/main.ts], followed by the properties of the engine.

    Conventions of the embedding.
    - A JavaScript string is a [string]: a sequence of code units below 256.
    - An [async] function is a computation in the monad [M]: it threads the
      state of the outside world (repository, file system) and may throw.
    - The wrapped tool is an oracle [spawn]; nothing is assumed about it. *)

From Stdlib Require Import String Ascii List Bool Arith NArith Lia Sorted.
Import ListNotations.
Local Open Scope string_scope.
Local Open Scope list_scope.

Set Implicit Arguments.

(* ================================================================= *)
(** * Part I. Text primitives of the host language *)
(* ================================================================= *)

Module Text.

(** ** Character classes of the regular expressions used by the source *)

(** [\s]: TAB, LF, VT, FF, CR, SPACE and NBSP (the white space and line
    terminator code units below 256). *)
Definition is_space (c : ascii) : bool :=
  let n := nat_of_ascii c in
  (((9 <=? n) && (n <=? 13)) || (n =? 32) || (n =? 160))%nat.

(** [\d] *)
Definition is_digit (c : ascii) : bool :=
  let n := nat_of_ascii c in ((48 <=? n) && (n <=? 57))%nat.

(** [[a-f0-9]] *)
Definition is_hex (c : ascii) : bool :=
  let n := nat_of_ascii c in
  is_digit c || ((97 <=? n) && (n <=? 102))%nat.

(** Line terminators: the code units that [.] refuses and after which
    [^] matches under the [m] flag. *)
Definition is_line_terminator (c : ascii) : bool :=
  let n := nat_of_ascii c in ((n =? 10) || (n =? 13))%nat.

Definition LF : ascii := ascii_of_nat 10.
Definition CR : ascii := ascii_of_nat 13.
Definition TAB : ascii := ascii_of_nat 9.

(** ** Truthiness *)

(** A string is falsy exactly when it is empty: [Boolean(s)], [!s], [s || t]. *)
Definition truthy (s : string) : bool :=
  match s with
  | EmptyString => false
  | String _ _ => true
  end.

(** [a || b] on strings. *)
Definition or_else (a b : string) : string := if truthy a then a else b.

(** ** Searching *)

(** [s.startsWith(p)]; also a regular expression [/^p/] for a literal [p]. *)
Definition starts_with (p s : string) : bool := prefix p s.

(** [s.includes(p)]; also an unanchored regular expression for a literal. *)
Fixpoint includes (p s : string) : bool :=
  starts_with p s ||
  match s with
  | EmptyString => false
  | String _ s' => includes p s'
  end.

(** [/^(p1|p2|...)/.test(s)] for literal alternatives. *)
Definition starts_with_any (ps : list string) (s : string) : bool :=
  existsb (fun p => starts_with p s) ps.

(** [/^(p1|p2|...)/m.test(s)]: with the [m] flag, [^] matches at the start
    of the input and after every line terminator.  [at_bol] says whether
    the current position is such a place. *)
Fixpoint test_bol_any (ps : list string) (at_bol : bool) (s : string) : bool :=
  (at_bol && starts_with_any ps s) ||
  match s with
  | EmptyString => false
  | String c s' => test_bol_any ps (is_line_terminator c) s'
  end.

Definition test_multiline_prefix (ps : list string) (s : string) : bool :=
  test_bol_any ps true s.

(** ** Splitting *)

(** Puts a code unit in front of the first piece of a split. *)
Definition cons_head (c : ascii) (pieces : list string) : list string :=
  match pieces with
  | [] => [String c EmptyString]
  | p :: ps => String c p :: ps
  end.

(** [s.split("\n")] *)
Fixpoint split_nl (s : string) : list string :=
  match s with
  | EmptyString => [EmptyString]
  | String c s' =>
      if Ascii.eqb c LF then EmptyString :: split_nl s'
      else cons_head c (split_nl s')
  end.

(** [s.split(/\r?\n/)]: a CR is part of the separator only when an LF
    follows it. *)
Fixpoint split_lines (s : string) : list string :=
  match s with
  | EmptyString => [EmptyString]
  | String c s' =>
      if Ascii.eqb c LF then EmptyString :: split_lines s'
      else
        match s' with
        | String c' s'' =>
            if Ascii.eqb c CR && Ascii.eqb c' LF
            then EmptyString :: split_lines s''
            else cons_head c (split_lines s')
        | EmptyString => cons_head c (split_lines s')
        end
  end.

(** [s.split(/\s+/)]: a maximal run of white space is one separator; a
    leading or trailing run leaves an empty first or last piece. *)
Fixpoint split_ws (s : string) : list string :=
  match s with
  | EmptyString => [EmptyString]
  | String c s' =>
      if is_space c then
        match s' with
        | String c' _ =>
            if is_space c' then split_ws s' else EmptyString :: split_ws s'
        | EmptyString => EmptyString :: split_ws s'
        end
      else cons_head c (split_ws s')
  end.

(** ** Trimming *)

Fixpoint trim_start (s : string) : string :=
  match s with
  | String c s' => if is_space c then trim_start s' else s
  | EmptyString => EmptyString
  end.

(** Drops the white space at the end: a suffix that is all white space
    becomes empty. *)
Fixpoint trim_end (s : string) : string :=
  match s with
  | EmptyString => EmptyString
  | String c s' =>
      match trim_end s' with
      | EmptyString => if is_space c then EmptyString else String c EmptyString
      | t => String c t
      end
  end.

(** [s.trim()] *)
Definition trim (s : string) : string := trim_end (trim_start s).

(** ** Replacing *)

Fixpoint drop (n : nat) (s : string) : string :=
  match n, s with
  | O, _ => s
  | S n', String _ s' => drop n' s'
  | S _, EmptyString => EmptyString
  end.

(** [s.replace(pat, "")]: removes the first occurrence of [pat]. *)
Fixpoint remove_first (pat s : string) : string :=
  if starts_with pat s then drop (String.length pat) s
  else
    match s with
    | EmptyString => EmptyString
    | String c s' => String c (remove_first pat s')
    end.

(** ** Insertion-ordered sets *)

Definition mem (x : string) (l : list string) : bool :=
  existsb (String.eqb x) l.

(** [set.add(x)] on a [Set], seen as the list of its members in insertion
    order; also [if (!arr.includes(x)) arr.push(x)]. *)
Definition set_add (l : list string) (x : string) : list string :=
  if mem x l then l else l ++ [x].

(** [Array.from(new Set(l))] *)
Definition array_from_set (l : list string) : list string :=
  fold_left set_add l [].

End Text.

Import Text.

(* ================================================================= *)
(** * Part II. The pure parser of the primary strategy *)
(* ================================================================= *)

(** The path field the parser takes from one line of [ls-files -u --stage]:
    [line.split(/\s+/).slice(-1)[0]]. *)
Definition path_of_line (line : string) : string :=
  last (split_ws line) EmptyString.

(** [parseUnmergedFiles], lib.ts *)
Definition parseUnmergedFiles (lsOutput : string) : list string :=
  if negb (truthy lsOutput) then []
  else array_from_set (map path_of_line (filter truthy (split_lines lsOutput))).

(* ================================================================= *)
(** * Part III. Effects: the outside world, exceptions, promises *)
(* ================================================================= *)

(** [CmdResult], lib.ts *)
Record CmdResult := mkCmdResult {
  code : nat;
  stdout : string;
  stderr : string
}.

(** What a computation can throw: the engine's own [GitError], a plain
    [Error], or whatever a primitive of the host run time throws.
    [Uncaught reason] is not an exception of the program: it stands for
    the end of the process that the run time decrees when a promise was
    rejected with [reason] and nobody handles it
    ([error: Uncaught (in promise)], exit code 1). *)
Inductive exn :=
| GitError (message : string) (exit : nat)
| Error (message : string)
| HostError (what : string)
| Uncaught (reason : exn).

Inductive outcome (A : Type) :=
| Ret (a : A)
| Throw (e : exn).
Arguments Ret {A} a.
Arguments Throw {A} e.

(** A value found where the source declares [string].  Type annotations
    are erased at run time, so a promise that was not awaited is passed
    along as it is; [PromiseOf o] settles with [o]. *)
Inductive strlike :=
| Str (s : string)
| PromiseOf (o : outcome string).

Definition strs (l : list string) : list strlike := map Str l.

(** Truthiness: every object is truthy. *)
Definition truthy_like (v : strlike) : bool :=
  match v with
  | Str s => truthy s
  | PromiseOf _ => true
  end.

(** [a || b] *)
Definition or_else_like (a b : strlike) : strlike :=
  if truthy_like a then a else b.

(** One spawned subcommand: the argument vector handed to the host, the
    scratch index bound by [GIT_INDEX_FILE] if any, and what [runCmd]
    got back. *)
Inductive event :=
| Spawn (cmd : list strlike) (index : option string) (res : outcome CmdResult).

(** A reference to a [TempIndex] object. *)
Definition ref := nat.

Section Engine.

(** The outside world: the repository and the file system, seen only
    through the three host primitives the engine calls. *)
Variable W : Type.
Variable spawn : list strlike -> option string -> W -> outcome CmdResult * W.
Variable makeTempFile : W -> outcome string * W.
Variable removeFile : string -> W -> outcome unit * W.

(** The state threaded through a run: the world, the [path] field of every
    [TempIndex] object allocated so far, and the subcommands spawned so
    far (oldest first). *)
Record state := mkState {
  world : W;
  heap : list (option string);
  trace : list event
}.

Definition M (A : Type) : Type := state -> outcome A * state.

Definition ret {A} (a : A) : M A := fun st => (Ret a, st).

Definition throw {A} (e : exn) : M A := fun st => (Throw e, st).

Definition bind {A B} (m : M A) (k : A -> M B) : M B :=
  fun st =>
    match m st with
    | (Ret a, st') => k a st'
    | (Throw e, st') => (Throw e, st')
    end.

(** [try { m } catch (e) { h(e) }], also [m.catch(h)] *)
Definition try_catch {A} (m : M A) (h : exn -> M A) : M A :=
  fun st =>
    match m st with
    | (Ret a, st') => (Ret a, st')
    | (Throw e, st') => h e st'
    end.

(** [try { m } finally { f }]: [f] runs on every exit of [m]; the outcome
    is that of [m] unless [f] itself throws. *)
Definition try_finally {A} (m : M A) (f : M unit) : M A :=
  fun st =>
    match m st with
    | (o, st') =>
        match f st' with
        | (Ret _, st'') => (o, st'')
        | (Throw e, st'') => (Throw e, st'')
        end
    end.

(** Calling an [async] function without [await]: the call is issued, and
    its settlement is kept in a promise instead of being raised.  A
    rejection kept that way has no handler: see [report_unhandled]. *)
Definition start {A} (m : M A) : M (outcome A) :=
  fun st => match m st with (o, st') => (Ret o, st') end.

(** The first [await] that hands control to the event loop after a call
    that was not awaited.  If the promise [p] of that call is rejected by
    then and has no handler, the run time reports the rejection and ends
    the process: no handler of the program runs, and the exit code is 1.
    In the engine this happens outside every [try] block. *)
Definition report_unhandled {A} (p : outcome A) : M unit :=
  match p with
  | Ret _ => ret tt
  | Throw reason => throw (Uncaught reason)
  end.

(** [await v], and [return v] from an [async] function. *)
Definition settle (v : strlike) : M string :=
  match v with
  | Str s => ret s
  | PromiseOf (Ret s) => ret s
  | PromiseOf (Throw e) => throw e
  end.

Notation "x <- m ;; k" := (bind m (fun x => k))
  (at level 61, m at next level, right associativity).
Notation "m ;;; k" := (bind m (fun _ => k))
  (at level 61, right associativity).

(** ** Host primitives lifted to [M] *)

Definition host_spawn (cmd : list strlike) (index : option string)
  : M CmdResult :=
  fun st =>
    match spawn cmd index (world st) with
    | (o, w') => (o, mkState w' (heap st) (trace st))
    end.

Definition host_makeTempFile : M string :=
  fun st =>
    match makeTempFile (world st) with
    | (o, w') => (o, mkState w' (heap st) (trace st))
    end.

Definition host_remove (p : string) : M unit :=
  fun st =>
    match removeFile p (world st) with
    | (o, w') => (o, mkState w' (heap st) (trace st))
    end.

Definition record (e : event) : M unit :=
  fun st => (Ret tt, mkState (world st) (heap st) (trace st ++ [e])).

(** [runCmd], lib.ts: spawns the command, trims both streams. *)
Definition runCmd (cmd : list strlike) (index : option string) : M CmdResult :=
  o <- start (host_spawn cmd index) ;;
  match o with
  | Ret r =>
      let r' := mkCmdResult (code r) (trim (stdout r)) (trim (stderr r)) in
      record (Spawn cmd index (Ret r')) ;;; ret r'
  | Throw e =>
      record (Spawn cmd index (Throw e)) ;;; throw e
  end.

Definition git (args : list string) : M CmdResult :=
  runCmd (strs ("git" :: args)) None.

(** [r.code === 0 && r.stdout] *)
Definition succeeded (r : CmdResult) : bool :=
  (code r =? 0)%nat && truthy (stdout r).

(** ** Heap of [TempIndex] objects *)

Definition get_path (t : ref) : M (option string) :=
  fun st => (Ret (nth t (heap st) None), st).

Fixpoint update {A} (l : list A) (n : nat) (v : A) : list A :=
  match l, n with
  | [], _ => []
  | _ :: l', O => v :: l'
  | x :: l', S n' => x :: update l' n' v
  end.

Definition set_path (t : ref) (v : option string) : M unit :=
  fun st => (Ret tt, mkState (world st) (update (heap st) t v) (trace st)).

(** [if (x)] on a string that may be [null] or [undefined]: the value when
    it is truthy. *)
Definition nonempty (p : option string) : option string :=
  match p with
  | Some s => if truthy s then Some s else None
  | None => None
  end.

(* ----------------------------------------------------------------- *)
(** ** RefResolver *)

(** [getCurrentRef], lib.ts *)
Definition getCurrentRef : M string :=
  r <- git ["symbolic-ref"; "--quiet"; "--short"; "HEAD"] ;;
  if succeeded r then ret (stdout r)
  else
    r <- git ["rev-parse"; "--short"; "HEAD"] ;;
    if succeeded r then ret (stdout r)
    else throw (GitError "Couldn't determine current branch/HEAD." 2).

(** The loop over the remotes of [detectDefaultBranch]; [Some b] when the
    loop body returned [b]. *)
Fixpoint remote_heads (remotes : list string) : M (option string) :=
  match remotes with
  | [] => ret None
  | r :: rest =>
      sym <- git ["symbolic-ref"; "--quiet";
                  append "refs/remotes/" (append r "/HEAD")] ;;
      if succeeded sym then
        let localBranch :=
          remove_first (append "refs/remotes/" (append r "/")) (stdout sym) in
        localExists <- git ["show-ref"; "--verify";
                            append "refs/heads/" localBranch] ;;
        if (code localExists =? 0)%nat then ret (Some localBranch)
        else ret (Some (append r (append "/" localBranch)))
      else remote_heads rest
  end.

(** [detectDefaultBranch], lib.ts *)
Definition detectDefaultBranch (currentRef : string) : M string :=
  remotesRes <- git ["remote"] ;;
  found <- (if succeeded remotesRes
            then remote_heads (filter truthy (split_lines (stdout remotesRes)))
            else ret None) ;;
  match found with
  | Some b => ret b
  | None =>
      m <- git ["show-ref"; "--verify"; "refs/heads/main"] ;;
      if (code m =? 0)%nat then ret "main"
      else
        m <- git ["show-ref"; "--verify"; "refs/heads/master"] ;;
        if (code m =? 0)%nat then ret "master"
        else
          recent <- git ["for-each-ref"; "--sort=-committerdate";
                         "--format=%(refname:short)"; "refs/heads"] ;;
          match
            (if succeeded recent
             then filter (fun n => negb (String.eqb n currentRef))
                         (filter truthy (split_lines (stdout recent)))
             else [])
          with
          | c :: _ => ret c
          | [] => throw (GitError "Could not detect default branch" 2)
          end
  end.

(** What [resolveCommit] returns. *)
Record Resolved := mkResolved {
  commit : string;
  resolvedRef : string
}.

(** [git rev-parse --verify <name>^{commit}] *)
Definition verify_commit (name : string) : M CmdResult :=
  git ["rev-parse"; "--verify"; append name "^{commit}"].

(** The loop over the remotes of [resolveCommit]. *)
Fixpoint resolve_via_remotes (ref_ : string) (remotes : list string)
  : M (option Resolved) :=
  match remotes with
  | [] => ret None
  | remote :: rest =>
      let cand := append remote (append "/" ref_) in
      s <- verify_commit cand ;;
      if succeeded s then ret (Some (mkResolved (stdout s) cand))
      else resolve_via_remotes ref_ rest
  end.

(** [resolveCommit], lib.ts *)
Definition resolveCommit (ref_ : string) : M Resolved :=
  r <- verify_commit ref_ ;;
  if succeeded r then ret (mkResolved (stdout r) ref_)
  else
    remotesRes <- git ["remote"] ;;
    found <- resolve_via_remotes ref_
               (filter truthy (split_lines (stdout remotesRes))) ;;
    match found with
    | Some res => ret res
    | None =>
        throw (GitError
                 (append "Couldn't resolve '" (append ref_ "' to a commit")) 2)
    end.

(** [revToTree], lib.ts.  The function is [async]: returning [emptyTree]
    settles it. *)
Definition revToTree (rev : string) (emptyTree : strlike) : M string :=
  if negb (truthy rev) then settle emptyTree
  else
    r <- git ["rev-parse"; append rev "^{tree}"] ;;
    if succeeded r then ret (stdout r)
    else settle emptyTree.

Definition WELL_KNOWN_EMPTY_TREE : string :=
  "4b825dc642cb6eb9a060e54bf8d69288fbee4904".

(** [getEmptyTreeHash], lib.ts *)
Definition getEmptyTreeHash : M string :=
  result <- git ["hash-object"; "-t"; "tree"; "/dev/null"] ;;
  if succeeded result then ret (stdout result)
  else ret WELL_KNOWN_EMPTY_TREE.

(** [isGitRepository], lib.ts *)
Definition isGitRepository : M bool :=
  r <- git ["rev-parse"; "--git-dir"] ;;
  ret (code r =? 0)%nat.

(** [fetchAll], lib.ts: [None] for success, [Some error] otherwise. *)
Definition fetchAll : M (option string) :=
  r <- git ["fetch"; "--all"] ;;
  if negb (code r =? 0)%nat then ret (Some (or_else (stderr r) (stdout r)))
  else ret None.

(** [getChangedFilesBetween], lib.ts *)
Definition getChangedFilesBetween (oursCommit theirsCommit : string)
  : M (list string) :=
  changedRes <- git ["diff"; "--name-only"; oursCommit; theirsCommit] ;;
  if succeeded changedRes
  then ret (filter truthy (split_lines (stdout changedRes)))
  else ret [].

(* ----------------------------------------------------------------- *)
(** ** ScratchIndex: the class [TempIndex] *)

(** [new TempIndex()]: [path] starts as [null]. *)
Definition TempIndex_new : M ref :=
  fun st =>
    (Ret (length (heap st)),
     mkState (world st) (heap st ++ [None]) (trace st)).

(** [TempIndex.create] *)
Definition TempIndex_create (this : ref) : M string :=
  p <- host_makeTempFile ;;
  set_path this (Some p) ;;;
  ret p.

(** [TempIndex.getPath] *)
Definition TempIndex_getPath (this : ref) : M (option string) := get_path this.

(** [TempIndex.cleanup] *)
Definition TempIndex_cleanup (this : ref) : M unit :=
  p <- get_path this ;;
  match nonempty p with
  | Some path =>
      try_catch (host_remove path ;;; set_path this None)
                (fun _ => ret tt)
  | None => ret tt
  end.

(** [TempIndex.runGitWithIndex] *)
Definition TempIndex_runGitWithIndex (this : ref) (args : list string) : M CmdResult :=
  p <- get_path this ;;
  match nonempty p with
  | None => throw (Error "Temporary index not created")
  | Some path => runCmd (strs ("git" :: args)) (Some path)
  end.

(* ----------------------------------------------------------------- *)
(** ** Line patterns of the wrapped tool's reports *)

(** The longest prefix of [s] made of code units in the class [p], and
    what follows it. *)
Fixpoint span (p : ascii -> bool) (s : string) : string * string :=
  match s with
  | String c s' =>
      if p c then let (run, rest) := span p s' in (String c run, rest)
      else (EmptyString, s)
  | EmptyString => (EmptyString, EmptyString)
  end.

(** [x+] for a class [x] followed by something that cannot start in [x]:
    the run is the longest one and is not empty. *)
Definition some_of (p : ascii -> bool) (s : string) : option (string * string) :=
  match span p s with
  | (EmptyString, _) => None
  | (run, rest) => Some (run, rest)
  end.

Definition not_space (c : ascii) : bool := negb (is_space c).

Definition strip_prefix (p s : string) : option string :=
  if starts_with p s then Some (drop (String.length p) s) else None.

(** [(p1|p2|...)] at the start of [s]: the first alternative that fits. *)
Fixpoint strip_any (ps : list string) (s : string) : option string :=
  match ps with
  | [] => None
  | p :: ps' =>
      match strip_prefix p s with
      | Some rest => Some rest
      | None => strip_any ps' s
      end
  end.

Fixpoint last_unit (s : string) : option ascii :=
  match s with
  | EmptyString => None
  | String c EmptyString => Some c
  | String _ s' => last_unit s'
  end.

Fixpoint has_line_terminator (s : string) : bool :=
  match s with
  | EmptyString => false
  | String c s' => is_line_terminator c || has_line_terminator s'
  end.

Notation "' p <-? m ;; k" :=
  (match m with Some p => k | None => None end)
  (at level 61, p pattern, m at next level, right associativity).

(** [/^R\d+\s+(\S+)\s+(\S+)$/]: the two captures. *)
Definition match_rename (line : string) : option (string * string) :=
  ' s1 <-? strip_prefix "R" line ;;
  ' (_, s2) <-? some_of is_digit s1 ;;
  ' (_, s3) <-? some_of is_space s2 ;;
  ' (oldName, s4) <-? some_of not_space s3 ;;
  ' (_, s5) <-? some_of is_space s4 ;;
  ' (newName, s6) <-? some_of not_space s5 ;;
  if truthy s6 then None else Some (oldName, newName).

(** [\s+(.+)$] at the end of a pattern: the capture.  The white space is
    taken as far as it goes; when nothing follows it, the pattern gives
    back its last code unit to [(.+)]. *)
Definition match_tail (s : string) : option string :=
  ' (w, rest) <-? some_of is_space s ;;
  if truthy rest then
    if has_line_terminator rest then None else Some rest
  else
    ' c <-? last_unit w ;;
    if (2 <=? String.length w)%nat && negb (is_line_terminator c)
    then Some (String c EmptyString) else None.

(** [\s+\d+\s+[a-f0-9]+\s+(.+)$], the part shared by the two patterns
    below: the capture. *)
Definition match_mode_blob_name (s : string) : option string :=
  ' (_, s1) <-? some_of is_space s ;;
  ' (_, s2) <-? some_of is_digit s1 ;;
  ' (_, s3) <-? some_of is_space s2 ;;
  ' (_, s4) <-? some_of is_hex s3 ;;
  match_tail s4.

(** [/^\s+(base|our|their)\s+\d+\s+[a-f0-9]+\s+(.+)$/]: capture 2. *)
Definition match_side_line (line : string) : option string :=
  ' (_, s1) <-? some_of is_space line ;;
  ' s2 <-? strip_any ["base"; "our"; "their"] s1 ;;
  match_mode_blob_name s2.

(** [/^(merged|result)\s+\d+\s+[a-f0-9]+\s+(.+)$/]: capture 2. *)
Definition match_result_line (line : string) : option string :=
  ' s1 <-? strip_any ["merged"; "result"] line ;;
  match_mode_blob_name s1.

(** The alternatives of
    [/^(removed in (local|remote)|added in (local|remote)|changed in both)/]. *)
Definition STRUCTURAL_HEADERS : list string :=
  ["removed in local"; "removed in remote";
   "added in local"; "added in remote"; "changed in both"].

(** The alternatives of [/^(removed in|added in|changed in|merged|result)/]. *)
Definition SECTION_STARTS : list string :=
  ["removed in"; "added in"; "changed in"; "merged"; "result"].

Definition CONFLICT_MARKER : string := "<<<<<<< ".

(** The first line of a [--name-status] listing that is a rename of
    [file]: [.split('\n').map(...).find(m => m && m[1] === file)]. *)
Fixpoint find_rename (lines : list string) (file : string)
  : option (string * string) :=
  match lines with
  | [] => None
  | l :: rest =>
      match match_rename l with
      | Some (oldName, newName) =>
          if String.eqb oldName file then Some (oldName, newName)
          else find_rename rest file
      | None => find_rename rest file
      end
  end.

(* ----------------------------------------------------------------- *)
(** ** ConflictClassifier *)

Inductive ConflictType :=
| content
| rename_modify
| modify_rename
| delete_modify
| modify_delete.

Inductive Side := ours | theirs.

(** [RenameInfo], lib.ts *)
Record RenameInfo := mkRenameInfo {
  old_path : string;
  new_path : string;
  side : Side
}.

(** [FileConflictDetail], lib.ts; an absent field is [None]. *)
Record FileConflictDetail := mkDetail {
  conflict_type : ConflictType;
  message : option string;
  rename : option RenameInfo;
  diff : option string
}.

(** [r.stdout?.trim() || r.stderr?.trim() || undefined] *)
Definition diff_text (r : CmdResult) : option string :=
  if truthy (trim (stdout r)) then Some (trim (stdout r))
  else if truthy (trim (stderr r)) then Some (trim (stderr r))
  else None.

(** [git diff -M --name-status --diff-filter=R <from> <to>] *)
Definition list_renames (from to : string) : M CmdResult :=
  git ["diff"; "-M"; "--name-status"; "--diff-filter=R"; from; to].

(** [git diff -U3 --no-prefix <a> <b>] on two blobs *)
Definition blob_diff (a b : string) : M CmdResult :=
  git ["diff"; "-U3"; "--no-prefix"; a; b].

Definition at_path (commit_ path : string) : string :=
  append commit_ (append ":" path).

(** The arrow of the messages, in its UTF-8 bytes. *)
Definition ARROW : string := " → ".

(** Step 1 of [getFileConflictDetail]: the rename check.  [Some d] when
    one of the two rename branches was taken ([renameInfo] is set). *)
Definition rename_check (file oursCommit theirsCommit : string)
           (mergeBase : option string) : M (option FileConflictDetail) :=
  match nonempty mergeBase with
  | None => ret None
  | Some mb =>
      ourRenames <- list_renames mb oursCommit ;;
      theirRenames <- list_renames mb theirsCommit ;;
      match find_rename (split_nl (stdout ourRenames)) file with
      | Some (oldName, newName) =>
          d <- blob_diff (at_path oursCommit newName)
                         (at_path theirsCommit oldName) ;;
          ret (Some (mkDetail rename_modify
                 (Some (append "Your branch: renamed "
                       (append oldName (append ARROW (append newName
                       (append (String LF "Their branch: modified ")
                               oldName))))))
                 (Some (mkRenameInfo oldName newName ours))
                 (diff_text d)))
      | None =>
          match find_rename (split_nl (stdout theirRenames)) file with
          | Some (oldName, newName) =>
              d <- blob_diff (at_path oursCommit oldName)
                             (at_path theirsCommit newName) ;;
              ret (Some (mkDetail modify_rename
                     (Some (append "Your branch: modified "
                           (append oldName
                           (append (String LF "Their branch: renamed ")
                           (append oldName (append ARROW newName))))))
                     (Some (mkRenameInfo oldName newName theirs))
                     (diff_text d)))
          | None => ret None
          end
      end
  end.

(** The classification of step 2, from the text of the path-scoped diff. *)
Definition classify_diff (d : option string) : ConflictType * option string :=
  match d with
  | Some text =>
      if includes "deleted file mode" text || includes "new file mode" text
      then
        if includes "deleted file mode" text
        then (delete_modify,
              Some "File deleted on one branch, modified on the other")
        else (modify_delete,
              Some "File modified on one branch, deleted on the other")
      else (content, None)
  | None => (content, None)
  end.

(** Step 2 of [getFileConflictDetail]: the regular diff. *)
Definition content_check (file oursCommit theirsCommit : string)
  : M FileConflictDetail :=
  d <- git ["diff"; "-U3"; "--no-prefix"; "-M";
            oursCommit; theirsCommit; "--"; file] ;;
  let (conflictType, msg) := classify_diff (diff_text d) in
  ret (mkDetail conflictType msg None (diff_text d)).

(** [getFileConflictDetail], lib.ts *)
Definition getFileConflictDetail (file oursCommit theirsCommit : string)
           (mergeBase : option string) : M FileConflictDetail :=
  renamed <- rename_check file oursCommit theirsCommit mergeBase ;;
  match renamed with
  | Some d => ret d
  | None => content_check file oursCommit theirsCommit
  end.

(* ----------------------------------------------------------------- *)
(** ** MergeSimulator *)

(** [checkConflictsWithReadTree], lib.ts *)
Definition checkConflictsWithReadTree (baseTree oursTree theirsTree : string)
           (tempIndex : ref) : M (list string) :=
  try_catch
    (TempIndex_runGitWithIndex tempIndex
       ["read-tree"; "-m"; "--"; baseTree; oursTree; theirsTree])
    (fun _ => ret (mkCmdResult 1 EmptyString EmptyString)) ;;;
  lsRes <- TempIndex_runGitWithIndex tempIndex ["ls-files"; "-u"; "--stage"] ;;
  ret (parseUnmergedFiles (stdout lsRes)).

(** [git merge-tree (mergeBase || emptyTree) ours theirs] *)
Definition merge_tree (mergeBase : strlike) (oursCommit theirsCommit : string)
           (emptyTree : strlike) : M CmdResult :=
  runCmd [Str "git"; Str "merge-tree"; or_else_like mergeBase emptyTree;
          Str oursCommit; Str theirsCommit] None.

(** The two triggers of the fallback, on the text of the report. *)
Definition report_has_conflicts (report : string) : bool :=
  if includes CONFLICT_MARKER report then true
  else if test_multiline_prefix STRUCTURAL_HEADERS report then true
  else false.

(** [checkConflictsWithMergeTree], lib.ts *)
Definition checkConflictsWithMergeTree (mergeBase : strlike)
           (oursCommit theirsCommit : string) (emptyTree : strlike) : M bool :=
  mergeTreeRes <- merge_tree mergeBase oursCommit theirsCommit emptyTree ;;
  ret (report_has_conflicts (stdout mergeTreeRes)).

(* ----------------------------------------------------------------- *)
(** ** ReportParser *)

(** The lines [j] with [i < j < min (i + n) lines.length], given the lines
    after line [i]. *)
Definition window (n : nat) (after : list string) : list string :=
  firstn (n - 1) after.

(** The inner loop of the structural branch: records the path of every
    side line of the window. *)
Definition record_side_lines (w : list string) (conflictingFiles : list string)
  : list string :=
  fold_left
    (fun acc l =>
       match match_side_line l with
       | Some filename => set_add acc filename
       | None => acc
       end)
    w conflictingFiles.

(** The inner loop of the content branch: [hasMarkers]. *)
Fixpoint has_markers (w : list string) : bool :=
  match w with
  | [] => false
  | l :: rest =>
      if starts_with CONFLICT_MARKER l then true
      else if starts_with_any SECTION_STARTS l then false
      else has_markers rest
  end.

(** The outer loop of [getConflictingFilesFromMergeTree]. *)
Fixpoint scan_report (lines : list string) (conflictingFiles : list string)
  : list string :=
  match lines with
  | [] => conflictingFiles
  | line :: after =>
      let files1 :=
        if starts_with_any STRUCTURAL_HEADERS line
        then record_side_lines (window 4 after) conflictingFiles
        else conflictingFiles in
      let files2 :=
        if starts_with "merged" line || starts_with "result" line then
          match match_result_line line with
          | Some filename =>
              if has_markers (window 20 after)
              then set_add files1 filename else files1
          | None => files1
          end
        else files1 in
      scan_report after files2
  end.

(** [getConflictingFilesFromMergeTree], lib.ts *)
Definition getConflictingFilesFromMergeTree (mergeBase : strlike)
           (oursCommit theirsCommit : string) (emptyTree : strlike)
  : M (list string) :=
  mergeTreeRes <- merge_tree mergeBase oursCommit theirsCommit emptyTree ;;
  ret (scan_report (split_lines (stdout mergeTreeRes)) []).

(* ----------------------------------------------------------------- *)
(** ** DetectionPipeline: [main], main.ts *)

(** A plain object of the host language that holds detail records, as
    [Record<string, FileConflictDetail>] is at run time: its own
    properties in the order of their creation, and its prototype once an
    assignment has replaced [Object.prototype]. *)
Record DetailObject := mkObject {
  own : list (string * FileConflictDetail);
  prototype : option FileConflictDetail
}.

(** [{}] *)
Definition empty_object : DetailObject := mkObject [] None.

(** [ConflictCheckResult], lib.ts *)
Record ConflictCheckResult := mkResult {
  current_ref : string;
  other_ref : string;
  ours_commit : string;
  theirs_commit : string;
  merge_base : option string;
  conflicts : bool;
  conflicted_files : list string;
  files : DetailObject
}.

Definition with_conflicts (r : ConflictCheckResult) (fs : list string)
  : ConflictCheckResult :=
  mkResult (current_ref r) (other_ref r) (ours_commit r) (theirs_commit r)
           (merge_base r) true fs (files r).

(** Writing the own property [k]: an existing property keeps its place
    and takes the value, a new one is created after the others. *)
Fixpoint put (m : list (string * FileConflictDetail)) (k : string)
         (v : FileConflictDetail) : list (string * FileConflictDetail) :=
  match m with
  | [] => [(k, v)]
  | (k', v') :: m' =>
      if String.eqb k' k then (k, v) :: m' else (k', v') :: put m' k v
  end.

(** The one accessor property that a plain object inherits. *)
Definition PROTO : string := "__proto__".

(** [obj[k] = v], where [v] is an object.  The key [__proto__] is found
    as the accessor of [Object.prototype], whose setter replaces the
    prototype of [obj]: no own property is created.  Every other key is
    found, if at all, as a writable data property (of [obj], of
    [Object.prototype], or of a detail record that became the prototype),
    so that the assignment writes or creates the own property. *)
Definition assign (obj : DetailObject) (k : string) (v : FileConflictDetail)
  : DetailObject :=
  if String.eqb k PROTO then mkObject (own obj) (Some v)
  else mkObject (put (own obj) k v) (prototype obj).

(** The value of a decimal digit. *)
Definition digit_value (c : ascii) : N := N.of_nat (nat_of_ascii c - 48).

(** The number that a text of decimal digits writes, after [acc]. *)
Fixpoint decimal (s : string) (acc : N) : option N :=
  match s with
  | EmptyString => Some acc
  | String c s' =>
      if is_digit c then decimal s' (acc * 10 + digit_value c)%N else None
  end.

(** An array index: the key is the canonical decimal text (no sign, no
    leading zero) of an integer below 2^32 - 1. *)
Definition array_index (k : string) : option N :=
  match k with
  | EmptyString => None
  | String c rest =>
      if Ascii.eqb c "0"
      then match rest with EmptyString => Some 0%N | String _ _ => None end
      else match decimal k 0 with
           | Some n => if (n <? 4294967295)%N then Some n else None
           | None => None
           end
  end.

Definition is_array_index (k : string) : bool :=
  match array_index k with Some _ => true | None => false end.

(** Insertion of an index key into a list sorted by index. *)
Fixpoint insert_index (n : N) (k : string) (l : list (N * string))
  : list (N * string) :=
  match l with
  | [] => [(n, k)]
  | (m, k') :: l' =>
      if (n <=? m)%N then (n, k) :: l else (m, k') :: insert_index n k l'
  end.

(** The order in which the host language enumerates own string keys
    created in the order [ks]: array indices first, in ascending numeric
    order, then the other keys in the order of their creation. *)
Definition key_order (ks : list string) : list string :=
  map snd
      (fold_right (fun k acc =>
                     match array_index k with
                     | Some n => insert_index n k acc
                     | None => acc
                     end) [] ks)
  ++ filter (fun k => negb (is_array_index k)) ks.

(** [Object.keys(obj)], which is also the order of [JSON.stringify]. *)
Definition own_keys (obj : DetailObject) : list string :=
  key_order (map fst (own obj)).

Definition with_file (r : ConflictCheckResult) (f : string)
           (d : FileConflictDetail) : ConflictCheckResult :=
  mkResult (current_ref r) (other_ref r) (ours_commit r) (theirs_commit r)
           (merge_base r) (conflicts r) (conflicted_files r)
           (assign (files r) f d).

(** The parsed command line. *)
Record Options := mkOptions {
  opt_help : bool;
  opt_version : bool;
  opt_fetch : bool;
  opt_diff : bool;
  opt_json : bool;
  opt_other : option string
}.

(** [for (const f of fs) result.files[f] = await getFileConflictDetail(...)] *)
Fixpoint fill_details (fs : list string) (oursCommit theirsCommit : string)
         (mergeBase : option string) (result : ConflictCheckResult)
  : M ConflictCheckResult :=
  match fs with
  | [] => ret result
  | f :: rest =>
      d <- getFileConflictDetail f oursCommit theirsCommit mergeBase ;;
      fill_details rest oursCommit theirsCommit mergeBase (with_file result f d)
  end.

(** [x || undefined] *)
Definition or_undefined (s : string) : option string :=
  if truthy s then Some s else None.

(** What the resolution stage of [main] hands to the two strategies. *)
Record Resolution := mkResolution {
  res_result : ConflictCheckResult;
  res_mergeBase : string;
  res_emptyTree : strlike;
  res_baseTree : string;
  res_oursTree : string;
  res_theirsTree : string
}.

(** [main] up to the result object: repository check, optional fetch, the
    two refs, the two commits, the merge base and the three trees.  The
    call of [getEmptyTreeHash] is not awaited (main.ts, line 175):
    [emptyTree] is the promise, and the subcommand is spawned at the call.
    The next statement awaits [git merge-base]: [runCmd] spawns that
    subcommand first, and when the spawn itself throws, [main] throws
    with it before control reaches the event loop.  Otherwise the await
    hands control to the event loop, where a rejection of the pending
    call, which has no handler yet, ends the process. *)
Definition resolve_stage (o : Options) : M Resolution :=
  isRepo <- isGitRepository ;;
  if negb isRepo
  then throw (GitError "Not a git repository (or git not available)." 2)
  else
    (if opt_fetch o then fetchAll ;;; ret tt else ret tt) ;;;
    currentRef <- getCurrentRef ;;
    otherRef <-
      match nonempty (opt_other o) with
      | Some other => ret other
      | None =>
          try_catch (detectDefaultBranch currentRef)
            (fun _ => throw (GitError
               "Could not detect a default branch to compare against. Provide one manually as an argument."
               2))
      end ;;
    if String.eqb otherRef currentRef
    then throw (GitError
           (append "Other branch ('" (append otherRef
           (append "') is the same as current ('" (append currentRef
                   "'). Nothing to do.")))) 2)
    else
      oursResult <- resolveCommit "HEAD" ;;
      let oursCommit := commit oursResult in
      theirsResult <-
        try_catch (resolveCommit otherRef)
          (fun _ => throw (GitError
             (append "Couldn't resolve other branch/ref '" (append otherRef
                "' to a commit. Ensure it exists locally or as a remote-tracking ref."))
             2)) ;;
      let theirsCommit := commit theirsResult in
      let otherRef := resolvedRef theirsResult in
      pending <- start getEmptyTreeHash ;;
      let emptyTree := PromiseOf pending in
      mbRes <- git ["merge-base"; oursCommit; theirsCommit] ;;
      report_unhandled pending ;;;
      let mergeBase := if succeeded mbRes then stdout mbRes else EmptyString in
      baseTree <- revToTree mergeBase emptyTree ;;
      oursTree <- revToTree oursCommit emptyTree ;;
      theirsTree <- revToTree theirsCommit emptyTree ;;
      ret (mkResolution
             (mkResult currentRef otherRef oursCommit theirsCommit
                       (or_undefined mergeBase) false [] empty_object)
             mergeBase emptyTree baseTree oursTree theirsTree).

(** The body of the [try] block of [main]: the primary strategy.
    [Some (exit, result)] when the block returns from [main]. *)
Definition primary_stage (o : Options) (r : Resolution) (tempIndex : ref)
  : M (option (nat * ConflictCheckResult)) :=
  TempIndex_create tempIndex ;;;
  unmergedFiles <- checkConflictsWithReadTree
                     (res_baseTree r) (res_oursTree r) (res_theirsTree r)
                     tempIndex ;;
  match unmergedFiles with
  | _ :: _ =>
      let result := with_conflicts (res_result r) unmergedFiles in
      result <- (if opt_diff o
                 then fill_details unmergedFiles
                        (ours_commit result) (theirs_commit result)
                        (or_undefined (res_mergeBase r)) result
                 else ret result) ;;
      ret (Some (1, result))
  | [] => ret None
  end.

(** [main] after the [try] block: the fallback strategy. *)
Definition fallback_stage (o : Options) (r : Resolution)
  : M (nat * ConflictCheckResult) :=
  let base := or_else_like (Str (res_mergeBase r)) (res_emptyTree r) in
  let oursCommit := ours_commit (res_result r) in
  let theirsCommit := theirs_commit (res_result r) in
  hasConflicts <- checkConflictsWithMergeTree
                    base oursCommit theirsCommit (res_emptyTree r) ;;
  if hasConflicts : bool then
    conflictingFiles <- getConflictingFilesFromMergeTree
                          base oursCommit theirsCommit (res_emptyTree r) ;;
    let result := with_conflicts (res_result r) conflictingFiles in
    result <- (if opt_diff o
               then fill_details conflictingFiles oursCommit theirsCommit
                      (or_undefined (res_mergeBase r)) result
               else ret result) ;;
    ret (1, result)
  else ret (0, res_result r).

(** [main], main.ts: the exit code and the result object.  What [main]
    prints is a rendering of that object and is left out; with [--help]
    or [--version] there is no result object. *)
Definition main (o : Options) : M (nat * option ConflictCheckResult) :=
  if opt_help o then ret (0, None)
  else if opt_version o then ret (0, None)
  else
    r <- resolve_stage o ;;
    tempIndex <- TempIndex_new ;;
    early <- try_finally (primary_stage o r tempIndex)
                         (TempIndex_cleanup tempIndex) ;;
    match early with
    | Some (exit, result) => ret (exit, Some result)
    | None =>
        out <- fallback_stage o r ;;
        ret (fst out, Some (snd out))
    end.

End Engine.

(* ----------------------------------------------------------------- *)
(** ** The rest of lib.ts and the entry point of main.ts *)

Section EngineRest.

Variable W : Type.
Variable spawn : list strlike -> option string -> W -> outcome CmdResult * W.
Variable makeTempFile : W -> outcome string * W.
Variable removeFile : string -> W -> outcome unit * W.

Notation "x <- m ;; k" := (bind m (fun x => k))
  (at level 61, m at next level, right associativity).

(** The warning sign of the headers, in its UTF-8 bytes. *)
Definition WARNING : string := "⚠️  ".

Definition IDENTICAL_AFTER_RENAME : string :=
  "(Files are identical after rename)".

(** [renameDiffOutput || "(Files are identical after rename)"] *)
Definition rename_diff_output (d : CmdResult) : string :=
  match diff_text d with
  | Some text => text
  | None => IDENTICAL_AFTER_RENAME
  end.

(** The header [fileDiffFor] puts before the diff of a rename on the ours
    side. *)
Definition rename_modify_header (oldName newName : string) : string :=
  append WARNING
 (append "RENAME/MODIFY CONFLICT:"
 (append (String LF "   Your branch: renamed ")
 (append oldName (append ARROW (append newName
 (append (String LF "   Their branch: modified ")
 (append oldName (String LF (String LF EmptyString))))))))).

(** The header for a rename on the theirs side. *)
Definition modify_rename_header (oldName newName : string) : string :=
  append WARNING
 (append "MODIFY/RENAME CONFLICT:"
 (append (String LF "   Your branch: modified ")
 (append oldName
 (append (String LF "   Their branch: renamed ")
 (append oldName (append ARROW (append newName
         (String LF (String LF EmptyString))))))))).

(** [fileDiffFor], lib.ts *)
Definition fileDiffFor (file oursCommit theirsCommit : string)
           (mergeBase : option string) : M W (option string) :=
  renamed <-
    match nonempty mergeBase with
    | None => ret None
    | Some mb =>
        ourRenames <- list_renames spawn mb oursCommit ;;
        theirRenames <- list_renames spawn mb theirsCommit ;;
        match find_rename (split_nl (stdout ourRenames)) file with
        | Some (oldName, newName) =>
            d <- blob_diff spawn (at_path oursCommit newName)
                           (at_path theirsCommit oldName) ;;
            ret (Some (append (rename_modify_header oldName newName)
                              (rename_diff_output d)))
        | None =>
            match find_rename (split_nl (stdout theirRenames)) file with
            | Some (oldName, newName) =>
                d <- blob_diff spawn (at_path oursCommit oldName)
                               (at_path theirsCommit newName) ;;
                ret (Some (append (modify_rename_header oldName newName)
                                  (rename_diff_output d)))
            | None => ret None
            end
        end
    end ;;
  match renamed with
  | Some text => ret (Some text)
  | None =>
      d <- git spawn ["diff"; "-U3"; "--no-prefix"; "-M";
                      oursCommit; theirsCommit; "--"; file] ;;
      ret (diff_text d)
  end.

(** The entry point of main.ts: the exit code of the process.  A
    [GitError] exits with its own code, any other exception with 2; a
    rejection that nobody handled has ended the process with 1 before
    the [catch] of the entry point could see anything. *)
Definition entry_point (o : Options) (st : state W) : nat * state W :=
  match main spawn makeTempFile removeFile o st with
  | (Ret (exit, _), st') => (exit, st')
  | (Throw (GitError _ exit), st') => (exit, st')
  | (Throw (Uncaught _), st') => (1, st')
  | (Throw _, st') => (2, st')
  end.

End EngineRest.

(* ================================================================= *)
(** * Part IV. Scripted worlds

    Concrete outside worlds on which the engine can be run: the wrapped
    tool answers from a table, the file system is the list of the scratch
    files that exist. *)
(* ================================================================= *)

Module Scripted.

Definition disk := list string.

(** How the host turns an argument into text: [String(v)]. *)
Definition show (v : strlike) : string :=
  match v with
  | Str s => s
  | PromiseOf _ => "[object Promise]"
  end.

Definition script := list (list string * CmdResult).

Fixpoint same_args (a b : list string) : bool :=
  match a, b with
  | [], [] => true
  | x :: a', y :: b' => String.eqb x y && same_args a' b'
  | _, _ => false
  end.

(** The tool's answer to a command line it does not know. *)
Definition unknown : CmdResult := mkCmdResult 128 EmptyString "fatal".

Fixpoint answer (sc : script) (args : list string) : CmdResult :=
  match sc with
  | [] => unknown
  | (a, r) :: sc' => if same_args a args then r else answer sc' args
  end.

Definition spawn (sc : script) (cmd : list strlike) (index : option string)
           (w : disk) : outcome CmdResult * disk :=
  (Ret (answer sc (map show cmd)), w).


Definition SCRATCH : string := "/tmp/scratch-index".

Definition makeTempFile (w : disk) : outcome string * disk :=
  (Ret SCRATCH, SCRATCH :: w).

Definition removeFile (p : string) (w : disk) : outcome unit * disk :=
  if mem p w
  then (Ret tt, filter (fun q => negb (String.eqb q p)) w)
  else (Throw (HostError "NotFound"), w).

(** A file system that refuses every removal. *)
Definition removeFile_denied (p : string) (w : disk) : outcome unit * disk :=
  (Throw (HostError "PermissionDenied"), w).

Definition initial : state disk := mkState [] [] [].

Definition ok (out : string) : CmdResult := mkCmdResult 0 out EmptyString.
Definition failed (n : nat) : CmdResult := mkCmdResult n EmptyString "fatal".

Definition lines (l : list string) : string :=
  String.concat (String LF EmptyString) l.

Definition tabbed (l : list string) : string :=
  String.concat (String TAB EmptyString) l.

End Scripted.

(* ================================================================= *)
(** * Part V. Vocabulary of the properties *)
(* ================================================================= *)

(** The path fields of a listing, one per non-empty line, in the order of
    the lines. *)
Definition listed_paths (lsOutput : string) : list string :=
  map path_of_line (filter truthy (split_lines lsOutput)).

(** The position at which [x] first occurs in [l] (the length of [l] when
    it does not occur). *)
Fixpoint first_index (x : string) (l : list string) : nat :=
  match l with
  | [] => 0
  | y :: l' => if String.eqb y x then 0 else S (first_index x l')
  end.

(** [l] without the later copies of any of its members. *)
Fixpoint first_occurrences (l : list string) : list string :=
  match l with
  | [] => []
  | x :: l' =>
      x :: filter (fun y => negb (String.eqb y x)) (first_occurrences l')
  end.

(** [p] occurs before [q] in the listing of paths [l]. *)
Definition occurs_first (l : list string) (p q : string) : Prop :=
  first_index p l < first_index q l.

Fixpoint has_space (s : string) : bool :=
  match s with
  | EmptyString => false
  | String c s' => is_space c || has_space s'
  end.

(** A line of [report] begins with one of the structural headers. *)
Definition has_structural_line (report : string) : Prop :=
  exists line header,
    In line (split_lines report) /\
    In header STRUCTURAL_HEADERS /\
    starts_with header line = true.

(** ** Runs and their traces *)

(** The events a run adds to the trace: [st'] continues [st] with [dt]. *)
Definition extends {W} (st st' : state W) (dt : list event) : Prop :=
  trace st' = trace st ++ dt.

(** The subcommand of the wrapped tool an event is about: the second
    element of its argument vector. *)
Definition subcommand (e : event) : option string :=
  match e with
  | Spawn (_ :: Str s :: _) _ _ => Some s
  | Spawn _ _ _ => None
  end.

Definition is_subcommand (name : string) (e : event) : bool :=
  match subcommand e with
  | Some s => String.eqb s name
  | None => false
  end.

(** The event is about one of the subcommands that [allowed] accepts. *)
Definition within (allowed : string -> bool) (e : event) : bool :=
  match subcommand e with
  | Some s => allowed s
  | None => false
  end.

(** Every subcommand that a run of [m] spawns is accepted by [allowed]. *)
Definition emits {W A} (allowed : string -> bool) (m : M W A) : Prop :=
  forall st o st',
    m st = (o, st') ->
    exists dt, extends st st' dt /\ forallb (within allowed) dt = true.

(** Neither strategy's decisive subcommand. *)
Definition neither_strategy (s : string) : bool :=
  negb (String.eqb s "merge-tree") && negb (String.eqb s "ls-files").

Definition not_ls_files (s : string) : bool := negb (String.eqb s "ls-files").

Definition not_merge_tree (s : string) : bool :=
  negb (String.eqb s "merge-tree").

(** The listing of the unmerged entries of the scratch index [index], as
    the primary strategy spawns it, answered by [r]. *)
Definition listing (index : string) (r : CmdResult) : event :=
  Spawn (strs ["git"; "ls-files"; "-u"; "--stage"]) (Some index) (Ret r).

(** The fallback was consulted: the structural merge report was asked for. *)
Definition fallback_consulted (dt : list event) : Prop :=
  exists e, In e dt /\ is_subcommand "merge-tree" e = true.

(** The primary strategy reported [paths]: the one listing of the run
    parsed to [paths], and the fallback had not been consulted before. *)
Definition primary_reported (dt : list event) (paths : list string) : Prop :=
  exists before index r after,
    dt = before ++ listing index r :: after /\
    forallb (within neither_strategy) before = true /\
    forallb (within not_ls_files) after = true /\
    parseUnmergedFiles (stdout r) = paths.

(** The command line that verifies that [name] names a commit. *)
Definition verification (name : string) : list strlike :=
  strs ["git"; "rev-parse"; "--verify"; append name "^{commit}"].

(** ** Scenarios *)

Module Scenario.

Import Scripted.

Definition BASE : string := "0000000000000000000000000000000000000000".
Definition OURS : string := "1111111111111111111111111111111111111111".
Definition THEIRS : string := "2222222222222222222222222222222222222222".

(** A state in which one [TempIndex] object has been allocated. *)
Definition allocated : state disk := mkState [] [None] [].

(** A state in which that object went through [create]. *)
Definition created : state disk := mkState [SCRATCH] [Some SCRATCH] [].

(** *** A structural report without inline marker *)

Definition removed_in_local_report : string :=
  lines ["removed in local";
         "  base   100644 aaaaaaa f.txt";
         "  their  100644 bbbbbbb f.txt"].

Definition delete_modify_repo : script :=
  [ (["git"; "merge-tree"; BASE; OURS; THEIRS], ok removed_in_local_report) ].

(** *** Both sides rename the candidate path *)

Definition both_renamed_repo : script :=
  [ (["git"; "diff"; "-M"; "--name-status"; "--diff-filter=R"; BASE; OURS],
     ok (tabbed ["R100"; "a.txt"; "b.txt"]));
    (["git"; "diff"; "-M"; "--name-status"; "--diff-filter=R"; BASE; THEIRS],
     ok (tabbed ["R090"; "a.txt"; "c.txt"]));
    (["git"; "diff"; "-U3"; "--no-prefix";
      append OURS ":b.txt"; append THEIRS ":a.txt"],
     ok (lines ["diff --git b.txt a.txt"; "--- b.txt"; "+++ a.txt"])) ].

(** *** A path deleted on one side, modified on the other

    The wrapped tool prints the patch that leads from its first argument
    to its second: a path that is absent from the first commit and present
    in the second is a new file, and the other way round a deleted one. *)

Definition patch_absent_in_ours : string :=
  lines ["diff --git f.txt f.txt";
         "new file mode 100644";
         "index 0000000..2e09960";
         "--- /dev/null";
         "+++ f.txt";
         "@@ -0,0 +1 @@";
         "+modified content"].

Definition patch_absent_in_theirs : string :=
  lines ["diff --git f.txt f.txt";
         "deleted file mode 100644";
         "index 2e09960..0000000";
         "--- f.txt";
         "+++ /dev/null";
         "@@ -1 +0,0 @@";
         "-modified content"].

Definition no_renames : script :=
  [ (["git"; "diff"; "-M"; "--name-status"; "--diff-filter=R"; BASE; OURS],
     ok EmptyString);
    (["git"; "diff"; "-M"; "--name-status"; "--diff-filter=R"; BASE; THEIRS],
     ok EmptyString) ].

Definition path_diff (patch : string) : script :=
  [ (["git"; "diff"; "-U3"; "--no-prefix"; "-M"; OURS; THEIRS; "--"; "f.txt"],
     ok patch) ].

(** Ours deleted [f.txt], theirs modified it. *)
Definition ours_deleted_repo : script :=
  no_renames ++ path_diff patch_absent_in_ours.

(** Ours modified [f.txt], theirs deleted it. *)
Definition theirs_deleted_repo : script :=
  no_renames ++ path_diff patch_absent_in_theirs.

(** *** Two histories without common ancestor

    The scratch index cannot be read, so the primary strategy lists
    nothing; asked with the empty tree as base, the tool reports a
    conflict. *)

Definition orphan_report : string :=
  lines ["added in both";
         "  our    100644 aaaaaaa f.txt";
         "  their  100644 bbbbbbb f.txt";
         "@@ -1 +1,5 @@";
         "+<<<<<<< .our";
         " ours";
         "+=======";
         "+theirs";
         "+>>>>>>> .their"].

Definition orphan_repo : script :=
  [ (["git"; "rev-parse"; "--git-dir"], ok ".git");
    (["git"; "symbolic-ref"; "--quiet"; "--short"; "HEAD"], ok "feature");
    (["git"; "rev-parse"; "--verify"; "HEAD^{commit}"], ok OURS);
    (["git"; "rev-parse"; "--verify"; "main^{commit}"], ok THEIRS);
    (["git"; "hash-object"; "-t"; "tree"; "/dev/null"],
     ok WELL_KNOWN_EMPTY_TREE);
    (["git"; "merge-base"; OURS; THEIRS], mkCmdResult 1 EmptyString EmptyString);
    (["git"; "rev-parse"; append OURS "^{tree}"], ok "aaaa");
    (["git"; "rev-parse"; append THEIRS "^{tree}"], ok "bbbb");
    (["git"; "merge-tree"; WELL_KNOWN_EMPTY_TREE; OURS; THEIRS],
     ok orphan_report) ].

Definition compare_with_main : Options :=
  mkOptions false false false false true (Some "main").

Definition orphan_run
  : outcome (nat * option ConflictCheckResult) * state disk :=
  main (spawn orphan_repo) makeTempFile removeFile compare_with_main initial.

(** What the fallback hands to the host in that run. *)
Definition orphan_merge_tree_argv : list strlike :=
  [Str "git"; Str "merge-tree"; PromiseOf (Ret WELL_KNOWN_EMPTY_TREE);
   Str OURS; Str THEIRS].

(** *** A read-tree step that exits with an error *)

Definition unmerged_listing : string :=
  lines [tabbed ["100644 aaaaaaa 1"; "f.txt"];
         tabbed ["100644 bbbbbbb 2"; "f.txt"];
         tabbed ["100644 ccccccc 3"; "f.txt"]].

Definition failing_read_tree_repo : script :=
  [ (["git"; "read-tree"; "-m"; "--"; "tb"; "to"; "tt"], failed 128);
    (["git"; "ls-files"; "-u"; "--stage"], ok unmerged_listing) ].

(** *** A ref that exists on a remote only *)

Definition remote_only_repo : script :=
  [ (["git"; "remote"], ok (lines ["origin"; "upstream"]));
    (["git"; "rev-parse"; "--verify"; "upstream/develop^{commit}"],
     ok THEIRS) ].

(** *** A content conflict found by the primary strategy *)

Definition content_patch : string :=
  lines ["diff --git f.txt f.txt";
         "index 1e09960..2e09960 100644";
         "--- f.txt";
         "+++ f.txt";
         "@@ -1 +1 @@";
         "-ours";
         "+theirs"].

Definition conflicting_repo : script :=
  [ (["git"; "rev-parse"; "--git-dir"], ok ".git");
    (["git"; "symbolic-ref"; "--quiet"; "--short"; "HEAD"], ok "feature");
    (["git"; "rev-parse"; "--verify"; "HEAD^{commit}"], ok OURS);
    (["git"; "rev-parse"; "--verify"; "main^{commit}"], ok THEIRS);
    (["git"; "hash-object"; "-t"; "tree"; "/dev/null"],
     ok WELL_KNOWN_EMPTY_TREE);
    (["git"; "merge-base"; OURS; THEIRS], ok BASE);
    (["git"; "rev-parse"; append BASE "^{tree}"], ok "cccc");
    (["git"; "rev-parse"; append OURS "^{tree}"], ok "aaaa");
    (["git"; "rev-parse"; append THEIRS "^{tree}"], ok "bbbb");
    (["git"; "read-tree"; "-m"; "--"; "cccc"; "aaaa"; "bbbb"], ok EmptyString);
    (["git"; "ls-files"; "-u"; "--stage"], ok unmerged_listing) ]
  ++ no_renames ++ path_diff content_patch.

Definition compare_with_main_in_detail : Options :=
  mkOptions false false false true true (Some "main").

Definition conflicting_run
  : outcome (nat * option ConflictCheckResult) * state disk :=
  main (spawn conflicting_repo) makeTempFile removeFile
       compare_with_main_in_detail initial.

(** *** A listing with a path that holds a space *)

Definition spaced_listing : string :=
  lines [tabbed ["100644 aaaaaaa 1"; "my file.txt"];
         tabbed ["100644 bbbbbbb 3"; "my file.txt"]].

End Scenario.

(** The kind a run of the classifier reports, when it returns. *)
Definition classified {W} (run : outcome FileConflictDetail * state W)
  : option ConflictType :=
  match fst run with
  | Ret d => Some (conflict_type d)
  | Throw _ => None
  end.

(** ** Vocabulary of the further properties *)

(** A run of [m] keeps the relation [R] between the state before and the
    state after, and throws only exceptions in [E]. *)
Definition respects {W A} (R : state W -> state W -> Prop) (E : exn -> Prop)
           (m : M W A) : Prop :=
  forall st o st',
    m st = (o, st') -> R st st' /\ (forall e, o = Throw e -> E e).

(** If [v] is a rejected promise, its reason is in [E]. *)
Definition settles_within (E : exn -> Prop) (v : strlike) : Prop :=
  forall e, v = PromiseOf (Throw e) -> E e.

(** The queries of the pipeline: the argument vectors, after the program
    name, with which the wrapped tool is asked about the repository under
    the ambient index. *)
Inductive query : list strlike -> Prop :=
| query_git_dir : query (strs ["rev-parse"; "--git-dir"])
| query_head_name :
    query (strs ["symbolic-ref"; "--quiet"; "--short"; "HEAD"])
| query_head_id : query (strs ["rev-parse"; "--short"; "HEAD"])
| query_remotes : query (strs ["remote"])
| query_remote_head (remote : string) :
    query (strs ["symbolic-ref"; "--quiet";
                 append "refs/remotes/" (append remote "/HEAD")])
| query_branch (branch : string) :
    query (strs ["show-ref"; "--verify"; append "refs/heads/" branch])
| query_recent :
    query (strs ["for-each-ref"; "--sort=-committerdate";
                 "--format=%(refname:short)"; "refs/heads"])
| query_commit (name : string) :
    query (strs ["rev-parse"; "--verify"; append name "^{commit}"])
| query_empty_tree : query (strs ["hash-object"; "-t"; "tree"; "/dev/null"])
| query_merge_base (a b : string) : query (strs ["merge-base"; a; b])
| query_tree (rev : string) : query (strs ["rev-parse"; append rev "^{tree}"])
| query_merge_tree (base : strlike) (a b : string) :
    query [Str "merge-tree"; base; Str a; Str b]
| query_renames (a b : string) :
    query (strs ["diff"; "-M"; "--name-status"; "--diff-filter=R"; a; b])
| query_blob_diff (a b : string) :
    query (strs ["diff"; "-U3"; "--no-prefix"; a; b])
| query_path_diff (a b file : string) :
    query (strs ["diff"; "-U3"; "--no-prefix"; "-M"; a; b; "--"; file]).

(** The two argument vectors that work on an index. *)
Inductive index_command : list strlike -> Prop :=
| index_read_tree (baseTree oursTree theirsTree : string) :
    index_command
      (strs ["read-tree"; "-m"; "--"; baseTree; oursTree; theirsTree])
| index_listing : index_command (strs ["ls-files"; "-u"; "--stage"]).

(** What a run may hand to the host: the program is git; under the
    ambient index the arguments are a query, or [fetch --all] when
    fetching was asked for; under [GIT_INDEX_FILE] they are one of the two
    index commands, and the index is the scratch file [scratch]. *)
Definition harmless (fetching : bool) (scratch : option string)
           (cmd : list strlike) (index : option string) : Prop :=
  exists args,
    cmd = Str "git" :: args /\
    match index with
    | None => query args \/ (fetching = true /\ args = strs ["fetch"; "--all"])
    | Some p => index_command args /\ scratch = Some p
    end.

(** The event is a command that [policy] accepts under its index. *)
Definition permitted (policy : list strlike -> option string -> Prop)
           (e : event) : Prop :=
  match e with
  | Spawn cmd index _ => policy cmd index
  end.

(** The name is one that the host's [makeTempFile] returned. *)
Definition returned_by {W} (makeTempFile : W -> outcome string * W)
           (p : string) : Prop :=
  exists w w', makeTempFile w = (Ret p, w').

(** A [GitError] carries the exit code 2. *)
Definition git_error_code_is_2 (e : exn) : Prop :=
  match e with
  | GitError _ exit => exit = 2
  | _ => True
  end.

(** The exception comes from the host run time. *)
Definition from_host (e : exn) : Prop := exists what, e = HostError what.

(** An exception of the program, which the entry point turns into the
    exit code 2. *)
Definition exits_with_2 (e : exn) : Prop :=
  match e with
  | GitError _ exit => exit = 2
  | Error _ => True
  | HostError _ => True
  | Uncaught _ => False
  end.

(** The command of the call that [main] does not await. *)
Definition EMPTY_TREE_QUERY : list strlike :=
  strs ["git"; "hash-object"; "-t"; "tree"; "/dev/null"].

(** The outside world of a state. *)
Definition world_of {W} (st : state W) : W := world st.

(** A world made of a tool with a state of its own and of a file system
    that the tool does not reach. *)
Module Isolated.

Definition world (T : Type) : Type := (T * list string)%type.

Definition spawn {T} (tool : list strlike -> option string -> T ->
                             outcome CmdResult * T)
           (cmd : list strlike) (index : option string) (w : world T)
  : outcome CmdResult * world T :=
  match tool cmd index (fst w) with
  | (o, t') => (o, (t', snd w))
  end.

(** The file system creates the scratch file unless [full] says that it
    has no room. *)
Definition makeTempFile {T} (full : T -> bool) (w : world T)
  : outcome string * world T :=
  if full (fst w) then (Throw (HostError "QuotaExceeded"), w)
  else (Ret Scripted.SCRATCH, (fst w, Scripted.SCRATCH :: snd w)).

(** The file system removes a file that exists unless [refuses] says
    that the removal is denied. *)
Definition removeFile {T} (refuses : string -> T -> bool) (p : string)
           (w : world T) : outcome unit * world T :=
  if refuses p (fst w) then (Throw (HostError "PermissionDenied"), w)
  else if mem p (snd w)
  then (Ret tt, (fst w, filter (fun q => negb (String.eqb q p)) (snd w)))
  else (Throw (HostError "NotFound"), w).

(** The files on disk. *)
Definition files_on_disk {T} (st : state (world T)) : list string :=
  snd (world_of st).

End Isolated.

(** Where a recorded path comes from.  Some line of the report begins
    with a structural header and one of the three lines after it is a
    side line of the path; or some line begins with [merged] or [result],
    is a result line of the path, and among the nineteen lines after it
    one begins with the conflict marker while no line before that one
    begins a section. *)
Definition recorded_from (lines : list string) (f : string) : Prop :=
  exists before line after,
    lines = before ++ line :: after /\
    ((starts_with_any STRUCTURAL_HEADERS line = true /\
      exists l, In l (firstn 3 after) /\ match_side_line l = Some f) \/
     ((starts_with "merged" line || starts_with "result" line) = true /\
      match_result_line line = Some f /\
      exists pre m post,
        firstn 19 after = pre ++ m :: post /\
        starts_with CONFLICT_MARKER m = true /\
        Forall (fun l => starts_with_any SECTION_STARTS l = false) pre)).

(** The subcommands spawned between two states are all accepted by
    [policy]. *)
Definition spawns_within {W} (policy : list strlike -> option string -> Prop)
           (st st' : state W) : Prop :=
  exists dt, extends st st' dt /\ Forall (permitted policy) dt.

(** Every exception is allowed. *)
Definition any_exn (e : exn) : Prop := True.

(** A key other than [__proto__]. *)
Definition ordinary_key (k : string) : bool := negb (String.eqb k PROTO).

(** The result object is in keeping with the exit code and with the
    options: the exit code tells the flag, a clear flag comes with no
    path, the paths are distinct, and the ids are not empty.  With
    [--diff] the keys of [files] are the paths other than [__proto__], as
    the host language enumerates them, and the prototype of [files] was
    replaced only if [__proto__] is among the paths; without [--diff],
    [files] is the empty object. *)
Definition consistent_result (o : Options) (exit : nat)
           (res : ConflictCheckResult) : Prop :=
  exit = (if conflicts res then 1 else 0) /\
  (conflicts res = false -> conflicted_files res = []) /\
  NoDup (conflicted_files res) /\
  (if opt_diff o
   then own_keys (files res)
        = key_order (filter ordinary_key (conflicted_files res)) /\
        (prototype (files res) <> None <-> In PROTO (conflicted_files res))
   else files res = empty_object) /\
  truthy (ours_commit res) = true /\
  truthy (theirs_commit res) = true /\
  merge_base res <> Some EmptyString.

(** [res'] is [res] but for its [files]. *)
Definition same_but_files (res res' : ConflictCheckResult) : Prop :=
  current_ref res' = current_ref res /\
  other_ref res' = other_ref res /\
  ours_commit res' = ours_commit res /\
  theirs_commit res' = theirs_commit res /\
  merge_base res' = merge_base res /\
  conflicts res' = conflicts res /\
  conflicted_files res' = conflicted_files res.

(** The host primitives throw host errors only. *)
Definition host_throws_host_errors {W}
           (spawn : list strlike -> option string -> W ->
                    outcome CmdResult * W)
           (makeTempFile : W -> outcome string * W)
           (removeFile : string -> W -> outcome unit * W) : Prop :=
  (forall cmd index w e w',
      spawn cmd index w = (Throw e, w') -> from_host e) /\
  (forall w e w', makeTempFile w = (Throw e, w') -> from_host e) /\
  (forall p w e w', removeFile p w = (Throw e, w') -> from_host e).

(** No relation between the states is asked for. *)
Definition anything {W} (st st' : state W) : Prop := True.


(** [x || "(Files are identical after rename)"] on the diff of a detail. *)
Definition text_or_identical (d : option string) : string :=
  match d with
  | Some text => text
  | None => IDENTICAL_AFTER_RENAME
  end.

(** The text of a detail record: the rename header of its side before the
    diff, or the diff alone. *)
Definition rendering (d : FileConflictDetail) : option string :=
  match rename d with
  | Some (mkRenameInfo oldName newName ours) =>
      Some (append (rename_modify_header oldName newName)
                   (text_or_identical (diff d)))
  | Some (mkRenameInfo oldName newName theirs) =>
      Some (append (modify_rename_header oldName newName)
                   (text_or_identical (diff d)))
  | None => diff d
  end.

(** The fields of a detail record fit its kind: a rename kind comes with
    the rename of [file] on its side, a message and a merge base; the
    other kinds come with no rename; [content] has no message; the two
    deletion kinds have a diff that holds their trigger.  A diff is never
    the empty text. *)
Definition well_formed_detail (file : string) (mergeBase : option string)
           (d : FileConflictDetail) : Prop :=
  match conflict_type d with
  | rename_modify =>
      nonempty mergeBase <> None /\ message d <> None /\
      exists newName, rename d = Some (mkRenameInfo file newName ours)
  | modify_rename =>
      nonempty mergeBase <> None /\ message d <> None /\
      exists newName, rename d = Some (mkRenameInfo file newName theirs)
  | content => rename d = None /\ message d = None
  | delete_modify =>
      rename d = None /\ message d <> None /\
      exists text, diff d = Some text /\
                   includes "deleted file mode" text = true
  | modify_delete =>
      rename d = None /\ message d <> None /\
      exists text, diff d = Some text /\
                   includes "new file mode" text = true /\
                   includes "deleted file mode" text = false
  end /\
  diff d <> Some EmptyString.

(** A tree name that is not empty, once the value is settled. *)
Definition names_a_tree (v : strlike) : Prop :=
  match v with
  | Str s => truthy s = true
  | PromiseOf (Ret s) => truthy s = true
  | PromiseOf (Throw _) => True
  end.

(** The trace holds a read of a remote's HEAD that succeeded. *)
Definition remote_head_read (dt : list event) : Prop :=
  exists ref_ r,
    In (Spawn (strs ["git"; "symbolic-ref"; "--quiet"; ref_]) None (Ret r)) dt /\
    succeeded r = true.

(** ** A listing as the tool prints it *)

(** One entry of [git ls-files -u --stage]. *)
Record entry := mkEntry {
  entry_mode : string;
  entry_object : string;
  entry_stage : string;
  entry_path : string
}.

(** The line of an entry: mode, object name and stage, each followed by
    a space but the stage, which is followed by a tab and the path. *)
Definition entry_line (e : entry) : string :=
  append
    (append (entry_mode e)
       (String " " (append (entry_object e) (String " " (entry_stage e)))))
    (String TAB (entry_path e)).

(** The listing of the entries, one line each, as [runCmd] hands it
    over: no line terminator after the last line. *)
Definition listing_of (es : list entry) : string :=
  String.concat (String LF EmptyString) (map entry_line es).

(** The text holds a line terminator. *)
Fixpoint has_break (s : string) : bool :=
  match s with
  | EmptyString => false
  | String c s' => Ascii.eqb c LF || Ascii.eqb c CR || has_break s'
  end.

(** No field of the entry holds white space, and the path is not
    empty. *)
Definition plain_entry (e : entry) : Prop :=
  has_space (entry_mode e) = false /\
  has_space (entry_object e) = false /\
  has_space (entry_stage e) = false /\
  has_space (entry_path e) = false /\
  entry_path e <> EmptyString.

(** ** Further scripted repositories *)

Module Repositories.

Import Scripted Scenario.

(** No remote, neither main nor master, and two local branches by
    recency. *)
Definition recency_repo : script :=
  [ (["git"; "for-each-ref"; "--sort=-committerdate";
      "--format=%(refname:short)"; "refs/heads"],
     ok (lines ["feature"; "develop"])) ].

(** Two names changed between the commits. *)
Definition changed_names_repo : script :=
  [ (["git"; "diff"; "--name-only"; OURS; THEIRS],
     ok (lines ["a.txt"; EmptyString; "b.txt"])) ].

(** Both sides rename [a.txt], and the tool answers as it does: their
    commit has no [a.txt] any more, so the diff of the two blobs fails. *)
Definition NO_SUCH_PATH : string :=
  append "fatal: path 'a.txt' does not exist in '" (append THEIRS "'").

Definition both_renamed_as_answered : script :=
  [ (["git"; "diff"; "-M"; "--name-status"; "--diff-filter=R"; BASE; OURS],
     ok (tabbed ["R100"; "a.txt"; "b.txt"]));
    (["git"; "diff"; "-M"; "--name-status"; "--diff-filter=R"; BASE; THEIRS],
     ok (tabbed ["R090"; "a.txt"; "c.txt"]));
    (["git"; "diff"; "-U3"; "--no-prefix";
      append OURS ":b.txt"; append THEIRS ":a.txt"],
     mkCmdResult 128 EmptyString NO_SUCH_PATH) ].

(** What the record says when the ours side renamed [a.txt] to [b.txt]. *)
Definition RENAMED_HERE_MODIFIED_THERE : string :=
  append "Your branch: renamed a.txt"
 (append ARROW
 (append "b.txt" (String LF "Their branch: modified a.txt"))).

(** Two paths with a space inside that end alike, each at two stages. *)
Definition colliding_listing : string :=
  lines [tabbed ["100644 aaaaaaa 2"; "draft notes.txt"];
         tabbed ["100644 bbbbbbb 3"; "draft notes.txt"];
         tabbed ["100644 ccccccc 2"; "final notes.txt"];
         tabbed ["100644 ddddddd 3"; "final notes.txt"]].

(** A tool that pads its output. *)
Definition padded_repo : script :=
  [ (["git"; "remote"],
     mkCmdResult 0 (String LF "  origin  ") (String TAB "warning ")) ].

(** The scripted host, but for the spawn of the call that [main] does
    not await, which it refuses. *)
Definition spawn_without_empty_tree (sc : script) (cmd : list strlike)
           (index : option string) (w : disk) : outcome CmdResult * disk :=
  if same_args (map show cmd)
               ["git"; "hash-object"; "-t"; "tree"; "/dev/null"]
  then (Throw (HostError "NotFound"), w)
  else spawn sc cmd index w.

(** A file system with room, and one that removes what it is asked to. *)
Definition never_full (t : unit) : bool := false.
Definition never_refuses (p : string) (t : unit) : bool := false.

(** The scripted tool of an isolated world: it answers from the table
    and keeps no state. *)
Definition scripted_tool (sc : script) (cmd : list strlike)
           (index : option string) (t : unit) : outcome CmdResult * unit :=
  (Ret (answer sc (map show cmd)), t).

(** An isolated world with one file on disk. *)
Definition one_file : state (Isolated.world unit) :=
  mkState (tt, ["/home/user/notes.txt"]) [] [].

End Repositories.

(* ================================================================= *)
(** * Part VI. Properties *)
(* ================================================================= *)

Unset Implicit Arguments.

(** ** Text primitives *)

Lemma mem_In (x : string) (l : list string) : mem x l = true <-> In x l.
Proof.
  unfold mem. rewrite existsb_exists. split.
  - intros [y [Hy E]]. apply String.eqb_eq in E. now subst.
  - intros H. exists x. split; [assumption | apply String.eqb_refl].
Qed.

Lemma mem_false (x : string) (l : list string) : mem x l = false <-> ~ In x l.
Proof.
  rewrite <- mem_In. destruct (mem x l); split; congruence.
Qed.

Lemma mem_app (x : string) (l1 l2 : list string) :
  mem x (l1 ++ l2) = mem x l1 || mem x l2.
Proof. unfold mem. apply existsb_app. Qed.

Lemma filter_twice {A} (f g : A -> bool) (l : list A) :
  filter f (filter g l) = filter (fun x => g x && f x) l.
Proof.
  induction l as [| x l IH]; simpl; [reflexivity |].
  destruct (g x); simpl; [destruct (f x) |]; congruence.
Qed.

(** The accumulator form of the insertion loop. *)
Lemma fold_set_add (l acc : list string) :
  fold_left set_add l acc =
  acc ++ filter (fun y => negb (mem y acc)) (first_occurrences l).
Proof.
  revert acc. induction l as [| x l IH]; intros acc; simpl.
  - now rewrite app_nil_r.
  - rewrite IH. unfold set_add. destruct (mem x acc) eqn:Hx; simpl.
    + f_equal. rewrite filter_twice. apply filter_ext_in. intros y _.
      destruct (String.eqb_spec y x) as [-> |]; simpl.
      * now rewrite Hx.
      * reflexivity.
    + rewrite <- app_assoc. simpl. do 2 f_equal.
      rewrite filter_twice. apply filter_ext_in. intros y _.
      rewrite mem_app. unfold mem at 2. simpl.
      rewrite orb_false_r, negb_orb. apply andb_comm.
Qed.

Lemma array_from_set_first_occurrences (l : list string) :
  array_from_set l = first_occurrences l.
Proof.
  unfold array_from_set. rewrite fold_set_add. simpl.
  induction (first_occurrences l) as [| y t IH]; simpl; congruence.
Qed.

Lemma first_occurrences_In (l : list string) (x : string) :
  In x (first_occurrences l) <-> In x l.
Proof.
  induction l as [| y l IH]; simpl; [tauto |].
  rewrite filter_In, IH. destruct (String.eqb_spec x y) as [-> | N].
  - tauto.
  - split; [tauto |]. intros [-> | H]; [congruence |].
    right. split; [assumption | reflexivity].
Qed.

Lemma first_occurrences_NoDup (l : list string) : NoDup (first_occurrences l).
Proof.
  induction l as [| y l IH]; simpl; constructor.
  - rewrite filter_In. intros [_ H]. now rewrite String.eqb_refl in H.
  - now apply NoDup_filter.
Qed.

Lemma StronglySorted_filter {A} (R : A -> A -> Prop) (f : A -> bool) l :
  StronglySorted R l -> StronglySorted R (filter f l).
Proof.
  induction 1 as [| x l _ IH Hx]; simpl; [constructor |].
  destruct (f x); [| assumption].
  constructor; [assumption |].
  rewrite Forall_forall in *. intros y Hy. apply filter_In in Hy. now apply Hx.
Qed.

Lemma StronglySorted_on {A} (R R' : A -> A -> Prop) (P : A -> Prop) l :
  (forall x y, P x -> P y -> R x y -> R' x y) ->
  Forall P l -> StronglySorted R l -> StronglySorted R' l.
Proof.
  intros HR HP HS. induction HS as [| x l _ IH Hx]; [constructor |].
  inversion HP as [| ? ? Px Pl]; subst.
  constructor; [now apply IH |].
  rewrite Forall_forall in *. intros y Hy. apply HR; auto.
Qed.

Lemma first_occurrences_sorted (l : list string) :
  StronglySorted (occurs_first l) (first_occurrences l).
Proof.
  induction l as [| x l IH]; simpl; [constructor |].
  constructor.
  - apply StronglySorted_on
      with (R := occurs_first l) (P := fun y => String.eqb y x = false).
    + unfold occurs_first. intros p q Hp Hq. simpl.
      rewrite String.eqb_sym in Hp. rewrite String.eqb_sym in Hq.
      rewrite Hp, Hq. lia.
    + rewrite Forall_forall. intros y Hy. apply filter_In in Hy.
      destruct Hy as [_ Hy]. now destruct (String.eqb y x).
    + now apply StronglySorted_filter.
  - rewrite Forall_forall. intros y Hy. apply filter_In in Hy.
    destruct Hy as [_ Hy]. unfold occurs_first. simpl.
    rewrite String.eqb_refl. rewrite String.eqb_sym in Hy.
    destruct (String.eqb x y); [discriminate | lia].
Qed.

(** ** The parser of the primary strategy *)

Lemma parseUnmergedFiles_first_occurrences (lsOutput : string) :
  parseUnmergedFiles lsOutput = first_occurrences (listed_paths lsOutput).
Proof.
  unfold parseUnmergedFiles, listed_paths.
  destruct lsOutput; simpl negb; cbv iota.
  - reflexivity.
  - apply array_from_set_first_occurrences.
Qed.

Lemma listed_paths_In (lsOutput line : string) :
  In line (split_lines lsOutput) -> truthy line = true ->
  In (path_of_line line) (listed_paths lsOutput).
Proof.
  intros Hin Ht. unfold listed_paths. apply in_map, filter_In. now split.
Qed.

Lemma split_ws_cons (c : ascii) (s : string) :
  split_ws (String c s) =
  if is_space c then
    match s with
    | String c' _ =>
        if is_space c' then split_ws s else EmptyString :: split_ws s
    | EmptyString => EmptyString :: split_ws s
    end
  else cons_head c (split_ws s).
Proof. reflexivity. Qed.

Lemma cons_head_not_nil (c : ascii) (l : list string) : cons_head c l <> [].
Proof. destruct l; discriminate. Qed.

Lemma split_ws_not_nil (s : string) : split_ws s <> [].
Proof.
  induction s as [| c s IH]; [discriminate |].
  rewrite split_ws_cons. destruct (is_space c).
  - destruct s as [| c' s']; [discriminate |].
    destruct (is_space c'); [exact IH | discriminate].
  - apply cons_head_not_nil.
Qed.

Lemma split_ws_no_space (s : string) :
  Forall (fun p => has_space p = false) (split_ws s).
Proof.
  induction s as [| c s IH]; [repeat constructor |].
  rewrite split_ws_cons. destruct (is_space c) eqn:Ec.
  - destruct s as [| c' s']; [repeat constructor |].
    destruct (is_space c'); [exact IH | now constructor].
  - destruct (split_ws s) as [| p ps]; simpl.
    + repeat constructor. simpl. now rewrite Ec.
    + inversion IH; subst. constructor; [| assumption].
      simpl. now rewrite Ec.
Qed.

Lemma last_Forall {A} (P : A -> Prop) (l : list A) (d : A) :
  P d -> Forall P l -> P (last l d).
Proof.
  intros Hd H. induction H as [| x l Hx _ IH]; [assumption |].
  destruct l; [assumption | exact IH].
Qed.

Lemma path_of_line_no_space (line : string) :
  has_space (path_of_line line) = false.
Proof.
  unfold path_of_line.
  apply last_Forall with (P := fun p => has_space p = false);
    [reflexivity | apply split_ws_no_space].
Qed.

Lemma split_ws_plain (s : string) :
  has_space s = false -> split_ws s = [s].
Proof.
  induction s as [| c s IH]; [reflexivity |].
  simpl has_space. intros H. apply orb_false_iff in H. destruct H as [Hc Hs].
  rewrite split_ws_cons, Hc, (IH Hs). reflexivity.
Qed.

(** After a white space code unit, the last piece is what follows it,
    provided that holds no white space. *)
Lemma split_ws_last_token (pre : string) (c : ascii) (tok : string) :
  is_space c = true -> has_space tok = false ->
  exists pieces p,
    split_ws (append pre (String c tok)) = pieces ++ [p; tok].
Proof.
  intros Hc Htok. induction pre as [| a pre IH]; simpl append.
  - rewrite split_ws_cons, Hc. exists [], EmptyString.
    destruct tok as [| c' tok']; [reflexivity |].
    simpl in Htok. apply orb_false_iff in Htok. destruct Htok as [Hc' Htok'].
    rewrite Hc'. rewrite split_ws_plain; [reflexivity |].
    simpl. now rewrite Hc', Htok'.
  - destruct IH as [pieces [p IH]].
    rewrite split_ws_cons.
    destruct (append pre (String c tok)) as [| b rest] eqn:E.
    { destruct pre; discriminate. }
    rewrite IH. destruct (is_space a).
    + destruct (is_space b).
      * now exists pieces, p.
      * now exists (EmptyString :: pieces), p.
    + destruct pieces as [| q qs]; simpl.
      * now exists [], (String a p).
      * now exists (String a q :: qs), p.
Qed.

Lemma path_of_line_last_token (pre : string) (c : ascii) (tok : string) :
  is_space c = true -> has_space tok = false ->
  path_of_line (append pre (String c tok)) = tok.
Proof.
  intros Hc Htok.
  destruct (split_ws_last_token pre c tok Hc Htok) as [pieces [p E]].
  unfold path_of_line. rewrite E.
  change (pieces ++ [p; tok]) with (pieces ++ [p] ++ [tok]).
  rewrite app_assoc. apply last_last.
Qed.

(** What [parseUnmergedFiles] does with the fields it takes from the
    lines: whatever the number of lines on which a field occurs, it is
    returned exactly once; the fields come out in the order in which they
    first occur, and nothing else comes out.  The field of a line is the
    path that the line lists when the path holds no white space
    ([parseUnmergedFiles_on_plain_paths]), and need not be otherwise. *)
Theorem parseUnmergedFiles_once_in_first_occurrence_order (lsOutput : string) :
  (forall line,
      In line (split_lines lsOutput) -> truthy line = true ->
      count_occ string_dec (parseUnmergedFiles lsOutput) (path_of_line line)
      = 1) /\
  StronglySorted (occurs_first (listed_paths lsOutput))
                 (parseUnmergedFiles lsOutput) /\
  (forall p, In p (parseUnmergedFiles lsOutput) ->
             In p (listed_paths lsOutput)).
Proof.
  rewrite parseUnmergedFiles_first_occurrences. repeat split.
  - intros line Hin Ht.
    apply NoDup_count_occ'; [apply first_occurrences_NoDup |].
    apply first_occurrences_In. now apply listed_paths_In.
  - apply first_occurrences_sorted.
  - intros p. apply first_occurrences_In.
Qed.

(** C9. Of every non-empty line, [parseUnmergedFiles] records the last
    white-space-delimited field and nothing else: each recorded path is
    such a field and holds no white space.  So a path with white space
    inside is never returned in full: what is recorded for its line is
    the token after its last white space. *)
Theorem parseUnmergedFiles_records_last_field (lsOutput : string) :
  (forall line,
      In line (split_lines lsOutput) -> truthy line = true ->
      In (last (split_ws line) EmptyString) (parseUnmergedFiles lsOutput)) /\
  (forall p,
      In p (parseUnmergedFiles lsOutput) ->
      has_space p = false /\
      exists line,
        In line (split_lines lsOutput) /\ truthy line = true /\
        p = last (split_ws line) EmptyString) /\
  (forall pre c tok,
      is_space c = true -> has_space tok = false ->
      In (append pre (String c tok)) (split_lines lsOutput) ->
      In tok (parseUnmergedFiles lsOutput) /\
      forall meta,
        ~ In (append meta (String c tok)) (parseUnmergedFiles lsOutput)).
Proof.
  rewrite parseUnmergedFiles_first_occurrences.
  assert (Hrec : forall line,
             In line (split_lines lsOutput) -> truthy line = true ->
             In (path_of_line line) (first_occurrences (listed_paths lsOutput))).
  { intros line Hin Ht. apply first_occurrences_In. now apply listed_paths_In. }
  assert (Hfield : forall p,
             In p (first_occurrences (listed_paths lsOutput)) ->
             exists line,
               In line (split_lines lsOutput) /\ truthy line = true /\
               p = path_of_line line).
  { intros p Hp. rewrite first_occurrences_In in Hp. unfold listed_paths in Hp.
    apply in_map_iff in Hp. destruct Hp as [line [E Hl]].
    apply filter_In in Hl. destruct Hl as [Hl Ht]. now exists line. }
  split; [exact Hrec | split].
  - intros p Hp. destruct (Hfield p Hp) as [line [Hl [Ht E]]]. split.
    + subst p. apply path_of_line_no_space.
    + now exists line.
  - intros pre c tok Hc Htok Hin. split.
    + rewrite <- (path_of_line_last_token pre c tok Hc Htok).
      apply Hrec; [assumption |]. now destruct pre.
    + intros meta Hbad. destruct (Hfield _ Hbad) as [line [_ [_ E]]].
      assert (Hs : has_space (append meta (String c tok)) = false)
        by (rewrite E; apply path_of_line_no_space).
      clear - Hs Hc. induction meta as [| a meta IH]; simpl in Hs.
      * now rewrite Hc in Hs.
      * apply orb_false_iff in Hs. now apply IH.
Qed.

(** ** The triggers of the fallback strategy *)

Lemma starts_with_trans (p a s : string) :
  starts_with p a = true -> starts_with a s = true -> starts_with p s = true.
Proof.
  unfold starts_with. revert a s.
  induction p as [| x p IH]; intros a s Hpa Has; [now destruct s |].
  destruct a as [| y a]; [discriminate |].
  destruct s as [| z s]; [discriminate |].
  simpl in *.
  destruct (ascii_dec x y) as [-> |]; [| discriminate].
  destruct (ascii_dec y z) as [-> |]; [| discriminate].
  now apply IH with a.
Qed.

Lemma starts_with_any_trans (ps : list string) (a s : string) :
  starts_with_any ps a = true -> starts_with a s = true ->
  starts_with_any ps s = true.
Proof.
  unfold starts_with_any. rewrite !existsb_exists.
  intros [p [Hp Hpa]] Has. exists p. split; [assumption |].
  now apply starts_with_trans with a.
Qed.

Lemma split_lines_cons (c : ascii) (s : string) :
  split_lines (String c s) =
  if Ascii.eqb c LF then EmptyString :: split_lines s
  else
    match s with
    | String c' s'' =>
        if Ascii.eqb c CR && Ascii.eqb c' LF
        then EmptyString :: split_lines s''
        else cons_head c (split_lines s)
    | EmptyString => cons_head c (split_lines s)
    end.
Proof. reflexivity. Qed.

Lemma split_lines_not_nil (s : string) : split_lines s <> [].
Proof.
  destruct s as [| c s]; [discriminate |].
  rewrite split_lines_cons. destruct (Ascii.eqb c LF); [discriminate |].
  destruct s as [| c' s'']; [apply cons_head_not_nil |].
  destruct (Ascii.eqb c CR && Ascii.eqb c' LF);
    [discriminate | apply cons_head_not_nil].
Qed.

Lemma tl_cons_head (c : ascii) (l : list string) :
  l <> [] -> tl (cons_head c l) = tl l.
Proof. destruct l; [congruence | reflexivity]. Qed.

Lemma hd_cons_head (c : ascii) (l : list string) :
  l <> [] -> hd EmptyString (cons_head c l) = String c (hd EmptyString l).
Proof. destruct l; [congruence | reflexivity]. Qed.

(** The first line is a prefix of the text. *)
Lemma first_line_prefix (s : string) :
  starts_with (hd EmptyString (split_lines s)) s = true.
Proof.
  induction s as [| c s IH]; [reflexivity |].
  assert (Hc : starts_with
                 (hd EmptyString (cons_head c (split_lines s))) (String c s)
               = true).
  { rewrite hd_cons_head by apply split_lines_not_nil.
    unfold starts_with in *. simpl.
    destruct (ascii_dec c c); [exact IH | congruence]. }
  rewrite split_lines_cons. destruct (Ascii.eqb c LF); [reflexivity |].
  destruct s as [| c' s'']; [exact Hc |].
  destruct (Ascii.eqb c CR && Ascii.eqb c' LF); [reflexivity | exact Hc].
Qed.

Lemma in_hd_or_tl {A} (d x : A) (l : list A) :
  In x l -> x = hd d l \/ In x (tl l).
Proof. destruct l; simpl; [tauto | intros [<- | H]; auto]. Qed.

(** A line that begins with one of the alternatives is found by the
    multi-line pattern, wherever the scan stands. *)
Lemma test_bol_any_line (ps : list string) (line s : string) (b : bool) :
  starts_with_any ps line = true ->
  (b = true /\ line = hd EmptyString (split_lines s)) \/
  In line (tl (split_lines s)) ->
  test_bol_any ps b s = true.
Proof.
  intros Hline. revert b.
  induction s as [| c s IH]; intros b [[-> ->] | Htl].
  - simpl. rewrite orb_false_r. exact Hline.
  - destruct Htl.
  - simpl test_bol_any.
    rewrite (starts_with_any_trans ps _ _ Hline (first_line_prefix _)).
    reflexivity.
  - simpl test_bol_any. apply orb_true_iff. right.
    rewrite split_lines_cons in Htl.
    destruct (Ascii.eqb_spec c LF) as [-> | Hc].
    + apply IH. simpl in Htl.
      destruct (in_hd_or_tl EmptyString _ _ Htl) as [E | H]; auto.
    + assert (Hrest : In line (tl (cons_head c (split_lines s))) ->
                      test_bol_any ps (is_line_terminator c) s = true).
      { rewrite tl_cons_head by apply split_lines_not_nil.
        intros H. apply IH. now right. }
      destruct s as [| c' s'']; [now apply Hrest |].
      destruct (Ascii.eqb_spec c CR) as [-> | Hcr];
        destruct (Ascii.eqb_spec c' LF) as [-> | Hlf];
        simpl andb in Htl; cbv iota in Htl; now apply Hrest.
Qed.

Lemma structural_line_found (report : string) :
  has_structural_line report ->
  test_multiline_prefix STRUCTURAL_HEADERS report = true.
Proof.
  intros [line [header [Hin [Hh Hp]]]].
  unfold test_multiline_prefix.
  apply test_bol_any_line with line.
  - unfold starts_with_any. apply existsb_exists. now exists header.
  - destruct (in_hd_or_tl EmptyString _ _ Hin); auto.
Qed.

(** Each trigger alone sets the flag. *)
Lemma report_has_conflicts_structural (report : string) :
  has_structural_line report -> report_has_conflicts report = true.
Proof.
  intros H. unfold report_has_conflicts.
  rewrite (structural_line_found report H). now destruct (includes _ _).
Qed.

(** ** Runs of the engine *)

Section EngineProperties.

Variable W : Type.
Variable spawn : list strlike -> option string -> W -> outcome CmdResult * W.
Variable makeTempFile : W -> outcome string * W.
Variable removeFile : string -> W -> outcome unit * W.

Local Abbreviation M := (M W).
Local Abbreviation state := (state W).

Lemma bind_run {A B} {m : M A} {k : A -> M B} {st o st'} :
  bind m k st = (o, st') ->
  (exists a st1, m st = (Ret a, st1) /\ k a st1 = (o, st')) \/
  (exists e, m st = (Throw e, st') /\ o = Throw e).
Proof.
  unfold bind. destruct (m st) as [[a | e] st1]; intros H.
  - left. now exists a, st1.
  - right. exists e. now inversion H.
Qed.

Lemma bind_ret {A B} (m : M A) (k : A -> M B) st a st1 :
  m st = (Ret a, st1) -> bind m k st = k a st1.
Proof. unfold bind. now intros ->. Qed.

Lemma bind_throw {A B} (m : M A) (k : A -> M B) st e st1 :
  m st = (Throw e, st1) -> bind m k st = (Throw e, st1).
Proof. unfold bind. now intros ->. Qed.

Lemma extends_refl (st : state) : extends st st [].
Proof. unfold extends. now rewrite app_nil_r. Qed.

Lemma extends_trans (st1 st2 st3 : state) dt1 dt2 :
  extends st1 st2 dt1 -> extends st2 st3 dt2 -> extends st1 st3 (dt1 ++ dt2).
Proof. unfold extends. intros H1 H2. now rewrite H2, H1, app_assoc. Qed.

Lemma extends_inj (st st' : state) dt1 dt2 :
  extends st st' dt1 -> extends st st' dt2 -> dt1 = dt2.
Proof.
  unfold extends. intros H1 H2. rewrite H1 in H2. now apply app_inv_head in H2.
Qed.

(** *** What the combinators emit *)

Section Emits.

Variable allowed : string -> bool.

Lemma emits_silent {A} (m : M A) :
  (forall st, trace (snd (m st)) = trace st) -> emits allowed m.
Proof.
  intros H st o st' E. exists []. split; [| reflexivity].
  unfold extends. specialize (H st). rewrite E in H. simpl in H.
  now rewrite app_nil_r.
Qed.

Lemma emits_ret {A} (a : A) : emits allowed (ret (W := W) a).
Proof. now apply emits_silent. Qed.

Lemma emits_throw {A} (e : exn) : emits allowed (throw (W := W) (A := A) e).
Proof. now apply emits_silent. Qed.

Lemma emits_bind {A B} (m : M A) (k : A -> M B) :
  emits allowed m -> (forall a, emits allowed (k a)) ->
  emits allowed (bind m k).
Proof.
  intros Hm Hk st o st' E.
  destruct (bind_run E) as [[a [st1 [E1 E2]]] | [e [E1 _]]].
  - destruct (Hm _ _ _ E1) as [dt1 [X1 F1]].
    destruct (Hk a _ _ _ E2) as [dt2 [X2 F2]].
    exists (dt1 ++ dt2). split; [now apply extends_trans with st1 |].
    now rewrite forallb_app, F1, F2.
  - exact (Hm _ _ _ E1).
Qed.

Lemma emits_try_catch {A} (m : M A) (h : exn -> M A) :
  emits allowed m -> (forall e, emits allowed (h e)) ->
  emits allowed (try_catch m h).
Proof.
  intros Hm Hh st o st' E. unfold try_catch in E.
  destruct (m st) as [[a | e] st1] eqn:E1.
  - inversion E; subst. exact (Hm _ _ _ E1).
  - destruct (Hm _ _ _ E1) as [dt1 [X1 F1]].
    destruct (Hh e _ _ _ E) as [dt2 [X2 F2]].
    exists (dt1 ++ dt2). split; [now apply extends_trans with st1 |].
    now rewrite forallb_app, F1, F2.
Qed.

Lemma emits_try_finally {A} (m : M A) (f : M unit) :
  emits allowed m -> emits allowed f -> emits allowed (try_finally m f).
Proof.
  intros Hm Hf st o st' E. unfold try_finally in E.
  destruct (m st) as [o1 st1] eqn:E1.
  destruct (f st1) as [o2 st2] eqn:E2.
  destruct (Hm _ _ _ E1) as [dt1 [X1 F1]].
  destruct (Hf _ _ _ E2) as [dt2 [X2 F2]].
  exists (dt1 ++ dt2). split.
  - apply extends_trans with st1; [assumption |].
    destruct o2; inversion E; now subst.
  - now rewrite forallb_app, F1, F2.
Qed.

Lemma emits_start {A} (m : M A) : emits allowed m -> emits allowed (start m).
Proof.
  intros Hm st o st' E. unfold start in E.
  destruct (m st) as [o1 st1] eqn:E1. inversion E; subst.
  exact (Hm _ _ _ E1).
Qed.

Lemma emits_settle (v : strlike) : emits allowed (settle (W := W) v).
Proof. destruct v as [s | [s | e]]; now apply emits_silent. Qed.

Lemma emits_report_unhandled {A} (p : outcome A) :
  emits allowed (report_unhandled (W := W) p).
Proof. destruct p; now apply emits_silent. Qed.

Lemma emits_runCmd (g : strlike) (sub : string) (rest : list strlike)
      (index : option string) :
  allowed sub = true ->
  emits allowed (runCmd spawn (g :: Str sub :: rest) index).
Proof.
  intros Ha st o st' E. unfold runCmd, start, host_spawn, bind, record in E.
  destruct (spawn _ _ _) as [[r | e] w']; simpl in E; inversion E; subst;
    eexists; (split; [unfold extends; simpl; reflexivity |]);
    simpl; unfold within; simpl; now rewrite Ha.
Qed.

Lemma emits_git (sub : string) (args : list string) :
  allowed sub = true -> emits allowed (git spawn (sub :: args)).
Proof. intros Ha. unfold git, strs. simpl. now apply emits_runCmd. Qed.

Lemma emits_get_path (t : ref) : emits allowed (get_path (W := W) t).
Proof. now apply emits_silent. Qed.

Lemma emits_set_path (t : ref) v : emits allowed (set_path (W := W) t v).
Proof. now apply emits_silent. Qed.

Lemma emits_TempIndex_new : emits allowed (TempIndex_new (W := W)).
Proof. now apply emits_silent. Qed.

Lemma emits_host_makeTempFile : emits allowed (host_makeTempFile makeTempFile).
Proof.
  apply emits_silent. intros st. unfold host_makeTempFile.
  now destruct (makeTempFile _).
Qed.

Lemma emits_host_remove (p : string) : emits allowed (host_remove removeFile p).
Proof.
  apply emits_silent. intros st. unfold host_remove.
  now destruct (removeFile _ _).
Qed.

End Emits.

Lemma emits_weaken {A} (allowed allowed' : string -> bool) (m : M A) :
  (forall s, allowed s = true -> allowed' s = true) ->
  emits allowed m -> emits allowed' m.
Proof.
  intros Hsub Hm st o st' E. destruct (Hm _ _ _ E) as [dt [X F]].
  exists dt. split; [assumption |].
  rewrite forallb_forall in *. intros e He. specialize (F e He).
  unfold within in *. destruct (subcommand e); auto.
Qed.

(** *** What the engine's functions emit *)

Ltac emits_step :=
  lazymatch goal with
  | |- emits _ (bind _ _) => apply emits_bind; [| intros ?]
  | |- emits _ (ret _) => apply emits_ret
  | |- emits _ (throw _) => apply emits_throw
  | |- emits _ (try_catch _ _) => apply emits_try_catch; [| intros ?]
  | |- emits _ (try_finally _ _) => apply emits_try_finally
  | |- emits _ (start _) => apply emits_start
  | |- emits _ (settle _) => apply emits_settle
  | |- emits _ (report_unhandled _) => apply emits_report_unhandled
  | |- emits _ (git _ _) => apply emits_git; reflexivity
  | |- emits _ (runCmd _ _ _) => apply emits_runCmd; reflexivity
  | |- emits _ (get_path _) => apply emits_get_path
  | |- emits _ (set_path _ _) => apply emits_set_path
  | |- emits _ (host_makeTempFile _) => apply emits_host_makeTempFile
  | |- emits _ (host_remove _ _) => apply emits_host_remove
  | |- emits _ (if ?b then _ else _) => destruct b
  | |- emits _ (match ?x with _ => _ end) => destruct x
  end.

Ltac emits_auto := repeat emits_step.

Lemma emits_getCurrentRef : emits neither_strategy (getCurrentRef spawn).
Proof. unfold getCurrentRef. emits_auto. Qed.

Lemma emits_remote_heads remotes :
  emits neither_strategy (remote_heads spawn remotes).
Proof.
  induction remotes as [| r rest IH]; simpl; emits_auto. exact IH.
Qed.

Lemma emits_detectDefaultBranch currentRef :
  emits neither_strategy (detectDefaultBranch spawn currentRef).
Proof.
  unfold detectDefaultBranch. emits_auto. apply emits_remote_heads.
Qed.

Lemma emits_resolve_via_remotes ref_ remotes :
  emits neither_strategy (resolve_via_remotes spawn ref_ remotes).
Proof.
  induction remotes as [| r rest IH]; simpl; unfold verify_commit;
    emits_auto. exact IH.
Qed.

Lemma emits_resolveCommit ref_ :
  emits neither_strategy (resolveCommit spawn ref_).
Proof.
  unfold resolveCommit, verify_commit. emits_auto.
  apply emits_resolve_via_remotes.
Qed.

Lemma emits_revToTree rev emptyTree :
  emits neither_strategy (revToTree spawn rev emptyTree).
Proof. unfold revToTree. emits_auto. Qed.

Lemma emits_getEmptyTreeHash : emits neither_strategy (getEmptyTreeHash spawn).
Proof. unfold getEmptyTreeHash. emits_auto. Qed.

Lemma emits_isGitRepository : emits neither_strategy (isGitRepository spawn).
Proof. unfold isGitRepository. emits_auto. Qed.

Lemma emits_fetchAll : emits neither_strategy (fetchAll spawn).
Proof. unfold fetchAll. emits_auto. Qed.

Lemma emits_getFileConflictDetail file oursCommit theirsCommit mergeBase :
  emits neither_strategy
        (getFileConflictDetail spawn file oursCommit theirsCommit mergeBase).
Proof.
  unfold getFileConflictDetail, rename_check, content_check,
    list_renames, blob_diff.
  emits_auto.
Qed.

Lemma emits_fill_details fs oursCommit theirsCommit mergeBase result :
  emits neither_strategy
        (fill_details spawn fs oursCommit theirsCommit mergeBase result).
Proof.
  revert result. induction fs as [| f rest IH]; intros result; simpl.
  - apply emits_ret.
  - apply emits_bind; [apply emits_getFileConflictDetail | intros d; apply IH].
Qed.

Lemma emits_TempIndex_create (t : ref) :
  emits neither_strategy (TempIndex_create makeTempFile t).
Proof. unfold TempIndex_create. emits_auto. Qed.

Lemma emits_TempIndex_cleanup (t : ref) :
  emits neither_strategy (TempIndex_cleanup removeFile t).
Proof. unfold TempIndex_cleanup. emits_auto. Qed.

Lemma emits_resolve_stage (o : Options) :
  emits neither_strategy (resolve_stage spawn o).
Proof.
  unfold resolve_stage.
  repeat first
    [ apply emits_isGitRepository | apply emits_fetchAll
    | apply emits_getCurrentRef | apply emits_detectDefaultBranch
    | apply emits_resolveCommit | apply emits_getEmptyTreeHash
    | apply emits_revToTree | emits_step ].
Qed.

(** *** The two strategies in a run of the pipeline *)

Lemma within_weaken (allowed allowed' : string -> bool) (dt : list event) :
  (forall s, allowed s = true -> allowed' s = true) ->
  forallb (within allowed) dt = true -> forallb (within allowed') dt = true.
Proof.
  intros Hsub F. rewrite forallb_forall in *. intros e He.
  specialize (F e He). unfold within in *. destruct (subcommand e); auto.
Qed.

Lemma neither_not_merge_tree (s : string) :
  neither_strategy s = true -> not_merge_tree s = true.
Proof. unfold neither_strategy. intros H. now apply andb_true_iff in H. Qed.

Lemma neither_not_ls_files (s : string) :
  neither_strategy s = true -> not_ls_files s = true.
Proof. unfold neither_strategy. intros H. now apply andb_true_iff in H. Qed.

(** The listing step of the primary strategy: one [ls-files] event when it
    returns. *)
Lemma listing_run {t : ref} {st o st'} :
  TempIndex_runGitWithIndex spawn t ["ls-files"; "-u"; "--stage"] st
  = (o, st') ->
  match o with
  | Ret r => exists index, extends st st' [listing index r]
  | Throw _ =>
      exists dt, extends st st' dt /\
                 forallb (within not_merge_tree) dt = true
  end.
Proof.
  unfold TempIndex_runGitWithIndex, bind, get_path.
  destruct (nonempty (nth t (heap st) None)) as [index |].
  - unfold runCmd, start, host_spawn, bind, record.
    destruct (spawn _ _ _) as [[r | e] w']; simpl; intros E;
      inversion E; subst.
    + exists index. unfold extends. reflexivity.
    + eexists. split; [unfold extends; simpl; reflexivity | reflexivity].
  - unfold throw. intros E. inversion E; subst.
    exists []. split; [apply extends_refl | reflexivity].
Qed.

Lemma emits_read_tree_step (t : ref) (baseTree oursTree theirsTree : string) :
  emits neither_strategy
    (try_catch
       (TempIndex_runGitWithIndex spawn t
          ["read-tree"; "-m"; "--"; baseTree; oursTree; theirsTree])
       (fun _ => ret (mkCmdResult 1 EmptyString EmptyString))).
Proof. unfold TempIndex_runGitWithIndex. emits_auto. Qed.

Lemma checkConflictsWithReadTree_run {baseTree oursTree theirsTree t st o st'} :
  checkConflictsWithReadTree spawn baseTree oursTree theirsTree t st
  = (o, st') ->
  exists dt,
    extends st st' dt /\
    forallb (within not_merge_tree) dt = true /\
    forall paths,
      o = Ret paths ->
      exists before index r,
        dt = before ++ [listing index r] /\
        forallb (within neither_strategy) before = true /\
        parseUnmergedFiles (stdout r) = paths.
Proof.
  unfold checkConflictsWithReadTree. intros E.
  destruct (bind_run E) as [[a [st1 [E1 E2]]] | [e [E1 ->]]];
    destruct (emits_read_tree_step _ _ _ _ _ _ _ E1) as [dt1 [X1 F1]].
  - destruct (bind_run E2) as [[r [st2 [E3 E4]]] | [e [E3 ->]]];
      apply listing_run in E3.
    + destruct E3 as [index X2]. inversion E4; subst.
      exists (dt1 ++ [listing index r]).
      split; [now apply extends_trans with st1 |]. split.
      * rewrite forallb_app.
        rewrite (within_weaken _ _ _ neither_not_merge_tree F1). reflexivity.
      * intros paths Hp. inversion Hp; subst. now exists dt1, index, r.
    + destruct E3 as [dt2 [X2 F2]]. exists (dt1 ++ dt2).
      split; [now apply extends_trans with st1 |]. split; [| discriminate].
      rewrite forallb_app, F2.
      now rewrite (within_weaken _ _ _ neither_not_merge_tree F1).
  - exists dt1. split; [assumption |]. split; [| discriminate].
    exact (within_weaken _ _ _ neither_not_merge_tree F1).
Qed.

Lemma primary_stage_run {o : Options} {r : Resolution} {t : ref} {st out st'} :
  primary_stage spawn makeTempFile o r t st = (out, st') ->
  exists dt,
    extends st st' dt /\
    forallb (within not_merge_tree) dt = true /\
    (out = Ret None ->
     exists before index lr,
       dt = before ++ [listing index lr] /\
       forallb (within neither_strategy) before = true /\
       parseUnmergedFiles (stdout lr) = []).
Proof.
  unfold primary_stage. intros E.
  destruct (bind_run E) as [[p [st1 [E1 E2]]] | [e [E1 ->]]];
    destruct (emits_TempIndex_create _ _ _ _ E1) as [dt1 [X1 F1]].
  2:{ exists dt1. split; [assumption |]. split; [| discriminate].
      exact (within_weaken _ _ _ neither_not_merge_tree F1). }
  destruct (bind_run E2) as [[paths [st2 [E3 E4]]] | [e [E3 ->]]];
    destruct (checkConflictsWithReadTree_run E3)
      as [dt2 [X2 [F2 H2]]].
  2:{ exists (dt1 ++ dt2). split; [now apply extends_trans with st1 |].
      split; [| discriminate].
      now rewrite forallb_app, F2,
        (within_weaken _ _ _ neither_not_merge_tree F1). }
  destruct paths as [| f fs].
  - inversion E4; subst. exists (dt1 ++ dt2).
    split; [now apply extends_trans with st1 |]. split.
    + now rewrite forallb_app, F2,
        (within_weaken _ _ _ neither_not_merge_tree F1).
    + intros _. destruct (H2 [] eq_refl) as [before [index [lr [-> [Fb Hp]]]]].
      exists (dt1 ++ before), index, lr. rewrite app_assoc.
      split; [reflexivity |]. split; [| assumption].
      now rewrite forallb_app, F1, Fb.
  - assert (Hfill : emits neither_strategy
             (if opt_diff o
              then fill_details spawn (f :: fs)
                     (ours_commit (with_conflicts (res_result r) (f :: fs)))
                     (theirs_commit (with_conflicts (res_result r) (f :: fs)))
                     (or_undefined (res_mergeBase r))
                     (with_conflicts (res_result r) (f :: fs))
              else ret (with_conflicts (res_result r) (f :: fs)))).
    { destruct (opt_diff o); [apply emits_fill_details | apply emits_ret]. }
    destruct (bind_run E4) as [[res [st3 [E5 E6]]] | [e [E5 ->]]];
      destruct (Hfill _ _ _ E5) as [dt3 [X3 F3]];
      exists (dt1 ++ dt2 ++ dt3);
      (split; [apply extends_trans with st1; [assumption |];
               apply extends_trans with st2; [assumption |];
               first [ now inversion E6; subst | assumption ] |]);
      (split; [| first [ now inversion E6 | discriminate ] ]);
      now rewrite !forallb_app, F2,
        (within_weaken _ _ _ neither_not_merge_tree F1),
        (within_weaken _ _ _ neither_not_merge_tree F3).
Qed.

Lemma emits_fallback_stage (o : Options) (r : Resolution) :
  emits not_ls_files (fallback_stage spawn o r).
Proof.
  unfold fallback_stage, checkConflictsWithMergeTree,
    getConflictingFilesFromMergeTree, merge_tree.
  repeat first
    [ apply (emits_weaken neither_strategy not_ls_files);
      [exact neither_not_ls_files | apply emits_fill_details]
    | emits_step ].
Qed.

(** A run of [main] either never asks for the structural report, or has
    asked for it after a listing that parsed to no path. *)
Lemma main_run {o : Options} {st out st'} :
  main spawn makeTempFile removeFile o st = (out, st') ->
  exists dt,
    extends st st' dt /\
    (forallb (within not_merge_tree) dt = true \/ primary_reported dt []).
Proof.
  unfold main. intros E.
  destruct (opt_help o).
  { inversion E; subst. exists []. split; [apply extends_refl | now left]. }
  destruct (opt_version o).
  { inversion E; subst. exists []. split; [apply extends_refl | now left]. }
  destruct (bind_run E) as [[r [st1 [E1 E2]]] | [e [E1 ->]]];
    destruct (emits_resolve_stage _ _ _ _ E1) as [dt1 [X1 F1]].
  2:{ exists dt1. split; [assumption | left].
      exact (within_weaken _ _ _ neither_not_merge_tree F1). }
  destruct (bind_run E2) as [[t [st2 [E3 E4]]] | [e [E3 ->]]];
    destruct (emits_TempIndex_new neither_strategy _ _ _ E3) as [dt2 [X2 F2]].
  2:{ exists (dt1 ++ dt2). split; [now apply extends_trans with st1 | left].
      rewrite forallb_app.
      now rewrite (within_weaken _ _ _ neither_not_merge_tree F1),
        (within_weaken _ _ _ neither_not_merge_tree F2). }
  assert (H12 : extends st st2 (dt1 ++ dt2))
    by now apply extends_trans with st1.
  assert (F12 : forallb (within neither_strategy) (dt1 ++ dt2) = true)
    by now rewrite forallb_app, F1, F2.
  clear X1 X2 F1 F2 E1 E3 E E2.
  unfold bind at 1 in E4. unfold try_finally at 1 in E4.
  destruct (primary_stage _ _ _ _ _ st2) as [early st3] eqn:Ep.
  destruct (primary_stage_run Ep) as [dt3 [X3 [F3 H3]]].
  destruct (TempIndex_cleanup removeFile t st3) as [oc st4] eqn:Ec.
  destruct (emits_TempIndex_cleanup _ _ _ _ Ec) as [dt4 [X4 F4]].
  assert (H14 : extends st st4 ((dt1 ++ dt2) ++ dt3 ++ dt4)).
  { apply extends_trans with st2; [assumption |].
    now apply extends_trans with st3. }
  assert (Fquiet : forallb (within not_merge_tree)
                           ((dt1 ++ dt2) ++ dt3 ++ dt4) = true).
  { rewrite !forallb_app in *. apply andb_true_iff in F12.
    destruct F12 as [F1 F2].
    now rewrite F3, (within_weaken _ _ _ neither_not_merge_tree F1),
      (within_weaken _ _ _ neither_not_merge_tree F2),
      (within_weaken _ _ _ neither_not_merge_tree F4). }
  destruct oc as [[] | e].
  2:{ inversion E4; subst. eexists. split; [exact H14 | now left]. }
  destruct early as [[[exit result] |] | e].
  - inversion E4; subst. eexists. split; [exact H14 | now left].
  - destruct (H3 eq_refl) as [before [index [lr [-> [Fb Hp]]]]].
    destruct (bind_run E4) as [[v [st5 [E5 E6]]] | [e [E5 ->]]];
      destruct (emits_fallback_stage _ _ _ _ _ E5) as [dt5 [X5 F5]];
      exists (((dt1 ++ dt2) ++ (before ++ [listing index lr]) ++ dt4) ++ dt5);
      (split; [apply extends_trans with st4; [assumption |];
               first [ now inversion E6; subst | assumption ] |]);
      right; exists ((dt1 ++ dt2) ++ before), index, lr, (dt4 ++ dt5);
      (split; [now rewrite <- !app_assoc |]);
      (split; [now rewrite forallb_app, F12, Fb |]);
      (split; [| assumption]);
      now rewrite forallb_app, F5,
        (within_weaken _ _ _ neither_not_ls_files F4).
  - inversion E4; subst. eexists. split; [exact H14 | now left].
Qed.

Lemma first_match_unique (P : event -> bool) (b1 b2 a1 a2 : list event)
      (x1 x2 : event) :
  forallb (fun e => negb (P e)) b1 = true ->
  forallb (fun e => negb (P e)) b2 = true ->
  P x1 = true -> P x2 = true ->
  b1 ++ x1 :: a1 = b2 ++ x2 :: a2 -> x1 = x2.
Proof.
  revert b2. induction b1 as [| y b1 IH]; intros [| z b2] F1 F2 P1 P2 E;
    simpl in *.
  - now inversion E.
  - inversion E; subst. apply andb_true_iff in F2. destruct F2 as [F2 _].
    now rewrite P1 in F2.
  - inversion E; subst. apply andb_true_iff in F1. destruct F1 as [F1 _].
    now rewrite P2 in F1.
  - inversion E; subst.
    apply andb_true_iff in F1. apply andb_true_iff in F2.
    apply (IH b2); tauto.
Qed.

Lemma neither_no_listing (dt : list event) :
  forallb (within neither_strategy) dt = true ->
  forallb (fun e => negb (is_subcommand "ls-files" e)) dt = true.
Proof.
  intros F. rewrite forallb_forall in *. intros e He. specialize (F e He).
  unfold within, is_subcommand in *. destruct (subcommand e) as [s |];
    [| reflexivity].
  unfold neither_strategy in F. apply andb_true_iff in F. tauto.
Qed.

(** A run has one report of the primary strategy at most. *)
Lemma primary_reported_unique (dt : list event) (p1 p2 : list string) :
  primary_reported dt p1 -> primary_reported dt p2 -> p1 = p2.
Proof.
  intros [b1 [i1 [r1 [a1 [E1 [F1 [_ <-]]]]]]]
         [b2 [i2 [r2 [a2 [E2 [F2 [_ <-]]]]]]].
  rewrite E1 in E2.
  apply (first_match_unique (is_subcommand "ls-files")) in E2;
    auto using neither_no_listing.
  now inversion E2.
Qed.

(** C7. In every run of the pipeline the fallback strategy is consulted
    (the structural merge report is asked for) only if the primary
    strategy reported no unmerged path; once the primary strategy has
    reported a path, the run never consults the fallback. *)
Theorem fallback_only_when_primary_reports_nothing
        (o : Options) (st st' : state)
        (out : outcome (nat * option ConflictCheckResult))
        (dt : list event) :
  main spawn makeTempFile removeFile o st = (out, st') ->
  extends st st' dt ->
  (fallback_consulted dt -> primary_reported dt []) /\
  (forall paths,
      primary_reported dt paths -> paths <> [] -> ~ fallback_consulted dt).
Proof.
  intros E X.
  assert (Hfirst : fallback_consulted dt -> primary_reported dt []).
  { destruct (main_run E) as [dt' [X' [Quiet | Reported]]];
      rewrite (extends_inj _ _ _ _ X X'); [| auto].
    intros [e [He Hm]]. rewrite forallb_forall in Quiet.
    specialize (Quiet e He). unfold within, not_merge_tree in Quiet.
    unfold is_subcommand in Hm. destruct (subcommand e); [| discriminate].
    now rewrite Hm in Quiet. }
  split; [exact Hfirst |].
  intros paths Hp Hne Hc. apply Hne.
  exact (primary_reported_unique dt paths [] Hp (Hfirst Hc)).
Qed.

(** *** The fallback trigger *)

(** C1. When the structural merge report holds a line that begins with
    one of "removed in local", "removed in remote", "added in local",
    "added in remote", "changed in both", and holds no content-conflict
    marker, [checkConflictsWithMergeTree] returns [true]: the structural
    trigger alone sets the flag. *)
Theorem structural_trigger_alone_sets_conflicts
        (mergeBase : strlike) (oursCommit theirsCommit : string)
        (emptyTree : strlike) (st st' : state) (report : CmdResult) :
  merge_tree spawn mergeBase oursCommit theirsCommit emptyTree st
  = (Ret report, st') ->
  has_structural_line (stdout report) ->
  includes CONFLICT_MARKER (stdout report) = false ->
  checkConflictsWithMergeTree spawn mergeBase oursCommit theirsCommit
                              emptyTree st
  = (Ret true, st').
Proof.
  intros Hrun Hline Hmarker. unfold checkConflictsWithMergeTree.
  rewrite (bind_ret _ _ _ _ _ Hrun). unfold ret. f_equal. f_equal.
  unfold report_has_conflicts. rewrite Hmarker.
  now rewrite (structural_line_found _ Hline).
Qed.

(** *** The scratch index *)

Lemma nth_update {A} (l : list A) (n : nat) (v d : A) :
  n < length l -> nth n (update l n v) d = v.
Proof.
  revert n. induction l as [| x l IH]; intros [| n] H; simpl in *;
    try lia; [reflexivity | apply IH; lia].
Qed.

Lemma length_update {A} (l : list A) (n : nat) (v : A) :
  length (update l n v) = length l.
Proof.
  revert n. induction l as [| x l IH]; intros [| n]; simpl; congruence.
Qed.

(** [cleanup] never throws. *)
Lemma cleanup_total (t : ref) (st : state) :
  exists st', TempIndex_cleanup removeFile t st = (Ret tt, st').
Proof.
  unfold TempIndex_cleanup, bind, get_path.
  destruct (nonempty (nth t (heap st) None)) as [p |]; [| now eexists].
  unfold try_catch, bind, host_remove, set_path, ret.
  destruct (removeFile p (world st)) as [[[] | e] w']; now eexists.
Qed.

(** With [path] unset, [cleanup] does nothing. *)
Lemma cleanup_noop (t : ref) (st : state) :
  nth t (heap st) None = None ->
  TempIndex_cleanup removeFile t st = (Ret tt, st).
Proof.
  intros H. unfold TempIndex_cleanup, bind, get_path. now rewrite H.
Qed.

(** C8. [TempIndex.cleanup] is total and idempotent.  It never throws.
    After a successful [create], the first [cleanup] removes the backing
    file and unsets [path], and every later [cleanup] leaves the state as
    it is.  When the removal fails, [cleanup] still returns, and in a
    [try ... finally] it leaves the outcome of the guarded block as it
    was. *)
Theorem cleanup_total_and_idempotent (t : ref) (st : state) :
  (exists st', TempIndex_cleanup removeFile t st = (Ret tt, st')) /\
  (forall p st1 w',
      t < length (heap st) ->
      TempIndex_create makeTempFile t st = (Ret p, st1) ->
      truthy p = true ->
      removeFile p (world st1) = (Ret tt, w') ->
      exists st2,
        TempIndex_cleanup removeFile t st1 = (Ret tt, st2) /\
        world st2 = w' /\
        nth t (heap st2) None = None /\
        TempIndex_cleanup removeFile t st2 = (Ret tt, st2)) /\
  (forall p e w',
      nonempty (nth t (heap st) None) = Some p ->
      removeFile p (world st) = (Throw e, w') ->
      TempIndex_cleanup removeFile t st
      = (Ret tt, mkState w' (heap st) (trace st))) /\
  (forall (A : Type) (m : M A) (o : outcome A) (st1 : state),
      m st = (o, st1) ->
      exists st2,
        try_finally m (TempIndex_cleanup removeFile t) st = (o, st2)).
Proof.
  split; [apply cleanup_total |]. split; [| split].
  - intros p st1 w' Ht Hcreate Hp Hrm.
    unfold TempIndex_create, bind, host_makeTempFile, set_path, ret in Hcreate.
    destruct (makeTempFile (world st)) as [[q | e] w1]; inversion Hcreate;
      subst; clear Hcreate. simpl in Hrm.
    eexists. split; [| split; [| split]].
    + unfold TempIndex_cleanup, bind, get_path. simpl.
      rewrite nth_update by assumption. simpl. rewrite Hp.
      unfold try_catch, bind, host_remove, set_path. simpl.
      rewrite Hrm. reflexivity.
    + reflexivity.
    + simpl. apply nth_update. now rewrite length_update.
    + apply cleanup_noop. simpl. apply nth_update. now rewrite length_update.
  - intros p e w' Hp Hrm. unfold TempIndex_cleanup, bind, get_path.
    rewrite Hp. unfold try_catch, bind, host_remove. now rewrite Hrm.
  - intros A m o st1 Hm. unfold try_finally. rewrite Hm.
    destruct (cleanup_total t st1) as [st2 ->]. now exists st2.
Qed.

(** *** The primary strategy when the merge step fails *)

(** After a primary strategy that found nothing, [main] goes on with the
    fallback strategy. *)
Lemma main_after_empty_primary (o : Options) (r : Resolution) (t : ref)
      (s s1 s2 s3 s4 : state) :
  opt_help o = false -> opt_version o = false ->
  resolve_stage spawn o s = (Ret r, s1) ->
  TempIndex_new s1 = (Ret t, s2) ->
  primary_stage spawn makeTempFile o r t s2 = (Ret None, s3) ->
  TempIndex_cleanup removeFile t s3 = (Ret tt, s4) ->
  main spawn makeTempFile removeFile o s
  = bind (fallback_stage spawn o r)
         (fun out => ret (fst out, Some (snd out))) s4.
Proof.
  intros Hh Hv Hr Hn Hp Hc. unfold main. rewrite Hh, Hv.
  rewrite (bind_ret _ _ _ _ _ Hr), (bind_ret _ _ _ _ _ Hn).
  unfold bind at 1. unfold try_finally. now rewrite Hp, Hc.
Qed.


(** *** Resolution of a ref *)

Lemma runCmd_run {cmd : list strlike} {index : option string} {st o st'} :
  runCmd spawn cmd index st = (o, st') ->
  extends st st' [Spawn cmd index o].
Proof.
  unfold runCmd, start, host_spawn, bind, record, extends.
  destruct (spawn _ _ _) as [[r | e] w']; simpl; intros E;
    inversion E; subst; reflexivity.
Qed.

Lemma resolve_via_remotes_run (ref_ : string) (remotes : list string)
      (st st' : state) (res : Resolved) :
  resolve_via_remotes spawn ref_ remotes st = (Ret (Some res), st') ->
  exists remote s dt,
    In remote remotes /\
    resolvedRef res = append remote (append "/" ref_) /\
    commit res = stdout s /\ succeeded s = true /\
    extends st st' dt /\
    In (Spawn (verification (resolvedRef res)) None (Ret s)) dt.
Proof.
  revert st. induction remotes as [| remote rest IH]; intros st E; simpl in E.
  - inversion E.
  - destruct (bind_run E) as [[s [st1 [E1 E2]]] | [e [_ Habs]]];
      [| discriminate].
    pose proof (runCmd_run E1) as X1.
    destruct (succeeded s) eqn:Hs.
    + inversion E2; subst res st1. simpl.
      exists remote, s,
        [Spawn (verification (append remote (append "/" ref_))) None (Ret s)].
      simpl. repeat split; auto.
    + destruct (IH _ E2) as [remote' [s' [dt [Hin [Hr [Hc [Hs' [X2 Hev]]]]]]]].
      exists remote', s',
        ([Spawn (verification (append remote (append "/" ref_))) None (Ret s)]
           ++ dt).
      repeat split; auto.
      * now right.
      * now apply extends_trans with st1.
      * apply in_or_app. now right.
Qed.

(** C10. When the direct verification of [ref] succeeds, [resolveCommit]
    returns [ref] itself as [resolvedRef].  The name is rewritten only
    when the direct verification failed, and then to "<remote>/<ref>" for
    a remote listed by the tool whose candidate was verified. *)
Theorem resolveCommit_rewrites_only_after_direct_failure
        (ref_ : string) (st : state) :
  (forall r st1,
      verify_commit spawn ref_ st = (Ret r, st1) ->
      succeeded r = true ->
      resolveCommit spawn ref_ st = (Ret (mkResolved (stdout r) ref_), st1)) /\
  (forall res st',
      resolveCommit spawn ref_ st = (Ret res, st') ->
      resolvedRef res <> ref_ ->
      (exists r st1,
          verify_commit spawn ref_ st = (Ret r, st1) /\
          succeeded r = false) /\
      (exists remote remotesRes s dt,
          resolvedRef res = append remote (append "/" ref_) /\
          commit res = stdout s /\ succeeded s = true /\
          extends st st' dt /\
          In (Spawn (strs ["git"; "remote"]) None (Ret remotesRes)) dt /\
          In remote (filter truthy (split_lines (stdout remotesRes))) /\
          In (Spawn (verification (resolvedRef res)) None (Ret s)) dt)).
Proof.
  split.
  - intros r st1 Hv Hs. unfold resolveCommit.
    rewrite (bind_ret _ _ _ _ _ Hv), Hs. reflexivity.
  - intros res st' E Hne. unfold resolveCommit in E.
    destruct (bind_run E) as [[r [st1 [E1 E2]]] | [e [_ Habs]]];
      [| discriminate].
    destruct (succeeded r) eqn:Hs.
    { inversion E2; subst. now elim Hne. }
    split; [now exists r, st1 |].
    destruct (bind_run E2) as [[remotesRes [st2 [E3 E4]]] | [e [_ Habs]]];
      [| discriminate].
    destruct (bind_run E4) as [[found [st3 [E5 E6]]] | [e [_ Habs]]];
      [| discriminate].
    destruct found as [res' |]; [| discriminate]. inversion E6; subst.
    destruct (resolve_via_remotes_run _ _ _ _ _ E5)
      as [remote [s [dt [Hin [Hr [Hc [Hs' [X Hev]]]]]]]].
    exists remote, remotesRes, s,
      ([Spawn (verification ref_) None (Ret r)]
         ++ [Spawn (strs ["git"; "remote"]) None (Ret remotesRes)] ++ dt).
    repeat split; auto.
    + apply extends_trans with st1; [exact (runCmd_run E1) |].
      apply extends_trans with st2; [exact (runCmd_run E3) | exact X].
    + simpl. auto.
    + simpl. auto.
Qed.

(** *** The rename check of the classifier *)

Lemma find_rename_old (lines : list string) (file oldName newName : string) :
  find_rename lines file = Some (oldName, newName) -> oldName = file.
Proof.
  induction lines as [| l rest IH]; simpl; [discriminate |].
  destruct (match_rename l) as [[o n] |]; [| exact IH].
  destruct (String.eqb_spec o file) as [-> |]; [| exact IH].
  intros E. now inversion E.
Qed.

(** Step 2 never classifies a rename. *)
Lemma content_check_kind (file oursCommit theirsCommit : string)
      (st st' : state) (detail : FileConflictDetail) :
  content_check spawn file oursCommit theirsCommit st = (Ret detail, st') ->
  rename detail = None /\
  (conflict_type detail = content \/
   conflict_type detail = delete_modify \/
   conflict_type detail = modify_delete).
Proof.
  unfold content_check. intros E.
  destruct (bind_run E) as [[d [st1 [_ E2]]] | [e [_ Habs]]]; [| discriminate].
  unfold classify_diff in E2.
  destruct (diff_text d) as [text |];
    [destruct (includes "deleted file mode" text);
     destruct (includes "new file mode" text) |];
    simpl in E2; inversion E2; subst; simpl; auto.
Qed.

(** The two cases of the rename check, in general.  When neither side
    lists a rename of the candidate path, [getFileConflictDetail] falls
    through to step 2, which never classifies a rename.  When both sides
    list one, it does not fall through: the branch of the ours side is
    taken, the path is classified [rename_modify] with [side = ours], and
    step 2 is not reached. *)
Theorem rename_check_gives_precedence_to_ours
        (file oursCommit theirsCommit mb : string) (st st1 st2 : state)
        (ourRenames theirRenames : CmdResult) :
  truthy mb = true ->
  list_renames spawn mb oursCommit st = (Ret ourRenames, st1) ->
  list_renames spawn mb theirsCommit st1 = (Ret theirRenames, st2) ->
  (find_rename (split_nl (stdout ourRenames)) file = None ->
   find_rename (split_nl (stdout theirRenames)) file = None ->
   getFileConflictDetail spawn file oursCommit theirsCommit (Some mb) st
   = content_check spawn file oursCommit theirsCommit st2 /\
   forall detail st',
     content_check spawn file oursCommit theirsCommit st2
     = (Ret detail, st') ->
     conflict_type detail <> rename_modify /\
     conflict_type detail <> modify_rename) /\
  (forall newOurs oldTheirs newTheirs d st3,
      find_rename (split_nl (stdout ourRenames)) file
      = Some (file, newOurs) ->
      find_rename (split_nl (stdout theirRenames)) file
      = Some (oldTheirs, newTheirs) ->
      blob_diff spawn (at_path oursCommit newOurs) (at_path theirsCommit file)
                st2
      = (Ret d, st3) ->
      exists detail,
        getFileConflictDetail spawn file oursCommit theirsCommit (Some mb) st
        = (Ret detail, st3) /\
        conflict_type detail = rename_modify /\
        rename detail = Some (mkRenameInfo file newOurs ours)).
Proof.
  intros Hmb Hours Htheirs.
  split.
  - intros Ho Ht. split.
    + unfold getFileConflictDetail, rename_check. simpl nonempty. rewrite Hmb.
      unfold bind at 1. unfold bind at 1. rewrite Hours.
      unfold bind at 1. rewrite Htheirs, Ho, Ht. reflexivity.
    + intros detail st' E.
      destruct (content_check_kind _ _ _ _ _ _ E) as [_ [K | [K | K]]];
        rewrite K; split; discriminate.
  - intros newOurs oldTheirs newTheirs d st3 Ho Ht Hd.
    eexists. split.
    + unfold getFileConflictDetail, rename_check. simpl nonempty. rewrite Hmb.
      unfold bind at 1. unfold bind at 1. rewrite Hours.
      unfold bind at 1. rewrite Htheirs, Ho.
      unfold bind at 1. rewrite Hd. reflexivity.
    + split; reflexivity.
Qed.

(** The rename kinds name the side of ours first: [rename_modify] is a
    rename on the ours side, [modify_rename] one on the theirs side. *)
Lemma rename_kinds_name_ours_first
      (file oursCommit theirsCommit : string) (mergeBase : option string)
      (st st' : state) (detail : FileConflictDetail) :
  rename_check spawn file oursCommit theirsCommit mergeBase st
  = (Ret (Some detail), st') ->
  (conflict_type detail = rename_modify /\
   exists o n, rename detail = Some (mkRenameInfo o n ours)) \/
  (conflict_type detail = modify_rename /\
   exists o n, rename detail = Some (mkRenameInfo o n theirs)).
Proof.
  unfold rename_check. intros E.
  destruct (nonempty mergeBase) as [mb |]; [| discriminate].
  destruct (bind_run E) as [[a [s1 [_ E1]]] | [e [_ Habs]]]; [| discriminate].
  destruct (bind_run E1) as [[b [s2 [_ E2]]] | [e [_ Habs]]]; [| discriminate].
  destruct (find_rename (split_nl (stdout a)) file) as [[o n] |].
  - destruct (bind_run E2) as [[d [s3 [_ E3]]] | [e [_ Habs]]];
      [| discriminate].
    inversion E3; subst. left. simpl. split; [reflexivity | now exists o, n].
  - destruct (find_rename (split_nl (stdout b)) file) as [[o n] |];
      [| discriminate].
    destruct (bind_run E2) as [[d [s3 [_ E3]]] | [e [_ Habs]]];
      [| discriminate].
    inversion E3; subst. right. simpl. split; [reflexivity | now exists o, n].
Qed.

(** *** The base of the structural report *)

(** Without merge base, every structural report of the fallback is asked
    for with [emptyTree] itself as base, as [main] holds it. *)
Lemma fallback_base_without_merge_base
      (o : Options) (r : Resolution) (st st' : state)
      (out : outcome (nat * ConflictCheckResult)) (dt : list event) :
  truthy (res_mergeBase r) = false ->
  fallback_stage spawn o r st = (out, st') ->
  extends st st' dt ->
  forall e,
    In e dt -> is_subcommand "merge-tree" e = true ->
    exists res,
      e = Spawn [Str "git"; Str "merge-tree"; res_emptyTree r;
                 Str (ours_commit (res_result r));
                 Str (theirs_commit (res_result r))] None res.
Proof.
  intros Hmb E X.
  assert (Hbase : or_else_like
                    (or_else_like (Str (res_mergeBase r)) (res_emptyTree r))
                    (res_emptyTree r) = res_emptyTree r).
  { unfold or_else_like at 2. simpl truthy_like. rewrite Hmb.
    unfold or_else_like. now destruct (truthy_like (res_emptyTree r)). }
  unfold fallback_stage, checkConflictsWithMergeTree,
    getConflictingFilesFromMergeTree, merge_tree in E.
  rewrite Hbase in E.
  destruct (bind_run E) as [[has [s1 [E1 E2]]] | [e1 [E1 ->]]].
  2:{ destruct (bind_run E1) as [[a [s2 [E3 E4]]] | [e2 [E3 _]]];
        [discriminate |].
      pose proof (runCmd_run E3) as X1.
      rewrite (extends_inj _ _ _ _ X X1). intros e [<- | []] _.
      now eexists. }
  destruct (bind_run E1) as [[a [s2 [E3 E4]]] | [e2 [_ Habs]]];
    [| discriminate].
  inversion E4; subst. clear E4. pose proof (runCmd_run E3) as X1.
  destruct (report_has_conflicts (stdout a)).
  2:{ inversion E2; subst. rewrite (extends_inj _ _ _ _ X X1).
      intros e [<- | []] _. now eexists. }
  assert (Hfill : forall fs,
             emits (neither_strategy)
               (if opt_diff o
                then fill_details spawn fs
                       (ours_commit (res_result r))
                       (theirs_commit (res_result r))
                       (or_undefined (res_mergeBase r))
                       (with_conflicts (res_result r) fs)
                else ret (with_conflicts (res_result r) fs))).
  { intros fs. destruct (opt_diff o);
      [apply emits_fill_details | apply emits_ret]. }
  assert (Hquiet : forall dt3 e,
             forallb (within neither_strategy) dt3 = true -> In e dt3 ->
             is_subcommand "merge-tree" e = true -> False).
  { intros dt3 e F He Hm. rewrite forallb_forall in F. specialize (F e He).
    unfold within, neither_strategy in F. unfold is_subcommand in Hm.
    destruct (subcommand e); [| discriminate]. rewrite Hm in F.
    discriminate. }
  destruct (bind_run E2) as [[fs [s3 [E5 E6]]] | [e3 [E5 ->]]].
  2:{ destruct (bind_run E5) as [[b [s4 [E7 E8]]] | [e4 [E7 _]]];
        [discriminate |].
      pose proof (runCmd_run E7) as X2.
      rewrite (extends_inj _ _ _ _ X (extends_trans _ _ _ _ _ X1 X2)).
      intros e [<- | [<- | []]] _; now eexists. }
  destruct (bind_run E5) as [[b [s4 [E7 E8]]] | [e4 [_ Habs]]];
    [| discriminate].
  inversion E8; subst. clear E8. pose proof (runCmd_run E7) as X2.
  destruct (bind_run E6) as [[res [s5 [E9 E10]]] | [e5 [E9 ->]]];
    destruct (Hfill _ _ _ _ E9) as [dt3 [X3 F3]];
    [inversion E10; subst |];
    rewrite (extends_inj _ _ _ _ X
               (extends_trans _ _ _ _ _ X1
                  (extends_trans _ _ _ _ _ X2 X3)));
    intros e He Hm; simpl in He;
    (destruct He as [<- | [<- | He]];
     [now eexists | now eexists | elim (Hquiet dt3 e F3 He Hm)]).
Qed.

(** The resolution stage of [main] holds [emptyTree] as a promise, and
    the result object has [merge_base = null] exactly when the merge base
    is the empty string. *)
Lemma resolve_stage_holds_a_promise
      (o : Options) (st st' : state) (r : Resolution) :
  resolve_stage spawn o st = (Ret r, st') ->
  (exists pending, res_emptyTree r = PromiseOf pending) /\
  merge_base (res_result r) = or_undefined (res_mergeBase r).
Proof.
  unfold resolve_stage. intros E.
  repeat lazymatch type of E with
    | bind _ _ _ = (Ret _, _) =>
        let a := fresh "a" in
        let s := fresh "s" in
        let E1 := fresh "E" in
        let E2 := fresh "E" in
        destruct (bind_run E) as [[a [s [E1 E2]]] | [? [_ ?]]];
        [clear E E1; rename E2 into E | discriminate]
    | (if ?b then _ else _) _ = (Ret _, _) => destruct b
    | throw _ _ = (Ret _, _) => discriminate E
    end.
  inversion E; subst. simpl. split; [now eexists | reflexivity].
Qed.

End EngineProperties.

(* ================================================================= *)
(** * Part VII. The engine on the scenarios *)
(* ================================================================= *)

Section Scenarios.

Import Scripted Scenario.

(** The report of a delete/modify conflict: a structural header, no
    marker, and the flag is set. *)
Lemma structural_trigger_witness :
  has_structural_line removed_in_local_report /\
  includes CONFLICT_MARKER removed_in_local_report = false /\
  fst (checkConflictsWithMergeTree (spawn delete_modify_repo)
         (Str BASE) OURS THEIRS (Str WELL_KNOWN_EMPTY_TREE) initial)
  = Ret true.
Proof.
  assert (Hline : has_structural_line removed_in_local_report).
  { exists "removed in local", "removed in local".
    repeat split; simpl; auto. }
  split; [exact Hline |]. split; [reflexivity |].
  rewrite (structural_trigger_alone_sets_conflicts
             disk (spawn delete_modify_repo)
             (Str BASE) OURS THEIRS (Str WELL_KNOWN_EMPTY_TREE) initial
             (snd (merge_tree (spawn delete_modify_repo)
                     (Str BASE) OURS THEIRS (Str WELL_KNOWN_EMPTY_TREE)
                     initial))
             (ok removed_in_local_report)
             eq_refl Hline eq_refl).
  reflexivity.
Defined.

(** C2, on the code.  A path that ours deleted and theirs modified is
    classified [modify_delete], and a path that ours modified and theirs
    deleted is classified [delete_modify]: the two kinds are exchanged. *)
Theorem deletion_side_is_exchanged :
  find_rename (split_nl EmptyString) "f.txt" = None /\
  includes "new file mode" patch_absent_in_ours = true /\
  includes "deleted file mode" patch_absent_in_ours = false /\
  classified (getFileConflictDetail (spawn ours_deleted_repo)
                "f.txt" OURS THEIRS (Some BASE) initial)
  = Some modify_delete /\
  includes "deleted file mode" patch_absent_in_theirs = true /\
  classified (getFileConflictDetail (spawn theirs_deleted_repo)
                "f.txt" OURS THEIRS (Some BASE) initial)
  = Some delete_modify.
Proof. repeat split; vm_compute; reflexivity. Qed.

(** C4, on the code.  Ours renames [a.txt] to [b.txt] and theirs renames
    it to [c.txt].  [getFileConflictDetail] does not fall through to
    step 2: it takes the branch of the ours side, reports
    [rename_modify], says that their branch modified [a.txt] although
    the listing of their side shows that it renamed it, and gives as the
    diff the error of the tool about the path that their commit does not
    have.  The three commands of the rename check are all that is
    spawned: the path-scoped diff of step 2 is never asked for. *)
Theorem both_sides_renamed_is_reported_as_modified :
  find_rename
    (split_nl (stdout (answer Repositories.both_renamed_as_answered
       ["git"; "diff"; "-M"; "--name-status"; "--diff-filter=R"; BASE; OURS])))
    "a.txt" = Some ("a.txt", "b.txt") /\
  find_rename
    (split_nl (stdout (answer Repositories.both_renamed_as_answered
       ["git"; "diff"; "-M"; "--name-status"; "--diff-filter=R"; BASE;
        THEIRS])))
    "a.txt" = Some ("a.txt", "c.txt") /\
  fst (getFileConflictDetail (spawn Repositories.both_renamed_as_answered)
         "a.txt" OURS THEIRS (Some BASE) initial)
  = Ret (mkDetail rename_modify
                  (Some Repositories.RENAMED_HERE_MODIFIED_THERE)
                  (Some (mkRenameInfo "a.txt" "b.txt" ours))
                  (Some Repositories.NO_SUCH_PATH)) /\
  map (fun e => match e with Spawn cmd _ _ => map show cmd end)
      (trace (snd (getFileConflictDetail
                     (spawn Repositories.both_renamed_as_answered)
                     "a.txt" OURS THEIRS (Some BASE) initial)))
  = [ ["git"; "diff"; "-M"; "--name-status"; "--diff-filter=R"; BASE; OURS];
      ["git"; "diff"; "-M"; "--name-status"; "--diff-filter=R"; BASE; THEIRS];
      ["git"; "diff"; "-U3"; "--no-prefix";
       append OURS ":b.txt"; append THEIRS ":a.txt"] ].
Proof. repeat split; vm_compute; reflexivity. Qed.

(** C5, on the code.  A path with a space inside, listed at two merge
    stages: [parseUnmergedFiles] returns one name, and it is not the
    path, which the result holds zero times.  Two such paths that end
    alike come out as one name. *)
Theorem listed_path_with_space_is_lost :
  split_lines spaced_listing
  = [tabbed ["100644 aaaaaaa 1"; "my file.txt"];
     tabbed ["100644 bbbbbbb 3"; "my file.txt"]] /\
  parseUnmergedFiles spaced_listing = ["file.txt"] /\
  count_occ string_dec (parseUnmergedFiles spaced_listing) "my file.txt" = 0 /\
  parseUnmergedFiles Repositories.colliding_listing = ["notes.txt"].
Proof. repeat split; vm_compute; reflexivity. Qed.

(** C3, on the code.  With two histories without common ancestor,
    [merge_base] is [null] and the run ends without error; but what the
    fallback hands to the host as base of the structural report is the
    promise that [main] did not await, never the empty-tree id.  The tool,
    asked with the empty-tree id, would have reported the conflict. *)
Theorem orphan_fallback_base_is_a_promise :
  (exists res,
      fst orphan_run = Ret (0, Some res) /\
      merge_base res = None /\ conflicts res = false) /\
  In (Spawn orphan_merge_tree_argv None (Ret unknown))
     (trace (snd orphan_run)) /\
  (forall index res,
      ~ In (Spawn [Str "git"; Str "merge-tree"; Str WELL_KNOWN_EMPTY_TREE;
                   Str OURS; Str THEIRS] index res)
           (trace (snd orphan_run))) /\
  report_has_conflicts
    (stdout (answer orphan_repo
               ["git"; "merge-tree"; WELL_KNOWN_EMPTY_TREE; OURS; THEIRS]))
  = true.
Proof.
  split; [| split; [| split]].
  - eexists. vm_compute. repeat split; reflexivity.
  - vm_compute. repeat (try (left; reflexivity); right).
  - intros index res H. vm_compute in H.
    repeat (destruct H as [H | H]; [discriminate H |]). exact H.
  - vm_compute. reflexivity.
Qed.

(** Ours renames [a.txt] to [b.txt], theirs renames it to [c.txt]: the path
    is classified [rename_modify], it does not fall through. *)
Lemma both_sides_renamed_counterexample :
  find_rename
    (split_nl (stdout (answer both_renamed_repo
       ["git"; "diff"; "-M"; "--name-status"; "--diff-filter=R"; BASE; OURS])))
    "a.txt" = Some ("a.txt", "b.txt") /\
  find_rename
    (split_nl (stdout (answer both_renamed_repo
       ["git"; "diff"; "-M"; "--name-status"; "--diff-filter=R"; BASE;
        THEIRS])))
    "a.txt" = Some ("a.txt", "c.txt") /\
  classified (getFileConflictDetail (spawn both_renamed_repo)
                "a.txt" OURS THEIRS (Some BASE) initial)
  = Some rename_modify.
Proof. repeat split; vm_compute; reflexivity. Qed.

(** The same repository, through the general statement. *)
Lemma rename_check_witness :
  exists detail st3,
    getFileConflictDetail (spawn both_renamed_repo)
      "a.txt" OURS THEIRS (Some BASE) initial = (Ret detail, st3) /\
    conflict_type detail = rename_modify /\
    rename detail = Some (mkRenameInfo "a.txt" "b.txt" ours).
Proof.
  destruct (rename_check_gives_precedence_to_ours
              disk (spawn both_renamed_repo) "a.txt" OURS THEIRS BASE
              initial _ _ _ _ eq_refl eq_refl eq_refl) as [_ H].
  destruct (H "b.txt" "a.txt" "c.txt" _ _ eq_refl eq_refl eq_refl)
    as [detail [E K]].
  exists detail. eexists. split; [exact E | exact K].
Defined.



(** In the run on the two unrelated histories the fallback is consulted,
    and the primary strategy had reported nothing. *)
Lemma short_circuit_witness :
  primary_reported (trace (snd orphan_run)) [].
Proof.
  assert (Hrun : main (spawn orphan_repo) makeTempFile removeFile
                      compare_with_main initial
                 = (fst orphan_run, snd orphan_run))
    by (vm_compute; reflexivity).
  assert (Hext : extends initial (snd orphan_run) (trace (snd orphan_run)))
    by reflexivity.
  destruct (fallback_only_when_primary_reports_nothing
              disk (spawn orphan_repo) makeTempFile removeFile
              compare_with_main initial (snd orphan_run) (fst orphan_run)
              (trace (snd orphan_run)) Hrun Hext) as [H _].
  apply H. exists (Spawn orphan_merge_tree_argv None (Ret unknown)).
  split; [| reflexivity].
  vm_compute. repeat (try (left; reflexivity); right).
Defined.

(** A field listed at its three merge stages comes out once. *)
Lemma listed_once_witness :
  count_occ string_dec (parseUnmergedFiles unmerged_listing) "f.txt" = 1.
Proof.
  destruct (parseUnmergedFiles_once_in_first_occurrence_order
              unmerged_listing) as [H _].
  exact (H (tabbed ["100644 aaaaaaa 1"; "f.txt"]) (or_introl eq_refl) eq_refl).
Defined.

(** Of [my file.txt] only [file.txt] is recorded. *)
Lemma last_field_witness :
  In "file.txt" (parseUnmergedFiles spaced_listing) /\
  ~ In "my file.txt" (parseUnmergedFiles spaced_listing).
Proof.
  destruct (parseUnmergedFiles_records_last_field spaced_listing)
    as [_ [_ H]].
  destruct (H (append (tabbed ["100644 aaaaaaa 1"; "my"]) EmptyString)
              " "%char "file.txt" eq_refl eq_refl (or_introl eq_refl))
    as [Hin Hout].
  split; [exact Hin | exact (Hout "my")].
Defined.

(** On the scripted file system: the first [cleanup] removes the scratch
    file, the second changes nothing, and a refused removal is
    swallowed. *)
Lemma cleanup_witness :
  TempIndex_cleanup removeFile 0 created = (Ret tt, allocated) /\
  TempIndex_cleanup removeFile 0 allocated = (Ret tt, allocated) /\
  TempIndex_cleanup removeFile_denied 0 created = (Ret tt, created).
Proof.
  destruct (cleanup_total_and_idempotent
              disk makeTempFile removeFile 0 allocated)
    as [_ [H _]].
  destruct (H SCRATCH created [] (Nat.lt_0_succ 0) eq_refl eq_refl eq_refl)
    as [st2 [H1 [H2 [H3 H4]]]].
  destruct (cleanup_total_and_idempotent
              disk makeTempFile removeFile_denied 0 created)
    as [_ [_ [H5 _]]].
  split; [| split].
  - rewrite H1. vm_compute in H1. now inversion H1.
  - reflexivity.
  - exact (H5 SCRATCH (HostError "PermissionDenied") [SCRATCH]
              eq_refl eq_refl).
Defined.

(** [develop] exists on the second remote only: the name becomes
    [upstream/develop]. *)
Lemma remote_only_witness :
  fst (resolveCommit (spawn remote_only_repo) "develop" initial)
  = Ret (mkResolved THEIRS "upstream/develop") /\
  succeeded (answer remote_only_repo
               ["git"; "rev-parse"; "--verify"; "develop^{commit}"])
  = false.
Proof.
  destruct (resolveCommit_rewrites_only_after_direct_failure
              disk (spawn remote_only_repo) "develop" initial) as [_ H].
  destruct (H (mkResolved THEIRS "upstream/develop")
              (snd (resolveCommit (spawn remote_only_repo) "develop" initial))
              eq_refl)
    as [[r [st1 [Hr Hs]]] _].
  - discriminate.
  - split; [reflexivity |]. inversion Hr; subst. exact Hs.
Defined.

(** A run in which the primary strategy reports a path: exit code 1, the
    path classified, no structural report asked for, no scratch file
    left. *)
Example primary_reports_and_main_returns :
  (exists res,
      fst conflicting_run = Ret (1, Some res) /\
      conflicts res = true /\
      conflicted_files res = ["f.txt"] /\
      merge_base res = Some BASE /\
      map (fun kv => (fst kv, conflict_type (snd kv))) (own (files res))
      = [("f.txt", content)]) /\
  forallb (within not_merge_tree) (trace (snd conflicting_run)) = true /\
  world (snd conflicting_run) = [].
Proof.
  split; [| split].
  - eexists. vm_compute. repeat split; reflexivity.
  - vm_compute. reflexivity.
  - vm_compute. reflexivity.
Qed.

End Scenarios.

(* ================================================================= *)
(** * Part VIII. Further properties of the engine *)
(* ================================================================= *)

(** ** Trimming *)

Lemma trim_start_head (s : string) :
  trim_start s = EmptyString \/
  exists c t, trim_start s = String c t /\ is_space c = false.
Proof.
  induction s as [| c s IH]; simpl; [now left |].
  destruct (is_space c) eqn:Ec; [exact IH |]. right. now exists c, s.
Qed.

Lemma trim_start_plain (c : ascii) (t : string) :
  is_space c = false -> trim_start (String c t) = String c t.
Proof. intros H. simpl. now rewrite H. Qed.

Lemma trim_end_cons (c : ascii) (s : string) :
  trim_end (String c s) =
  match trim_end s with
  | EmptyString => if is_space c then EmptyString else String c EmptyString
  | t => String c t
  end.
Proof. reflexivity. Qed.

Lemma trim_end_head (c : ascii) (t : string) :
  is_space c = false -> exists t', trim_end (String c t) = String c t'.
Proof.
  intros H. rewrite trim_end_cons, H. destruct (trim_end t); eauto.
Qed.

Lemma trim_end_twice (s : string) : trim_end (trim_end s) = trim_end s.
Proof.
  induction s as [| c s IH]; [reflexivity |].
  rewrite trim_end_cons. destruct (trim_end s) as [| d t] eqn:Et.
  - destruct (is_space c) eqn:Ec; [reflexivity |].
    rewrite trim_end_cons. simpl. now rewrite Ec.
  - rewrite trim_end_cons, IH. reflexivity.
Qed.

Lemma trim_twice (s : string) : trim (trim s) = trim s.
Proof.
  unfold trim. destruct (trim_start_head s) as [-> | [c [t [-> Hc]]]];
    [reflexivity |].
  destruct (trim_end_head c t Hc) as [t' Et]. rewrite Et.
  rewrite (trim_start_plain c t' Hc), <- Et. apply trim_end_twice.
Qed.

(** A trimmed text that is not empty begins with a code unit that is not
    white space. *)
Lemma trim_head (s : string) :
  trim s = EmptyString \/
  exists c t, trim s = String c t /\ is_space c = false.
Proof.
  unfold trim. destruct (trim_start_head s) as [-> | [c [t [-> Hc]]]];
    [now left |].
  destruct (trim_end_head c t Hc) as [t' Et]. right. now exists c, t'.
Qed.

(** ** The parser of the primary strategy, continued *)

Lemma first_occurrences_nil (l : list string) :
  first_occurrences l = [] <-> l = [].
Proof. destruct l; simpl; split; congruence. Qed.

Lemma is_space_LF : is_space LF = true.
Proof. reflexivity. Qed.

Lemma is_space_CR : is_space CR = true.
Proof. reflexivity. Qed.

(** The first line of a text that begins with a code unit other than
    white space is not empty. *)
Lemma first_line_not_empty (c : ascii) (t : string) :
  is_space c = false ->
  exists rest l, split_lines (String c t) = String c l :: rest.
Proof.
  intros Hc. rewrite split_lines_cons.
  destruct (Ascii.eqb_spec c LF) as [-> |]; [now rewrite is_space_LF in Hc |].
  assert (H : exists rest l, cons_head c (split_lines t) = String c l :: rest).
  { destruct (split_lines t) as [| l rest] eqn:E;
      [now apply split_lines_not_nil in E |].
    now exists rest, l. }
  destruct t as [| c' t'']; [exact H |].
  destruct (Ascii.eqb_spec c CR) as [-> |];
    [now rewrite is_space_CR in Hc | exact H].
Qed.

(** X1. On the output of [runCmd], which is trimmed, the primary strategy
    finds no path exactly when the listing is empty: any other listing
    yields at least one path. *)
Theorem parseUnmergedFiles_empty_iff_no_output (raw : string) :
  parseUnmergedFiles (trim raw) = [] <-> trim raw = EmptyString.
Proof.
  split.
  - intros H. destruct (trim_head raw) as [E | [c [t [E Hc]]]];
      [exact E |].
    rewrite E in H. rewrite parseUnmergedFiles_first_occurrences in H.
    apply first_occurrences_nil in H. unfold listed_paths in H.
    destruct (first_line_not_empty c t Hc) as [rest [l El]].
    rewrite El in H. simpl in H. discriminate.
  - intros ->. reflexivity.
Qed.

(** *** Listings of paths without white space *)

Lemma has_break_append (a b : string) :
  has_break (append a b) = has_break a || has_break b.
Proof.
  induction a as [| c a IH]; simpl; [reflexivity |].
  rewrite IH. now rewrite !orb_assoc.
Qed.

Lemma has_space_break (s : string) : has_space s = false -> has_break s = false.
Proof.
  induction s as [| c s IH]; simpl; [reflexivity |].
  intros H. apply orb_false_iff in H. destruct H as [Hc Hs].
  rewrite (IH Hs).
  destruct (Ascii.eqb_spec c LF) as [-> |]; [now rewrite is_space_LF in Hc |].
  destruct (Ascii.eqb_spec c CR) as [-> |]; [now rewrite is_space_CR in Hc |].
  reflexivity.
Qed.

Lemma split_lines_plain (s : string) :
  has_break s = false -> split_lines s = [s].
Proof.
  induction s as [| c s IH]; [reflexivity |].
  simpl has_break. intros H.
  apply orb_false_iff in H. destruct H as [H Hs].
  apply orb_false_iff in H. destruct H as [Hlf Hcr].
  rewrite split_lines_cons, Hlf, Hcr, (IH Hs). simpl.
  now destruct s.
Qed.

Lemma split_lines_line (l rest : string) :
  has_break l = false ->
  split_lines (append l (String LF rest)) = l :: split_lines rest.
Proof.
  induction l as [| c l IH]; intros H; [reflexivity |].
  simpl has_break in H.
  apply orb_false_iff in H. destruct H as [H Hl].
  apply orb_false_iff in H. destruct H as [Hlf Hcr].
  simpl append. rewrite split_lines_cons, Hlf, Hcr, (IH Hl). simpl.
  now destruct (append l (String LF rest)).
Qed.

Lemma split_lines_concat (l : string) (ls : list string) :
  Forall (fun x => has_break x = false) (l :: ls) ->
  split_lines (String.concat (String LF EmptyString) (l :: ls)) = l :: ls.
Proof.
  revert l. induction ls as [| l' ls IH]; intros l H.
  - simpl. apply split_lines_plain. now inversion H.
  - inversion H as [| ? ? Hl Hrest]; subst.
    change (String.concat (String LF EmptyString) (l :: l' :: ls))
      with (append l (append (String LF EmptyString)
                        (String.concat (String LF EmptyString) (l' :: ls)))).
    simpl append at 2. rewrite (split_lines_line _ _ Hl). f_equal.
    now apply IH.
Qed.

Lemma entry_line_has_no_break (e : entry) :
  plain_entry e -> has_break (entry_line e) = false.
Proof.
  intros [Hm [Ho [Hs [Hp _]]]]. unfold entry_line.
  rewrite has_break_append. simpl has_break.
  rewrite has_break_append. simpl has_break.
  rewrite has_break_append. simpl has_break.
  now rewrite !has_space_break.
Qed.

Lemma entry_line_path (e : entry) :
  plain_entry e -> path_of_line (entry_line e) = entry_path e.
Proof.
  intros [_ [_ [_ [Hp _]]]]. unfold entry_line.
  now apply path_of_line_last_token.
Qed.

Lemma entry_line_not_empty (e : entry) : truthy (entry_line e) = true.
Proof.
  unfold entry_line.
  destruct (append (entry_mode e) _) as [| c s]; reflexivity.
Qed.

Lemma listed_paths_of_entries (es : list entry) :
  Forall plain_entry es ->
  listed_paths (listing_of es) = map entry_path es.
Proof.
  intros H. unfold listed_paths, listing_of.
  destruct es as [| e0 es0] eqn:Hes; [reflexivity |]. rewrite <- Hes in *.
  assert (E : split_lines
                (String.concat (String LF EmptyString) (map entry_line es))
              = map entry_line es).
  { rewrite Hes.
    apply (split_lines_concat (entry_line e0) (map entry_line es0)).
    change (entry_line e0 :: map entry_line es0)
      with (map entry_line (e0 :: es0)).
    rewrite <- Hes.
    apply Forall_forall. intros l Hl. apply in_map_iff in Hl.
    destruct Hl as [x [<- Hx]]. apply entry_line_has_no_break.
    rewrite Forall_forall in H. now apply H. }
  rewrite E.
  assert (F : filter truthy (map entry_line es) = map entry_line es).
  { apply forallb_filter_id, forallb_forall. intros l Hl.
    apply in_map_iff in Hl. destruct Hl as [x [<- _]].
    apply entry_line_not_empty. }
  rewrite F, map_map. apply map_ext_in. intros x Hx.
  apply entry_line_path. rewrite Forall_forall in H. now apply H.
Qed.

(** On a listing whose paths hold no white space, every listed path
    comes out exactly once, in the order of first occurrence. *)
Lemma parseUnmergedFiles_on_plain_paths (es : list entry) :
  Forall plain_entry es ->
  parseUnmergedFiles (listing_of es) = first_occurrences (map entry_path es) /\
  forall e, In e es ->
            count_occ string_dec (parseUnmergedFiles (listing_of es))
                      (entry_path e) = 1.
Proof.
  intros H.
  assert (E : parseUnmergedFiles (listing_of es)
              = first_occurrences (map entry_path es))
    by now rewrite parseUnmergedFiles_first_occurrences, listed_paths_of_entries.
  split; [exact E |]. intros e He. rewrite E.
  apply NoDup_count_occ'; [apply first_occurrences_NoDup |].
  apply first_occurrences_In. now apply in_map.
Qed.

(** ** The report parser *)

Lemma set_add_In (l : list string) (x y : string) :
  In y (set_add l x) <-> In y l \/ y = x.
Proof.
  unfold set_add. destruct (mem x l) eqn:E.
  - apply mem_In in E. split; [auto |]. intros [H | ->]; assumption.
  - rewrite in_app_iff. simpl. intuition.
Qed.

Lemma set_add_NoDup (l : list string) (x : string) :
  NoDup l -> NoDup (set_add l x).
Proof.
  intros H. unfold set_add. destruct (mem x l) eqn:E; [assumption |].
  apply mem_false in E. clear - H E.
  induction H as [| y l Hy Hl IH]; simpl.
  - repeat constructor. auto.
  - constructor.
    + rewrite in_app_iff. simpl in *. intuition.
    + apply IH. simpl in E. tauto.
Qed.

Lemma record_side_lines_NoDup (w acc : list string) :
  NoDup acc -> NoDup (record_side_lines w acc).
Proof.
  unfold record_side_lines. revert acc.
  induction w as [| l w IH]; intros acc H; simpl; [assumption |].
  apply IH. destruct (match_side_line l); [now apply set_add_NoDup | assumption].
Qed.

Lemma record_side_lines_In (w acc : list string) (f : string) :
  In f (record_side_lines w acc) ->
  In f acc \/ exists l, In l w /\ match_side_line l = Some f.
Proof.
  unfold record_side_lines. revert acc.
  induction w as [| l w IH]; intros acc H; simpl in *; [now left |].
  destruct (IH _ H) as [Hacc | [l' [Hl' Hm]]].
  - destruct (match_side_line l) as [g |] eqn:E; [| now left].
    apply set_add_In in Hacc. destruct Hacc as [Hacc | ->]; [now left |].
    right. exists l. auto.
  - right. exists l'. auto.
Qed.



(** The inner loop of the content branch finds a marker exactly when a
    line of the window begins with it and no line before begins a
    section. *)
Lemma has_markers_split (w : list string) :
  has_markers w = true <->
  exists pre m post,
    w = pre ++ m :: post /\
    starts_with CONFLICT_MARKER m = true /\
    Forall (fun l => starts_with_any SECTION_STARTS l = false) pre.
Proof.
  induction w as [| l w IH]; cbn [has_markers].
  - split; [discriminate |]. intros [[| x pre] [m [post [E _]]]]; discriminate.
  - destruct (starts_with CONFLICT_MARKER l) eqn:El.
    + split; [| reflexivity]. intros _. exists [], l, w. now repeat split.
    + destruct (starts_with_any SECTION_STARTS l) eqn:Es.
      * split; [discriminate |].
        intros [[| x pre] [m [post [E [Hm Hpre]]]]]; inversion E; subst.
        -- congruence.
        -- inversion Hpre; subst. congruence.
      * rewrite IH. split.
        -- intros [pre [m [post [-> [Hm Hpre]]]]].
           exists (l :: pre), m, post. repeat split; auto.
        -- intros [[| x pre] [m [post [E [Hm Hpre]]]]]; inversion E; subst.
           ++ congruence.
           ++ inversion Hpre; subst. now exists pre, m, post.
Qed.

Lemma window_In (n : nat) (after : list string) (l : string) :
  In l (window n after) -> In l after.
Proof.
  unfold window. generalize (n - 1). intros k. revert after.
  induction k as [| k IH]; intros [| x after]; simpl; try tauto.
  intros [-> | H]; auto.
Qed.

Lemma scan_report_NoDup (lines acc : list string) :
  NoDup acc -> NoDup (scan_report lines acc).
Proof.
  revert acc. induction lines as [| line after IH]; intros acc H; simpl;
    [assumption |].
  apply IH.
  assert (H1 : NoDup (if starts_with_any STRUCTURAL_HEADERS line
                      then record_side_lines (window 4 after) acc else acc)).
  { destruct (starts_with_any _ line);
      [now apply record_side_lines_NoDup | assumption]. }
  destruct (starts_with "merged" line || starts_with "result" line);
    [| assumption].
  destruct (match_result_line line); [| assumption].
  destruct (has_markers _); [now apply set_add_NoDup | assumption].
Qed.

Lemma recorded_from_cons (line : string) (after : list string) (f : string) :
  recorded_from after f -> recorded_from (line :: after) f.
Proof.
  intros [before [l [rest [-> H]]]]. now exists (line :: before), l, rest.
Qed.

(** A path is recorded only where [recorded_from] says. *)
Lemma scan_report_In (lines acc : list string) (f : string) :
  In f (scan_report lines acc) -> In f acc \/ recorded_from lines f.
Proof.
  revert acc. induction lines as [| line after IH]; intros acc H; simpl in H;
    [now left |].
  destruct (IH _ H) as [Hacc | Hrec];
    [| right; now apply recorded_from_cons].
  assert (Hstruct :
            In f (if starts_with_any STRUCTURAL_HEADERS line
                  then record_side_lines (window 4 after) acc else acc) ->
            In f acc \/ recorded_from (line :: after) f).
  { destruct (starts_with_any STRUCTURAL_HEADERS line) eqn:Eh; [| now left].
    intros Hin. apply record_side_lines_In in Hin.
    destruct Hin as [Hin | [l [Hl Hm]]]; [now left |].
    right. exists [], line, after. split; [reflexivity |]. left.
    split; [exact Eh |]. now exists l. }
  destruct (starts_with "merged" line || starts_with "result" line) eqn:Es;
    [| now apply Hstruct].
  destruct (match_result_line line) as [g |] eqn:Er; [| now apply Hstruct].
  destruct (has_markers (window 20 after)) eqn:Em; [| now apply Hstruct].
  apply set_add_In in Hacc. destruct Hacc as [Hacc | ->];
    [now apply Hstruct |].
  right. exists [], line, after. split; [reflexivity |]. right.
  repeat split; auto. now apply has_markers_split in Em.
Qed.



(** What [recorded_from] says about a path puts a header or a marker
    line into the report. *)
Lemma recorded_from_trigger (lines : list string) (f : string) :
  recorded_from lines f ->
  (exists h, In h lines /\ starts_with_any STRUCTURAL_HEADERS h = true) \/
  (exists m, In m lines /\ starts_with CONFLICT_MARKER m = true).
Proof.
  intros [before [line [after [-> [[Eh _] | [_ [_ [pre [m [post [Ew [Hm _]]]]]]]]]]]].
  - left. exists line. split; [| exact Eh].
    apply in_or_app. right. now left.
  - right. exists m. split; [| exact Hm].
    apply in_or_app. right. right.
    assert (Hin : In m (firstn 19 after))
      by (rewrite Ew; apply in_or_app; right; now left).
    exact (window_In 20 after m Hin).
Qed.

Lemma includes_cons (p : string) (c : ascii) (s : string) :
  includes p (String c s) = starts_with p (String c s) || includes p s.
Proof. reflexivity. Qed.

(** What a line begins with occurs in the text. *)
Lemma includes_line (p line s : string) :
  starts_with p line = true ->
  line = hd EmptyString (split_lines s) \/ In line (tl (split_lines s)) ->
  includes p s = true.
Proof.
  intros Hp. induction s as [| c s IH]; intros [-> | Htl].
  - simpl in *. now rewrite Hp.
  - destruct Htl.
  - rewrite includes_cons.
    now rewrite (starts_with_trans _ _ _ Hp (first_line_prefix _)).
  - rewrite includes_cons. apply orb_true_iff. right.
    rewrite split_lines_cons in Htl.
    destruct (Ascii.eqb_spec c LF) as [-> | Hc].
    + apply IH. simpl in Htl. now apply in_hd_or_tl.
    + assert (Hrest : In line (tl (cons_head c (split_lines s))) ->
                      includes p s = true).
      { rewrite tl_cons_head by apply split_lines_not_nil.
        intros H. apply IH. now right. }
      destruct s as [| c' s'']; [now apply Hrest |].
      destruct (Ascii.eqb_spec c CR) as [-> | Hcr];
        destruct (Ascii.eqb_spec c' LF) as [-> | Hlf];
        simpl andb in Htl; cbv iota in Htl; now apply Hrest.
Qed.


(** X3. The parser and the trigger of the fallback agree: when the parser
    finds a path in a report, [checkConflictsWithMergeTree] calls that
    report conflicting.  The converse fails, see [flag_without_path]. *)
Theorem report_paths_imply_conflict_flag (report : string) :
  scan_report (split_lines report) [] <> [] ->
  report_has_conflicts report = true.
Proof.
  intros Hne.
  destruct (scan_report (split_lines report) []) as [| f fs] eqn:E;
    [congruence |].
  assert (Hin : In f (scan_report (split_lines report) []))
    by (rewrite E; now left).
  destruct (scan_report_In _ _ _ Hin) as [[] | Hrec].
  destruct (recorded_from_trigger _ _ Hrec) as [[h [Hh Hs]] | [m [Hm Hs]]].
  - apply report_has_conflicts_structural.
    unfold starts_with_any in Hs. apply existsb_exists in Hs.
    destruct Hs as [header [Hhead Hpre]]. now exists h, header.
  - unfold report_has_conflicts.
    rewrite (includes_line CONFLICT_MARKER m report Hs);
      [reflexivity | now apply in_hd_or_tl].
Qed.

(** A header without side line sets the flag and names no path. *)
Example flag_without_path :
  report_has_conflicts "changed in both" = true /\
  scan_report (split_lines "changed in both") [] = [].
Proof. split; reflexivity. Qed.

(** ** Invariants of runs *)

Section Respects.

Variable W : Type.
Variable spawn : list strlike -> option string -> W -> outcome CmdResult * W.
Variable makeTempFile : W -> outcome string * W.
Variable removeFile : string -> W -> outcome unit * W.

(** The relation kept, the exceptions allowed, the commands accepted,
    and whether [fetch] was asked for. *)
Variable R : state W -> state W -> Prop.
Variable E : exn -> Prop.
Variable policy : list strlike -> option string -> Prop.
Variable fetching : bool.

Hypothesis R_refl : forall st, R st st.
Hypothesis R_trans : forall a b c, R a b -> R b c -> R a c.
Hypothesis E_git : forall msg, E (GitError msg 2).
Hypothesis E_error : forall msg, E (Error msg).
Hypothesis E_uncaught : forall e, E e -> E (Uncaught e).
Hypothesis queries_ok :
  forall args, query args -> policy (Str "git" :: args) None.
Hypothesis fetch_ok :
  fetching = true -> policy (strs ["git"; "fetch"; "--all"]) None.
Hypothesis index_ok :
  forall args p, index_command args -> policy (Str "git" :: args) (Some p).
Hypothesis run_ok :
  forall cmd index,
    policy cmd index -> respects R E (runCmd spawn cmd index).
Hypothesis new_ok : respects R E (TempIndex_new (W := W)).
Hypothesis set_ok : forall t v, respects R E (set_path (W := W) t v).
Hypothesis mk_ok : respects R E (host_makeTempFile makeTempFile).
Hypothesis rm_ok : forall p, respects R E (host_remove removeFile p).

Lemma respects_ret {A} (a : A) : respects R E (ret (W := W) a).
Proof.
  intros st o st' H. inversion H; subst. split; [apply R_refl | discriminate].
Qed.

Lemma respects_throw {A} (e : exn) :
  E e -> respects R E (throw (W := W) (A := A) e).
Proof.
  intros He st o st' H. inversion H; subst. split; [apply R_refl |].
  intros e' H'. inversion H'; subst. exact He.
Qed.

Lemma respects_bind {A B} (m : M W A) (k : A -> M W B) :
  respects R E m -> (forall a, respects R E (k a)) ->
  respects R E (bind m k).
Proof.
  intros Hm Hk st o st' H.
  destruct (bind_run W H) as [[a [st1 [E1 E2]]] | [e [E1 ->]]].
  - destruct (Hm _ _ _ E1) as [R1 _]. destruct (Hk a _ _ _ E2) as [R2 X2].
    split; [now apply R_trans with st1 | exact X2].
  - destruct (Hm _ _ _ E1) as [R1 X1]. split; [exact R1 |].
    intros e' H'. inversion H'; subst. now apply X1.
Qed.

(** A call that is not awaited: what follows holds its settlement. *)
Lemma respects_bind_start {A B} (m : M W A) (k : outcome A -> M W B) :
  respects R E m ->
  (forall o, (forall e, o = Throw e -> E e) -> respects R E (k o)) ->
  respects R E (bind (start m) k).
Proof.
  intros Hm Hk st o st' H. unfold bind, start in H.
  destruct (m st) as [o1 st1] eqn:E1.
  destruct (Hm _ _ _ E1) as [R1 X1].
  destruct (Hk o1 X1 _ _ _ H) as [R2 X2].
  split; [now apply R_trans with st1 | exact X2].
Qed.

Lemma respects_try_catch {A} (m : M W A) (h : exn -> M W A) :
  respects R E m -> (forall e, respects R E (h e)) ->
  respects R E (try_catch m h).
Proof.
  intros Hm Hh st o st' H. unfold try_catch in H.
  destruct (m st) as [[a | e] st1] eqn:E1.
  - inversion H; subst. destruct (Hm _ _ _ E1) as [R1 _].
    split; [exact R1 | discriminate].
  - destruct (Hm _ _ _ E1) as [R1 _]. destruct (Hh e _ _ _ H) as [R2 X2].
    split; [now apply R_trans with st1 | exact X2].
Qed.

Lemma respects_try_finally {A} (m : M W A) (f : M W unit) :
  respects R E m -> respects R E f -> respects R E (try_finally m f).
Proof.
  intros Hm Hf st o st' H. unfold try_finally in H.
  destruct (m st) as [o1 st1] eqn:E1. destruct (f st1) as [o2 st2] eqn:E2.
  destruct (Hm _ _ _ E1) as [R1 X1]. destruct (Hf _ _ _ E2) as [R2 X2].
  destruct o2 as [[] | e2]; inversion H; subst.
  - split; [now apply R_trans with st1 | exact X1].
  - split; [now apply R_trans with st1 |].
    intros e H'. inversion H'; subst. now apply X2.
Qed.

Lemma respects_settle (v : strlike) :
  settles_within E v -> respects R E (settle (W := W) v).
Proof.
  intros Hv. destruct v as [s | [s | e]].
  - apply respects_ret.
  - apply respects_ret.
  - apply respects_throw. now apply Hv.
Qed.

Lemma respects_get_path (t : ref) : respects R E (get_path (W := W) t).
Proof.
  intros st o st' H. inversion H; subst. split; [apply R_refl | discriminate].
Qed.

Lemma respects_report_unhandled {A} (p : outcome A) :
  (forall e, p = Throw e -> E e) ->
  respects R E (report_unhandled (W := W) p).
Proof.
  intros Hp. destruct p as [a | e]; simpl.
  - apply respects_ret.
  - apply respects_throw, E_uncaught. now apply Hp.
Qed.

Lemma respects_git (args : list string) :
  query (strs args) -> respects R E (git spawn args).
Proof. intros H. unfold git. now apply run_ok, queries_ok. Qed.

Ltac query_ok :=
  first [ assumption
        | constructor
        | apply (query_branch "main")
        | apply (query_branch "master") ].

Ltac respects_step :=
  lazymatch goal with
  | |- respects _ _ (bind (start _) _) =>
      apply respects_bind_start; [| intros ? ?]
  | |- respects _ _ (bind _ _) => apply respects_bind; [| intros ?]
  | |- respects _ _ (ret _) => apply respects_ret
  | |- respects _ _ (throw (GitError _ _)) => apply respects_throw, E_git
  | |- respects _ _ (throw (Error _)) => apply respects_throw, E_error
  | |- respects _ _ (try_catch _ _) => apply respects_try_catch; [| intros ?]
  | |- respects _ _ (try_finally _ _) => apply respects_try_finally
  | |- respects _ _ (report_unhandled _) =>
      apply respects_report_unhandled; assumption
  | |- respects _ _ (git _ _) => apply respects_git; query_ok
  | |- respects _ _ (runCmd _ _ _) => apply run_ok, queries_ok; query_ok
  | |- respects _ _ (get_path _) => apply respects_get_path
  | |- respects _ _ (set_path _ _) => apply set_ok
  | |- respects _ _ (host_makeTempFile _) => apply mk_ok
  | |- respects _ _ (host_remove _ _) => apply rm_ok
  | |- respects _ _ (@TempIndex_new _) => apply new_ok
  | |- respects _ _ (if ?b then _ else _) => destruct b
  | |- respects _ _ (match ?x with _ => _ end) => destruct x
  end.

Ltac respects_auto := repeat respects_step.

Lemma respects_getCurrentRef : respects R E (getCurrentRef spawn).
Proof. unfold getCurrentRef. respects_auto. Qed.

Lemma respects_remote_heads remotes :
  respects R E (remote_heads spawn remotes).
Proof.
  induction remotes as [| r rest IH]; simpl; respects_auto. exact IH.
Qed.

Lemma respects_detectDefaultBranch currentRef :
  respects R E (detectDefaultBranch spawn currentRef).
Proof.
  unfold detectDefaultBranch. respects_auto. apply respects_remote_heads.
Qed.

Lemma respects_resolve_via_remotes ref_ remotes :
  respects R E (resolve_via_remotes spawn ref_ remotes).
Proof.
  induction remotes as [| r rest IH]; simpl; unfold verify_commit;
    respects_auto. exact IH.
Qed.

Lemma respects_resolveCommit ref_ : respects R E (resolveCommit spawn ref_).
Proof.
  unfold resolveCommit, verify_commit. respects_auto.
  apply respects_resolve_via_remotes.
Qed.

Lemma respects_revToTree rev emptyTree :
  settles_within E emptyTree ->
  respects R E (revToTree spawn rev emptyTree).
Proof.
  intros Hv. unfold revToTree.
  repeat first [ now apply respects_settle | respects_step ].
Qed.

Lemma respects_getEmptyTreeHash : respects R E (getEmptyTreeHash spawn).
Proof. unfold getEmptyTreeHash. respects_auto. Qed.

Lemma respects_isGitRepository : respects R E (isGitRepository spawn).
Proof. unfold isGitRepository. respects_auto. Qed.

Lemma respects_fetchAll :
  fetching = true -> respects R E (fetchAll spawn).
Proof.
  intros Hf. unfold fetchAll.
  apply respects_bind; [apply run_ok, fetch_ok, Hf | intros r].
  respects_auto.
Qed.

Lemma respects_getFileConflictDetail file oursCommit theirsCommit mergeBase :
  respects R E
    (getFileConflictDetail spawn file oursCommit theirsCommit mergeBase).
Proof.
  unfold getFileConflictDetail, rename_check, content_check,
    list_renames, blob_diff.
  respects_auto.
Qed.

Lemma respects_fileDiffFor file oursCommit theirsCommit mergeBase :
  respects R E (fileDiffFor spawn file oursCommit theirsCommit mergeBase).
Proof. unfold fileDiffFor, list_renames, blob_diff. respects_auto. Qed.

Lemma respects_fill_details fs oursCommit theirsCommit mergeBase result :
  respects R E
    (fill_details spawn fs oursCommit theirsCommit mergeBase result).
Proof.
  revert result. induction fs as [| f rest IH]; intros result; simpl.
  - apply respects_ret.
  - apply respects_bind;
      [apply respects_getFileConflictDetail | intros d; apply IH].
Qed.

Lemma respects_runGitWithIndex (t : ref) (args : list string) :
  index_command (strs args) ->
  respects R E (TempIndex_runGitWithIndex spawn t args).
Proof.
  intros Ha. unfold TempIndex_runGitWithIndex.
  apply respects_bind; [apply respects_get_path | intros p].
  destruct (nonempty p) as [path |];
    [| apply respects_throw, E_error].
  now apply run_ok, index_ok.
Qed.

Lemma respects_checkConflictsWithReadTree baseTree oursTree theirsTree t :
  respects R E
    (checkConflictsWithReadTree spawn baseTree oursTree theirsTree t).
Proof.
  unfold checkConflictsWithReadTree.
  repeat first [ apply respects_runGitWithIndex; constructor
               | respects_step ].
Qed.

Lemma respects_fallback_stage (o : Options) (r : Resolution) :
  respects R E (fallback_stage spawn o r).
Proof.
  unfold fallback_stage, checkConflictsWithMergeTree,
    getConflictingFilesFromMergeTree, merge_tree.
  repeat first [ apply respects_fill_details | respects_step ].
Qed.

Lemma respects_resolve_stage (o : Options) :
  opt_fetch o = fetching -> respects R E (resolve_stage spawn o).
Proof.
  intros Hf. unfold resolve_stage.
  apply respects_bind; [apply respects_isGitRepository | intros isRepo].
  destruct (negb isRepo); [respects_auto |].
  apply respects_bind.
  { destruct (opt_fetch o) eqn:Ef; [| apply respects_ret].
    apply respects_bind; [now apply respects_fetchAll | intros ?].
    apply respects_ret. }
  intros _.
  repeat first
    [ apply respects_getCurrentRef | apply respects_detectDefaultBranch
    | apply respects_resolveCommit | apply respects_getEmptyTreeHash
    | apply respects_revToTree;
      intros e He; inversion He; subst; auto
    | respects_step ].
Qed.

Lemma respects_TempIndex_create (t : ref) :
  respects R E (TempIndex_create makeTempFile t).
Proof. unfold TempIndex_create. respects_auto. Qed.

Lemma respects_TempIndex_cleanup (t : ref) :
  respects R E (TempIndex_cleanup removeFile t).
Proof. unfold TempIndex_cleanup. respects_auto. Qed.

Lemma respects_primary_stage (o : Options) (r : Resolution) (t : ref) :
  respects R E (primary_stage spawn makeTempFile o r t).
Proof.
  unfold primary_stage.
  repeat first [ apply respects_TempIndex_create
               | apply respects_checkConflictsWithReadTree
               | apply respects_fill_details
               | respects_step ].
Qed.

Lemma respects_main (o : Options) :
  opt_fetch o = fetching ->
  respects R E (main spawn makeTempFile removeFile o).
Proof.
  intros Hf. unfold main.
  repeat first [ now apply respects_resolve_stage
               | apply new_ok
               | apply respects_primary_stage
               | apply respects_TempIndex_cleanup
               | apply respects_fallback_stage
               | respects_step ].
Qed.

End Respects.

(** ** What a run spawns *)

Section ReadOnly.

Variable W : Type.
Variable spawn : list strlike -> option string -> W -> outcome CmdResult * W.
Variable makeTempFile : W -> outcome string * W.
Variable removeFile : string -> W -> outcome unit * W.
Variable policy : list strlike -> option string -> Prop.

Lemma spawns_within_refl (st : state W) : spawns_within policy st st.
Proof. exists []. split; [apply extends_refl | constructor]. Qed.

Lemma spawns_within_trans (a b c : state W) :
  spawns_within policy a b -> spawns_within policy b c ->
  spawns_within policy a c.
Proof.
  intros [dt1 [X1 F1]] [dt2 [X2 F2]]. exists (dt1 ++ dt2).
  split; [now apply extends_trans with b | now apply Forall_app].
Qed.

Lemma spawns_within_silent (st st' : state W) :
  trace st' = trace st -> spawns_within policy st st'.
Proof.
  intros H. exists []. split; [| constructor].
  unfold extends. now rewrite app_nil_r.
Qed.

Lemma spawns_within_runCmd (cmd : list strlike) (index : option string) :
  policy cmd index ->
  respects (spawns_within policy) any_exn (runCmd spawn cmd index).
Proof.
  intros Hp st o st' E. split; [| intros; exact I].
  exists [Spawn cmd index o].
  split; [exact (runCmd_run W spawn E) | now repeat constructor].
Qed.

Lemma spawns_within_weaken
      (policy' : list strlike -> option string -> Prop) (st st' : state W) :
  (forall cmd index, policy cmd index -> policy' cmd index) ->
  spawns_within policy st st' -> spawns_within policy' st st'.
Proof.
  intros Hsub [dt [X F]]. exists dt. split; [exact X |].
  apply Forall_forall. intros [cmd index res] He.
  rewrite Forall_forall in F. exact (Hsub _ _ (F _ He)).
Qed.

End ReadOnly.

Section Harmless.

Variable W : Type.
Variable spawn : list strlike -> option string -> W -> outcome CmdResult * W.
Variable makeTempFile : W -> outcome string * W.
Variable removeFile : string -> W -> outcome unit * W.
Variable fetching : bool.

(** Nothing is bound to an index. *)
Local Abbreviation ambient := (spawns_within (harmless fetching None)).

Lemma harmless_query (scratch : option string) (args : list strlike) :
  query args -> harmless fetching scratch (Str "git" :: args) None.
Proof. intros H. exists args. split; [reflexivity | now left]. Qed.

Lemma harmless_fetch (scratch : option string) :
  fetching = true ->
  harmless fetching scratch (strs ["git"; "fetch"; "--all"]) None.
Proof. intros H. eexists. split; [reflexivity | now right]. Qed.

Lemma harmless_with_scratch (scratch : option string) (cmd : list strlike)
      (index : option string) :
  harmless fetching None cmd index -> harmless fetching scratch cmd index.
Proof.
  intros [args [-> H]]. exists args. split; [reflexivity |].
  destruct index as [p |]; [| exact H]. now destruct H.
Qed.

Lemma ambient_resolve_stage (o : Options) :
  opt_fetch o = fetching -> respects ambient any_exn (resolve_stage spawn o).
Proof.
  apply (respects_resolve_stage W spawn ambient any_exn
           (harmless fetching None) fetching
           (spawns_within_refl W _) (spawns_within_trans W _)
           (fun _ => I) (fun _ _ => I)
           (harmless_query None) (harmless_fetch None)
           (spawns_within_runCmd W spawn _)).
Qed.

Lemma ambient_fill_details (fs : list string) (oursCommit theirsCommit : string)
      (mergeBase : option string) (result : ConflictCheckResult) :
  respects ambient any_exn
    (fill_details spawn fs oursCommit theirsCommit mergeBase result).
Proof.
  apply (respects_fill_details W spawn ambient any_exn
           (harmless fetching None)
           (spawns_within_refl W _) (spawns_within_trans W _)
           (harmless_query None) (spawns_within_runCmd W spawn _)).
Qed.

Lemma ambient_fallback_stage (o : Options) (r : Resolution) :
  respects ambient any_exn (fallback_stage spawn o r).
Proof.
  apply (respects_fallback_stage W spawn ambient any_exn
           (harmless fetching None)
           (spawns_within_refl W _) (spawns_within_trans W _)
           (harmless_query None) (spawns_within_runCmd W spawn _)).
Qed.

(** A command of a [TempIndex] object is bound to the path the object
    holds. *)
Lemma indexed_runGitWithIndex (t : ref) (args : list string)
      (st st' : state W) (out : outcome CmdResult) :
  index_command (strs args) ->
  TempIndex_runGitWithIndex spawn t args st = (out, st') ->
  heap st' = heap st /\
  spawns_within (harmless fetching (nonempty (nth t (heap st) None))) st st'.
Proof.
  intros Ha. unfold TempIndex_runGitWithIndex, bind, get_path.
  destruct (nonempty (nth t (heap st) None)) as [path |]; intros H.
  - split.
    + unfold runCmd, start, host_spawn, bind, record in H.
      destruct (spawn _ _ _) as [[r | e] w']; simpl in H; inversion H;
        reflexivity.
    + exists [Spawn (strs ("git" :: args)) (Some path) out].
      split; [exact (runCmd_run W spawn H) |].
      repeat constructor. exists (strs args). now repeat split.
  - inversion H; subst. split; [reflexivity | apply spawns_within_refl].
Qed.

Lemma indexed_checkConflictsWithReadTree
      (baseTree oursTree theirsTree : string) (t : ref)
      (st st' : state W) (out : outcome (list string)) :
  checkConflictsWithReadTree spawn baseTree oursTree theirsTree t st
  = (out, st') ->
  spawns_within (harmless fetching (nonempty (nth t (heap st) None))) st st'.
Proof.
  unfold checkConflictsWithReadTree. intros H.
  assert (Hread : forall (o1 : outcome CmdResult) s1,
             try_catch
               (TempIndex_runGitWithIndex spawn t
                  ["read-tree"; "-m"; "--"; baseTree; oursTree; theirsTree])
               (fun _ => ret (mkCmdResult 1 EmptyString EmptyString)) st
             = (o1, s1) ->
             heap s1 = heap st /\
             spawns_within
               (harmless fetching (nonempty (nth t (heap st) None))) st s1).
  { intros o1 s1. unfold try_catch.
    destruct (TempIndex_runGitWithIndex _ _ _ st) as [[r | e] s2] eqn:E1;
      intros E2; inversion E2; subst;
      exact (indexed_runGitWithIndex _ _ _ _ _
               (index_read_tree _ _ _) E1). }
  destruct (bind_run W H) as [[a [st1 [E1 E2]]] | [e [E1 ->]]];
    destruct (Hread _ _ E1) as [Hh S1]; [| exact S1].
  apply spawns_within_trans with st1; [exact S1 |]. rewrite <- Hh.
  destruct (bind_run W E2) as [[r [st2 [E3 E4]]] | [e [E3 Eo]]].
  - inversion E4; subst.
    exact (proj2 (indexed_runGitWithIndex _ _ _ _ _ index_listing E3)).
  - exact (proj2 (indexed_runGitWithIndex _ _ _ _ _ index_listing E3)).
Qed.

Lemma trace_TempIndex_cleanup (t : ref) (st : state W) :
  trace (snd (TempIndex_cleanup removeFile t st)) = trace st.
Proof.
  unfold TempIndex_cleanup, bind, get_path.
  destruct (nonempty (nth t (heap st) None)) as [path |]; [| reflexivity].
  unfold try_catch, bind, host_remove, set_path.
  now destruct (removeFile _ _) as [[[] | e] w'].
Qed.

(** The [try] block of [main] and its [finally]: what is bound to an
    index is bound to the file that [create] made. *)
Lemma scratch_of_primary_stage (o : Options) (r : Resolution)
      (st st' : state W)
      (out : outcome (option (nat * ConflictCheckResult))) :
  try_finally
    (primary_stage spawn makeTempFile o r (length (heap st)))
    (TempIndex_cleanup removeFile (length (heap st)))
    (mkState (world st) (heap st ++ [None]) (trace st))
  = (out, st') ->
  exists scratch,
    (forall p, scratch = Some p ->
               p <> EmptyString /\ returned_by makeTempFile p) /\
    spawns_within (harmless fetching scratch) st st'.
Proof.
  intros H. unfold try_finally in H.
  destruct (primary_stage _ _ _ _ _ _) as [o1 st4] eqn:E4.
  assert (Hclean : trace st' = trace st4).
  { pose proof (trace_TempIndex_cleanup (length (heap st)) st4) as Ht.
    destruct (TempIndex_cleanup _ _ st4) as [[[] | e] st5];
      inversion H; subst; exact Ht. }
  assert (Hgoal : exists scratch,
             (forall p, scratch = Some p ->
                        p <> EmptyString /\ returned_by makeTempFile p) /\
             spawns_within (harmless fetching scratch) st st4).
  { clear H Hclean. unfold primary_stage in E4.
    unfold bind at 1 in E4. unfold TempIndex_create in E4.
    unfold bind at 1 2 in E4. unfold host_makeTempFile, set_path, ret in E4.
    cbn [world heap trace] in E4.
    destruct (makeTempFile (world st)) as [[p | e] w'] eqn:Em.
    - match type of E4 with
      | bind ?m ?k ?s = _ => set (st3 := s) in *
      end.
      assert (Hp : nth (length (heap st)) (heap st3) None = Some p).
      { unfold st3. cbn [heap].
        apply nth_update. rewrite length_app. simpl. lia. }
      exists (nonempty (Some p)). split.
      + intros q Hq. simpl in Hq. destruct (truthy p) eqn:Ht; [| discriminate].
        inversion Hq; subst q. split.
        * destruct p; [discriminate | discriminate].
        * now exists (world st), w'.
      + destruct (bind_run W E4) as [[fs [s4 [E5 E6]]] | [e [E5 ->]]];
          pose proof (indexed_checkConflictsWithReadTree _ _ _ _ _ _ _ E5)
            as S5;
          rewrite Hp in S5;
          assert (S35 : spawns_within (harmless fetching (nonempty (Some p)))
                                      st _)
            by (destruct S5 as [dt [X F]]; exists dt; split; [exact X | exact F]).
        * apply spawns_within_trans with s4; [exact S35 |].
          apply (spawns_within_weaken W (harmless fetching None));
            [intros; now apply harmless_with_scratch |].
          destruct fs as [| f fs];
            [inversion E6; subst; apply spawns_within_refl |].
          destruct (bind_run W E6) as [[res [s5 [E7 E8]]] | [e [E7 ->]]].
          -- inversion E8; subst.
             destruct (opt_diff o);
               [exact (proj1 (ambient_fill_details _ _ _ _ _ _ _ _ E7))
               | inversion E7; subst; apply spawns_within_refl].
          -- destruct (opt_diff o);
               [exact (proj1 (ambient_fill_details _ _ _ _ _ _ _ _ E7))
               | inversion E7].
        * exact S35.
    - inversion E4; subst. exists None. split; [discriminate |].
      now apply spawns_within_silent. }
  destruct Hgoal as [scratch [Hs S]]. exists scratch. split; [exact Hs |].
  apply spawns_within_trans with st4; [exact S |].
  now apply spawns_within_silent.
Qed.

End Harmless.

(** X4. A run of the pipeline hands to the host nothing but what
    [harmless] lists, whatever the tool answers.  The program is git;
    under the ambient index the arguments are one of the queries, or
    [fetch --all] when [--fetch] was given; [read-tree -m --] with three
    trees and [ls-files -u --stage] run under [GIT_INDEX_FILE] only, and
    then the index is one and the same file, whose name is not empty and
    was returned by the host's [makeTempFile]. *)
Theorem main_spawns_only_harmless_commands
        (W : Type)
        (spawn : list strlike -> option string -> W -> outcome CmdResult * W)
        (makeTempFile : W -> outcome string * W)
        (removeFile : string -> W -> outcome unit * W)
        (o : Options) (st st' : state W)
        (out : outcome (nat * option ConflictCheckResult))
        (dt : list event) :
  main spawn makeTempFile removeFile o st = (out, st') ->
  extends st st' dt ->
  exists scratch,
    (forall p, scratch = Some p ->
               p <> EmptyString /\ returned_by makeTempFile p) /\
    Forall (permitted (harmless (opt_fetch o) scratch)) dt.
Proof.
  intros Hrun X.
  assert (Hgoal : exists scratch,
             (forall p, scratch = Some p ->
                        p <> EmptyString /\ returned_by makeTempFile p) /\
             spawns_within (harmless (opt_fetch o) scratch) st st').
  { unfold main in Hrun.
    assert (Hnone : st' = st ->
              exists scratch,
                (forall p, scratch = Some p ->
                           p <> EmptyString /\ returned_by makeTempFile p) /\
                spawns_within (harmless (opt_fetch o) scratch) st st').
    { intros ->. exists None. split; [discriminate |].
      apply spawns_within_refl. }
    destruct (opt_help o); [apply Hnone; now inversion Hrun |].
    destruct (opt_version o); [apply Hnone; now inversion Hrun |].
    clear Hnone.
    destruct (bind_run W Hrun) as [[r [st1 [E1 E2]]] | [e [E1 ->]]];
      destruct (ambient_resolve_stage W spawn (opt_fetch o) o eq_refl
                  _ _ _ E1) as [S1 _].
    2: { exists None. split; [discriminate | exact S1]. }
    unfold bind at 1 in E2. unfold TempIndex_new at 1 in E2.
    assert (Hprimary : forall early s3,
              try_finally
                (primary_stage spawn makeTempFile o r (length (heap st1)))
                (TempIndex_cleanup removeFile (length (heap st1)))
                (mkState (world st1) (heap st1 ++ [None]) (trace st1))
              = (early, s3) ->
              exists scratch,
                (forall p, scratch = Some p ->
                           p <> EmptyString /\ returned_by makeTempFile p) /\
                spawns_within (harmless (opt_fetch o) scratch) st s3).
    { intros early s3 E3.
      destruct (scratch_of_primary_stage W spawn makeTempFile removeFile
                  (opt_fetch o) o r st1 _ _ E3) as [scratch [Hs S3]].
      exists scratch. split; [exact Hs |].
      apply spawns_within_trans with st1; [| exact S3].
      apply (spawns_within_weaken W (harmless (opt_fetch o) None));
        [intros; now apply harmless_with_scratch | exact S1]. }
    destruct (bind_run W E2) as [[early [st3 [E3 E4]]] | [e [E3 ->]]];
      destruct (Hprimary _ _ E3) as [scratch [Hs S13]];
      exists scratch; (split; [exact Hs |]); [| exact S13].
    destruct early as [[exit res] |]; [inversion E4; subst; exact S13 |].
    apply spawns_within_trans with st3; [exact S13 |].
    apply (spawns_within_weaken W (harmless (opt_fetch o) None));
      [intros; now apply harmless_with_scratch |].
    destruct (bind_run W E4) as [[fb [st4 [E5 E6]]] | [e [E5 ->]]];
      destruct (ambient_fallback_stage W spawn (opt_fetch o) o r _ _ _ E5)
        as [S4 _]; [inversion E6; subst |]; exact S4. }
  destruct Hgoal as [scratch [Hs [dt' [X' F]]]].
  exists scratch. split; [exact Hs |].
  now rewrite (extends_inj W _ _ _ _ X X').
Qed.

(** ** The result object *)

Section ResultObject.

Variable W : Type.
Variable spawn : list strlike -> option string -> W -> outcome CmdResult * W.
Variable makeTempFile : W -> outcome string * W.
Variable removeFile : string -> W -> outcome unit * W.

Lemma succeeded_truthy (r : CmdResult) :
  succeeded r = true -> truthy (stdout r) = true.
Proof. unfold succeeded. intros H. now apply andb_true_iff in H. Qed.

Lemma resolve_via_remotes_commit (ref_ : string) (remotes : list string)
      (st st' : state W) (res : Resolved) :
  resolve_via_remotes spawn ref_ remotes st = (Ret (Some res), st') ->
  truthy (commit res) = true.
Proof.
  intros H.
  destruct (resolve_via_remotes_run W spawn _ _ _ _ _ H)
    as [_ [s [_ [_ [_ [-> [Hs _]]]]]]].
  now apply succeeded_truthy.
Qed.

(** A commit id that [resolveCommit] returns is truthy. *)
Lemma resolveCommit_commit_truthy
      (ref_ : string) (st st' : state W) (res : Resolved) :
  resolveCommit spawn ref_ st = (Ret res, st') ->
  truthy (commit res) = true.
Proof.
  unfold resolveCommit. intros H.
  destruct (bind_run W H) as [[r [st1 [_ E2]]] | [e [_ Habs]]];
    [| discriminate].
  destruct (succeeded r) eqn:Hs.
  { inversion E2; subst. now apply succeeded_truthy. }
  destruct (bind_run W E2) as [[rr [st2 [_ E4]]] | [e [_ Habs]]];
    [| discriminate].
  destruct (bind_run W E4) as [[found [st3 [E5 E6]]] | [e [_ Habs]]];
    [| discriminate].
  destruct found as [res' |]; [| discriminate]. inversion E6; subst.
  exact (resolve_via_remotes_commit _ _ _ _ _ E5).
Qed.

Lemma try_catch_rethrow_ret {A} (m : M W A) (e' : exn) (st st' : state W)
      (a : A) :
  try_catch m (fun _ => throw e') st = (Ret a, st') -> m st = (Ret a, st').
Proof.
  unfold try_catch, throw. destruct (m st) as [[b | e] st1]; intros H;
    inversion H; subst; reflexivity.
Qed.

Lemma or_undefined_not_empty (s : string) :
  or_undefined s <> Some EmptyString.
Proof. unfold or_undefined. destruct s; simpl; discriminate. Qed.

(** What the resolution stage hands over: a result object with a clear
    flag, no path, no file, and ids that are not empty. *)
Lemma resolve_stage_result (o : Options) (st st' : state W) (r : Resolution) :
  resolve_stage spawn o st = (Ret r, st') ->
  conflicts (res_result r) = false /\
  conflicted_files (res_result r) = [] /\
  files (res_result r) = empty_object /\
  truthy (ours_commit (res_result r)) = true /\
  truthy (theirs_commit (res_result r)) = true /\
  merge_base (res_result r) <> Some EmptyString.
Proof.
  unfold resolve_stage. intros E.
  repeat lazymatch type of E with
    | bind _ _ _ = (Ret _, _) =>
        let a := fresh "a" in
        let s := fresh "s" in
        let E1 := fresh "Step" in
        let E2 := fresh "E" in
        destruct (bind_run W E) as [[a [s [E1 E2]]] | [? [_ ?]]];
        [clear E; rename E2 into E | discriminate]
    | (if ?b then _ else _) _ = (Ret _, _) => destruct b
    | throw _ _ = (Ret _, _) => discriminate E
    end.
  inversion E; subst; simpl;
    repeat split; try apply or_undefined_not_empty;
    repeat match goal with
      | H : try_catch (resolveCommit _ _) _ _ = (Ret _, _) |- _ =>
          apply try_catch_rethrow_ret in H
      | H : resolveCommit _ _ _ = (Ret ?a, _) |- truthy (commit ?a) = true =>
          exact (resolveCommit_commit_truthy _ _ _ _ H)
      end.
Qed.

Lemma keys_put (m : list (string * FileConflictDetail)) (k : string)
      (v : FileConflictDetail) :
  map fst (put m k v) = set_add (map fst m) k.
Proof.
  unfold set_add, mem.
  induction m as [| [k' v'] m IH]; simpl; [reflexivity |].
  destruct (String.eqb k' k) eqn:Ek.
  - apply String.eqb_eq in Ek. subst k'. simpl. now rewrite String.eqb_refl.
  - rewrite String.eqb_sym, Ek. simpl. rewrite IH.
    now destruct (existsb (String.eqb k) (map fst m)).
Qed.

(** What the loop over the paths makes of [files]: an own property for
    every path but [__proto__], in the order of the paths, and a new
    prototype when [__proto__] is among them. *)
Lemma fill_details_result (fs : list string) (oursCommit theirsCommit : string)
      (mergeBase : option string) (res res' : ConflictCheckResult)
      (st st' : state W) :
  fill_details spawn fs oursCommit theirsCommit mergeBase res st
  = (Ret res', st') ->
  same_but_files res res' /\
  map fst (own (files res'))
  = fold_left set_add (filter ordinary_key fs) (map fst (own (files res))) /\
  (prototype (files res') <> None <->
   prototype (files res) <> None \/ In PROTO fs).
Proof.
  revert res st. induction fs as [| f fs IH]; intros res st H; simpl in H.
  - inversion H; subst. unfold same_but_files. simpl. tauto.
  - destruct (bind_run W H) as [[d [st1 [_ E2]]] | [e [_ Habs]]];
      [| discriminate].
    destruct (IH _ _ E2) as [Hsame [Hkeys Hproto]]. split; [| split].
    + unfold same_but_files in *. simpl in Hsame. exact Hsame.
    + rewrite Hkeys. simpl. unfold assign, ordinary_key.
      destruct (String.eqb f PROTO); simpl; [reflexivity |].
      now rewrite keys_put.
    + rewrite Hproto. simpl. unfold assign.
      destruct (String.eqb_spec f PROTO) as [-> | Hne]; simpl.
      * split; [auto |]. intros _. left. discriminate.
      * split; [tauto |]. intros [H1 | [H1 | H1]]; auto; congruence.
Qed.

Lemma filter_all {A} (f : A -> bool) (l : list A) :
  (forall x, In x l -> f x = true) -> filter f l = l.
Proof.
  induction l as [| x l IH]; simpl; intros H; [reflexivity |].
  rewrite (H x (or_introl eq_refl)). f_equal. apply IH. auto.
Qed.

Lemma first_occurrences_NoDup_id (l : list string) :
  NoDup l -> first_occurrences l = l.
Proof.
  induction 1 as [| x l Hx Hl IH]; simpl; [reflexivity |].
  rewrite IH. f_equal. apply filter_all. intros y Hy.
  destruct (String.eqb_spec y x) as [-> |]; [contradiction | reflexivity].
Qed.

Lemma set_add_all_distinct (fs : list string) :
  NoDup fs -> fold_left set_add fs [] = fs.
Proof.
  intros H. change (array_from_set fs = fs).
  rewrite array_from_set_first_occurrences.
  now apply first_occurrences_NoDup_id.
Qed.

(** The details stage, as both strategies use it. *)
Lemma details_result (o : Options) (r : Resolution) (fs : list string)
      (res : ConflictCheckResult) (st st' : state W)
      (oursCommit theirsCommit : string) (mergeBase : option string) :
  NoDup fs ->
  conflicts (res_result r) = false /\
  conflicted_files (res_result r) = [] /\
  files (res_result r) = empty_object /\
  truthy (ours_commit (res_result r)) = true /\
  truthy (theirs_commit (res_result r)) = true /\
  merge_base (res_result r) <> Some EmptyString ->
  (if opt_diff o
   then fill_details spawn fs oursCommit theirsCommit mergeBase
          (with_conflicts (res_result r) fs)
   else ret (with_conflicts (res_result r) fs)) st = (Ret res, st') ->
  consistent_result o 1 res /\ conflicts res = true /\
  conflicted_files res = fs.
Proof.
  intros Hnd [Hc [Hcf [Hf [Ho [Ht Hmb]]]]] H.
  unfold consistent_result. destruct (opt_diff o).
  - destruct (fill_details_result _ _ _ _ _ _ _ _ H)
      as [[_ [_ [E3 [E4 [E5 [E6 E7]]]]]] [Hk Hp]].
    simpl in *. rewrite E6, E7, E3, E4, E5.
    rewrite Hf in Hk, Hp. simpl in Hk, Hp.
    rewrite set_add_all_distinct in Hk by now apply NoDup_filter.
    unfold own_keys. rewrite Hk.
    assert (Hp' : prototype (files res) <> None <-> In PROTO fs).
    { rewrite Hp. split; [intros [Habs | Hin]; [now elim Habs | exact Hin]
                         | now right]. }
    repeat split; auto; try discriminate; apply Hp'.
  - inversion H; subst. simpl. rewrite Hf.
    repeat split; auto. discriminate.
Qed.

Lemma primary_stage_result (o : Options) (r : Resolution) (t : ref)
      (st st' : state W) (exit : nat) (res : ConflictCheckResult) :
  conflicts (res_result r) = false /\
  conflicted_files (res_result r) = [] /\
  files (res_result r) = empty_object /\
  truthy (ours_commit (res_result r)) = true /\
  truthy (theirs_commit (res_result r)) = true /\
  merge_base (res_result r) <> Some EmptyString ->
  primary_stage spawn makeTempFile o r t st = (Ret (Some (exit, res)), st') ->
  exit = 1 /\ consistent_result o 1 res /\ conflicts res = true /\
  conflicted_files res <> [].
Proof.
  intros Hr H. unfold primary_stage in H.
  destruct (bind_run W H) as [[p [st1 [_ E2]]] | [e [_ Habs]]];
    [| discriminate].
  destruct (bind_run W E2) as [[paths [st2 [E3 E4]]] | [e [_ Habs]]];
    [| discriminate].
  destruct (checkConflictsWithReadTree_run W spawn E3) as [dt [_ [_ Hp]]].
  destruct (Hp paths eq_refl) as [before [index [lr [_ [_ Hparse]]]]].
  destruct paths as [| f fs]; [discriminate |].
  destruct (bind_run W E4) as [[res' [st3 [E5 E6]]] | [e [_ Habs]]];
    [| discriminate].
  inversion E6; subst exit res. clear E6.
  assert (Hnd : NoDup (f :: fs)).
  { rewrite <- Hparse, parseUnmergedFiles_first_occurrences.
    apply first_occurrences_NoDup. }
  destruct (details_result o r (f :: fs) res' st2 st3 _ _ _ Hnd Hr E5)
    as [Hcons [Hc Hfs]].
  repeat split; try apply Hcons; auto. rewrite Hfs. discriminate.
Qed.

Lemma fallback_stage_result (o : Options) (r : Resolution)
      (st st' : state W) (exit : nat) (res : ConflictCheckResult) :
  conflicts (res_result r) = false /\
  conflicted_files (res_result r) = [] /\
  files (res_result r) = empty_object /\
  truthy (ours_commit (res_result r)) = true /\
  truthy (theirs_commit (res_result r)) = true /\
  merge_base (res_result r) <> Some EmptyString ->
  fallback_stage spawn o r st = (Ret (exit, res), st') ->
  consistent_result o exit res.
Proof.
  intros Hr H. unfold fallback_stage in H.
  destruct (bind_run W H) as [[has [st1 [_ E2]]] | [e [_ Habs]]];
    [| discriminate].
  destruct has.
  - destruct (bind_run W E2) as [[fs [st2 [E3 E4]]] | [e [_ Habs]]];
      [| discriminate].
    assert (Hnd : NoDup fs).
    { unfold getConflictingFilesFromMergeTree in E3.
      destruct (bind_run W E3) as [[a [st3 [_ E5]]] | [e [_ Habs]]];
        [| discriminate].
      inversion E5; subst. apply scan_report_NoDup. constructor. }
    destruct (bind_run W E4) as [[res' [st3 [E5 E6]]] | [e [_ Habs]]];
      [| discriminate].
    inversion E6; subst exit res. clear E6.
    now destruct (details_result o r fs res' st2 st3 _ _ _ Hnd Hr E5).
  - inversion E2; subst. destruct Hr as [Hc [Hcf [Hf [Ho [Ht Hmb]]]]].
    unfold consistent_result. rewrite Hc, Hcf, Hf. simpl.
    repeat split; auto; try constructor.
    destruct (opt_diff o); [| reflexivity]. simpl.
    split; [reflexivity | split; [intros Hn; now elim Hn | contradiction]].
Qed.

(** A run of [main] that returns a result object went through the
    resolution stage, and the object comes from the primary stage or from
    the fallback stage. *)
Lemma main_result_run
      (o : Options) (st st' : state W) (exit : nat)
      (res : ConflictCheckResult) :
  main spawn makeTempFile removeFile o st = (Ret (exit, Some res), st') ->
  exists r st1,
    resolve_stage spawn o st = (Ret r, st1) /\
    ((exists t st2 st3,
         primary_stage spawn makeTempFile o r t st2
         = (Ret (Some (exit, res)), st3)) \/
     (exists st2,
         fallback_stage spawn o r st2 = (Ret (exit, res), st'))).
Proof.
  unfold main. intros H.
  destruct (opt_help o); [discriminate |].
  destruct (opt_version o); [discriminate |].
  destruct (bind_run W H) as [[r [st1 [E1 E2]]] | [e [_ Habs]]];
    [| discriminate].
  exists r, st1. split; [exact E1 |].
  destruct (bind_run W E2) as [[t [st2 [_ E4]]] | [e [_ Habs]]];
    [| discriminate].
  destruct (bind_run W E4) as [[early [st3 [E5 E6]]] | [e [_ Habs]]];
    [| discriminate].
  destruct early as [[exit' res'] |].
  - inversion E6; subst exit' res'. clear E6. left.
    unfold try_finally in E5.
    destruct (primary_stage _ _ _ _ _ _) as [o1 st4] eqn:Ep.
    destruct (TempIndex_cleanup _ _ _) as [[[] | e] st5];
      inversion E5; subst.
    now exists t, st2, st4.
  - right.
    destruct (bind_run W E6) as [[[exit' res'] [st4 [E7 E8]]] | [e [_ Habs]]];
      [| discriminate].
    inversion E8; subst. now exists st3.
Qed.


End ResultObject.

(** ** Exit codes *)

Section ExitCodes.

Variable W : Type.
Variable spawn : list strlike -> option string -> W -> outcome CmdResult * W.
Variable makeTempFile : W -> outcome string * W.
Variable removeFile : string -> W -> outcome unit * W.

Hypothesis host : host_throws_host_errors spawn makeTempFile removeFile.

(** The exceptions of the program alone. *)
Local Abbreviation strict := (respects (W := W) anything exits_with_2).

Lemma from_host_exits_with_2 (e : exn) : from_host e -> exits_with_2 e.
Proof. intros [what ->]. exact I. Qed.

Lemma runCmd_throws_host (cmd : list strlike) (index : option string)
      (st st' : state W) (e : exn) :
  runCmd spawn cmd index st = (Throw e, st') -> from_host e.
Proof.
  unfold runCmd, start, host_spawn, bind, record. intros H.
  destruct (spawn _ _ _) as [[r | e'] w'] eqn:Es; simpl in H;
    inversion H; subst.
  destruct host as [Hs _]. exact (Hs _ _ _ _ _ Es).
Qed.

Lemma strict_runCmd (cmd : list strlike) (index : option string) :
  strict (runCmd spawn cmd index).
Proof.
  intros st o st' H. split; [exact I |]. intros e ->.
  exact (from_host_exits_with_2 _ (runCmd_throws_host _ _ _ _ _ H)).
Qed.

Lemma strict_never {A} (m : M W A) :
  (forall st, exists a st', m st = (Ret a, st')) -> strict m.
Proof.
  intros H st o st' E. split; [exact I |]. intros e ->.
  destruct (H st) as [a [st1 E1]]. congruence.
Qed.

Lemma strict_makeTempFile : strict (host_makeTempFile makeTempFile).
Proof.
  intros st o st' H. split; [exact I |]. intros e ->.
  unfold host_makeTempFile in H.
  destruct (makeTempFile _) as [[p | e'] w'] eqn:Es; inversion H; subst.
  apply from_host_exits_with_2. destruct host as [_ [Hm _]].
  exact (Hm _ _ _ Es).
Qed.

Lemma strict_remove (p : string) : strict (host_remove removeFile p).
Proof.
  intros st o st' H. split; [exact I |]. intros e ->.
  unfold host_remove in H.
  destruct (removeFile _ _) as [[[] | e'] w'] eqn:Es; inversion H; subst.
  apply from_host_exits_with_2. destruct host as [_ [_ Hr]].
  exact (Hr _ _ _ _ Es).
Qed.

Lemma weaken_exn {A} (m : M W A) : strict m ->
  respects anything git_error_code_is_2 m.
Proof.
  intros H st o st' E. split; [exact I |]. intros e ->.
  destruct (H _ _ _ E) as [_ X]. specialize (X e eq_refl).
  destruct e; simpl in *; auto.
Qed.

(** Every [GitError] that escapes from [main] carries the exit code 2. *)
Lemma main_throws_exit_2 (o : Options) (st st' : state W) (e : exn) :
  main spawn makeTempFile removeFile o st = (Throw e, st') ->
  git_error_code_is_2 e.
Proof.
  intros H.
  destruct (respects_main W spawn makeTempFile removeFile
              anything git_error_code_is_2 (fun _ _ => True) (opt_fetch o)
              (fun _ => I) (fun _ _ _ _ _ => I)
              (fun _ => eq_refl) (fun _ => I) (fun _ _ => I)
              (fun _ _ => I) (fun _ => I) (fun _ _ _ => I)
              (fun cmd index _ => weaken_exn _ (strict_runCmd cmd index))
              (weaken_exn _
                 (strict_never _
                    (fun st => ex_intro _ _ (ex_intro _ _ eq_refl))))
              (fun t v =>
                 weaken_exn _
                   (strict_never _
                      (fun st => ex_intro _ _ (ex_intro _ _ eq_refl))))
              (weaken_exn _ strict_makeTempFile)
              (fun p => weaken_exn _ (strict_remove p))
              o eq_refl st (Throw e) st' H) as [_ X].
  now apply X.
Qed.

Lemma main_without_result (o : Options) (st st' : state W) (exit : nat) :
  main spawn makeTempFile removeFile o st = (Ret (exit, None), st') ->
  exit = 0 /\ (opt_help o = true \/ opt_version o = true).
Proof.
  unfold main. intros H.
  destruct (opt_help o); [inversion H; auto |].
  destruct (opt_version o); [inversion H; auto |].
  destruct (bind_run W H) as [[r [st1 [_ E2]]] | [e [_ Habs]]];
    [| discriminate].
  destruct (bind_run W E2) as [[t [st2 [_ E4]]] | [e [_ Habs]]];
    [| discriminate].
  destruct (bind_run W E4) as [[early [st3 [_ E6]]] | [e [_ Habs]]];
    [| discriminate].
  destruct early as [[exit' res'] |]; [discriminate |].
  destruct (bind_run W E6) as [[out [st4 [_ E8]]] | [e [_ Habs]]];
    discriminate.
Qed.

(** A step that throws exceptions of the program only is not where the
    process ends. *)
Lemma bind_uncaught {A B} (m : M W A) (k : A -> M W B)
      (st st' : state W) (reason : exn) :
  strict m ->
  bind m k st = (Throw (Uncaught reason), st') ->
  exists a st1, m st = (Ret a, st1) /\
                k a st1 = (Throw (Uncaught reason), st').
Proof.
  intros Hm H.
  destruct (bind_run W H) as [[a [st1 [E1 E2]]] | [e [E1 He]]].
  - now exists a, st1.
  - inversion He; subst e. destruct (Hm _ _ _ E1) as [_ X].
    elim (X _ eq_refl).
Qed.

Local Abbreviation every_command :=
  (fun (_ : list strlike) (_ : option string) => True).

Lemma strict_git (args : list string) : strict (git spawn args).
Proof. apply strict_runCmd. Qed.

Lemma strict_isGitRepository : strict (isGitRepository spawn).
Proof.
  apply (respects_isGitRepository W spawn anything exits_with_2 every_command
           (fun _ => I) (fun _ _ _ _ _ => I) (fun _ _ => I)
           (fun cmd index _ => strict_runCmd cmd index)).
Qed.

Lemma strict_getCurrentRef : strict (getCurrentRef spawn).
Proof.
  apply (respects_getCurrentRef W spawn anything exits_with_2 every_command
           (fun _ => I) (fun _ _ _ _ _ => I) (fun _ => eq_refl) (fun _ _ => I)
           (fun cmd index _ => strict_runCmd cmd index)).
Qed.

Lemma strict_resolveCommit (ref_ : string) : strict (resolveCommit spawn ref_).
Proof.
  apply (respects_resolveCommit W spawn anything exits_with_2 every_command
           (fun _ => I) (fun _ _ _ _ _ => I) (fun _ => eq_refl) (fun _ _ => I)
           (fun cmd index _ => strict_runCmd cmd index)).
Qed.

Lemma strict_revToTree (rev : string) (emptyTree : strlike) :
  settles_within exits_with_2 emptyTree ->
  strict (revToTree spawn rev emptyTree).
Proof.
  apply (respects_revToTree W spawn anything exits_with_2 every_command
           (fun _ => I) (fun _ _ _ _ _ => I) (fun _ _ => I)
           (fun cmd index _ => strict_runCmd cmd index)).
Qed.

(** A handler that throws a [GitError] with code 2 lets nothing else
    through. *)
Lemma strict_try_catch {A} (m : M W A) (msg : string) :
  strict (try_catch m (fun _ => throw (GitError msg 2))).
Proof.
  intros st o st' H. split; [exact I |]. intros e ->.
  unfold try_catch, throw in H.
  destruct (m st) as [[a | e'] st1]; inversion H; subst. reflexivity.
Qed.

Lemma strict_optional_fetch (o : Options) :
  strict (if opt_fetch o
          then bind (fetchAll spawn) (fun _ => ret tt) else ret tt).
Proof.
  destruct (opt_fetch o);
    [| apply strict_never; intros st; now exists tt, st].
  intros st out st' H. split; [exact I |]. intros e ->.
  destruct (bind_run W H) as [[a [st1 [_ E2]]] | [e' [E1 He]]];
    [discriminate |].
  inversion He; subst e'. unfold fetchAll in E1.
  destruct (bind_run W E1) as [[r [st2 [_ E3]]] | [e' [E3 He']]].
  - destruct (negb (code r =? 0)%nat); discriminate.
  - inversion He'; subst e'.
    exact (from_host_exits_with_2 _ (runCmd_throws_host _ _ _ _ _ E3)).
Qed.

Lemma strict_set_path (t : ref) (v : option string) :
  strict (set_path (W := W) t v).
Proof. apply strict_never. intros st. now eexists; eexists. Qed.

Lemma strict_try_block (o : Options) (r : Resolution) (t : ref) :
  strict (try_finally (primary_stage spawn makeTempFile o r t)
                      (TempIndex_cleanup removeFile t)).
Proof.
  apply (respects_try_finally W anything exits_with_2
           (fun _ _ _ _ _ => I)).
  - apply (respects_primary_stage W spawn makeTempFile anything exits_with_2
             every_command
             (fun _ => I) (fun _ _ _ _ _ => I) (fun _ => I) (fun _ _ => I)
             (fun _ _ _ => I) (fun cmd index _ => strict_runCmd cmd index)
             strict_set_path strict_makeTempFile).
  - apply (respects_TempIndex_cleanup W removeFile anything exits_with_2
             (fun _ => I) (fun _ _ _ _ _ => I) strict_set_path strict_remove).
Qed.

Lemma strict_fallback_stage (o : Options) (r : Resolution) :
  strict (fallback_stage spawn o r).
Proof.
  apply (respects_fallback_stage W spawn anything exits_with_2 every_command
           (fun _ => I) (fun _ _ _ _ _ => I) (fun _ _ => I)
           (fun cmd index _ => strict_runCmd cmd index)).
Qed.

(** The one place where the process can end: the await of [git
    merge-base], when the call of [getEmptyTreeHash] that was not awaited
    has been rejected by the host. *)
Lemma resolve_stage_uncaught (o : Options) (st st' : state W)
      (reason : exn) :
  resolve_stage spawn o st = (Throw (Uncaught reason), st') ->
  from_host reason /\
  In (Spawn EMPTY_TREE_QUERY None (Throw reason)) (trace st').
Proof.
  unfold resolve_stage. intros H.
  destruct (bind_uncaught _ _ _ _ _ strict_isGitRepository H)
    as [isRepo [s1 [_ H1]]]. clear H.
  destruct (negb isRepo); [discriminate |].
  destruct (bind_uncaught _ _ _ _ _ (strict_optional_fetch o) H1)
    as [[] [s2 [_ H2]]]. clear H1.
  destruct (bind_uncaught _ _ _ _ _ strict_getCurrentRef H2)
    as [currentRef [s3 [_ H3]]]. clear H2.
  assert (Hother : strict
            match nonempty (opt_other o) with
            | Some other => ret other
            | None =>
                try_catch (detectDefaultBranch spawn currentRef)
                  (fun _ => throw (GitError
                     "Could not detect a default branch to compare against. Provide one manually as an argument."
                     2))
            end).
  { destruct (nonempty (opt_other o)) as [other |];
      [apply strict_never; intros s; now exists other, s
      | apply strict_try_catch]. }
  destruct (bind_uncaught _ _ _ _ _ Hother H3) as [otherRef [s4 [_ H4]]].
  clear H3 Hother.
  destruct (String.eqb otherRef currentRef); [discriminate |].
  destruct (bind_uncaught _ _ _ _ _ (strict_resolveCommit "HEAD") H4)
    as [oursResult [s5 [_ H5]]]. clear H4.
  destruct (bind_uncaught _ _ _ _ _ (strict_try_catch _ _) H5)
    as [theirsResult [s6 [_ H6]]]. clear H5.
  unfold bind at 1 in H6. unfold start in H6.
  destruct (getEmptyTreeHash spawn s6) as [pending s7] eqn:Ehash.
  destruct (bind_uncaught _ _ _ _ _ (strict_git _) H6)
    as [mbRes [s8 [Emb H8]]]. clear H6.
  destruct pending as [tree | e].
  - exfalso. unfold bind at 1 in H8. simpl in H8.
    assert (Hs : settles_within exits_with_2 (PromiseOf (Ret tree)))
      by (intros e He; discriminate).
    destruct (bind_uncaught _ _ _ _ _ (strict_revToTree _ _ Hs) H8)
      as [baseTree [s9 [_ H9]]].
    destruct (bind_uncaught _ _ _ _ _ (strict_revToTree _ _ Hs) H9)
      as [oursTree [s10 [_ H10]]].
    destruct (bind_uncaught _ _ _ _ _ (strict_revToTree _ _ Hs) H10)
      as [theirsTree [s11 [_ H11]]].
    discriminate.
  - unfold bind at 1 in H8. simpl in H8. inversion H8; subst reason st'.
    unfold getEmptyTreeHash in Ehash.
    destruct (bind_run W Ehash) as [[r [s9 [_ E9]]] | [e' [E9 He]]];
      [destruct (succeeded r); discriminate |].
    inversion He; subst e'. split.
    + exact (runCmd_throws_host _ _ _ _ _ E9).
    + rewrite (runCmd_run W spawn Emb), (runCmd_run W spawn E9).
      apply in_or_app. left. apply in_or_app. right. now left.
Qed.

(** X7. The exit code of the process, on a host whose primitives throw
    host errors only.  When [main] returns a result object, the code is 1
    if [conflicts] is set and 0 otherwise; when it returns without one,
    the code is 0 and [--help] or [--version] was given.  When [main]
    throws, the code is 2; and when the run time ends the process over a
    rejection that nobody handles, the code is 1, the rejection is a host
    error, and it was thrown at the spawn of the call of
    [getEmptyTreeHash] that [main] does not await. *)
Theorem entry_point_exit_code (o : Options) (st : state W) :
  match main spawn makeTempFile removeFile o st with
  | (Ret (_, Some res), _) =>
      fst (entry_point spawn makeTempFile removeFile o st)
      = (if conflicts res then 1 else 0)
  | (Ret (_, None), _) =>
      fst (entry_point spawn makeTempFile removeFile o st) = 0 /\
      (opt_help o = true \/ opt_version o = true)
  | (Throw (Uncaught reason), st') =>
      fst (entry_point spawn makeTempFile removeFile o st) = 1 /\
      from_host reason /\
      In (Spawn EMPTY_TREE_QUERY None (Throw reason)) (trace st')
  | (Throw _, _) =>
      fst (entry_point spawn makeTempFile removeFile o st) = 2
  end.
Proof.
  unfold entry_point.
  destruct (main spawn makeTempFile removeFile o st)
    as [[[exit [res |]] | e] st'] eqn:Hm; simpl.
  - destruct (main_result_run W spawn makeTempFile removeFile
                o st st' exit res Hm)
      as [r [st1 [Hresolve [[t [st2 [st3 Hprimary]]] | [st2 Hfallback]]]]];
      pose proof (resolve_stage_result W spawn _ _ _ _ Hresolve) as Hr.
    + destruct (primary_stage_result W spawn makeTempFile removeFile
                  _ _ _ _ _ _ _ Hr Hprimary) as [-> [Hc _]].
      now destruct Hc.
    + now destruct (fallback_stage_result W spawn removeFile
                      _ _ _ _ _ _ Hr Hfallback).
  - exact (main_without_result o st st' exit Hm).
  - pose proof (main_throws_exit_2 o st st' e Hm) as He.
    destruct e as [msg code | msg | what | reason]; simpl in *; auto.
    split; [reflexivity |].
    unfold main in Hm.
    destruct (opt_help o); [discriminate |].
    destruct (opt_version o); [discriminate |].
    destruct (bind_run W Hm) as [[r [st1 [_ E2]]] | [e [E1 He1]]];
      [| inversion He1; subst e; exact (resolve_stage_uncaught _ _ _ _ E1)].
    exfalso. unfold bind at 1 in E2. unfold TempIndex_new at 1 in E2.
    assert (Hfinally : strict
              (try_finally
                 (primary_stage spawn makeTempFile o r (length (heap st1)))
                 (TempIndex_cleanup removeFile (length (heap st1)))))
      by apply strict_try_block.
    destruct (bind_uncaught _ _ _ _ _ Hfinally E2) as [early [s3 [_ E3]]].
    destruct early as [[exit res] |]; [discriminate |].
    assert (Hfallback : strict (fallback_stage spawn o r))
      by apply strict_fallback_stage.
    destruct (bind_uncaught _ _ _ _ _ Hfallback E3) as [fb [s4 [_ E4]]].
    discriminate.
Qed.

End ExitCodes.


(** ** The scratch file *)

Section ScratchFile.

Variable T : Type.
Variable tool : list strlike -> option string -> T -> outcome CmdResult * T.
Variable full : T -> bool.
Variable refuses : string -> T -> bool.

Local Abbreviation spawn := (Isolated.spawn tool).
Local Abbreviation makeTempFile := (Isolated.makeTempFile full).
Local Abbreviation removeFile := (Isolated.removeFile refuses).
Local Abbreviation disk := (@Isolated.files_on_disk T).
Local Abbreviation every_command :=
  (fun (_ : list strlike) (_ : option string) => True).










End ScratchFile.

(** ** The classifier and its text view *)

Section Classifier.

Variable W : Type.
Variable spawn : list strlike -> option string -> W -> outcome CmdResult * W.

Lemma diff_text_not_empty (r : CmdResult) : diff_text r <> Some EmptyString.
Proof.
  unfold diff_text.
  destruct (truthy (trim (stdout r))) eqn:H1.
  - intros E. inversion E as [E']. rewrite E' in H1. discriminate.
  - destruct (truthy (trim (stderr r))) eqn:H2; [| discriminate].
    intros E. inversion E as [E']. rewrite E' in H2. discriminate.
Qed.

Lemma nonempty_some (p : option string) (s : string) :
  nonempty p = Some s -> nonempty p <> None.
Proof. intros ->. discriminate. Qed.

(** X9. The record that [getFileConflictDetail] returns is well formed. *)
Theorem getFileConflictDetail_is_well_formed
        (file oursCommit theirsCommit : string) (mergeBase : option string)
        (st st' : state W) (d : FileConflictDetail) :
  getFileConflictDetail spawn file oursCommit theirsCommit mergeBase st
  = (Ret d, st') ->
  well_formed_detail file mergeBase d.
Proof.
  unfold getFileConflictDetail. intros H.
  destruct (bind_run W H) as [[renamed [st1 [E1 E2]]] | [e [_ Habs]]];
    [| discriminate].
  destruct renamed as [d' |].
  - inversion E2; subst d' st1. clear E2. unfold rename_check in E1.
    destruct (nonempty mergeBase) as [mb |] eqn:Hmb; [| discriminate].
    apply nonempty_some in Hmb.
    destruct (bind_run W E1) as [[a [s1 [_ E3]]] | [e [_ Habs]]];
      [| discriminate].
    destruct (bind_run W E3) as [[b [s2 [_ E4]]] | [e [_ Habs]]];
      [| discriminate].
    destruct (find_rename (split_nl (stdout a)) file) as [[o n] |] eqn:Fa.
    + apply find_rename_old in Fa. subst o.
      destruct (bind_run W E4) as [[c [s3 [_ E5]]] | [e [_ Habs]]];
        [| discriminate].
      inversion E5; subst. unfold well_formed_detail. simpl.
      repeat split; try discriminate; try assumption;
        [now exists n | apply diff_text_not_empty].
    + destruct (find_rename (split_nl (stdout b)) file) as [[o n] |] eqn:Fb;
        [| discriminate].
      apply find_rename_old in Fb. subst o.
      destruct (bind_run W E4) as [[c [s3 [_ E5]]] | [e [_ Habs]]];
        [| discriminate].
      inversion E5; subst. unfold well_formed_detail. simpl.
      repeat split; try discriminate; try assumption;
        [now exists n | apply diff_text_not_empty].
  - unfold content_check in E2.
    destruct (bind_run W E2) as [[c [s3 [_ E5]]] | [e [_ Habs]]];
      [| discriminate].
    unfold classify_diff in E5. unfold well_formed_detail.
    destruct (diff_text c) as [text |] eqn:Ht.
    + destruct (includes "deleted file mode" text) eqn:Hdel;
        [| destruct (includes "new file mode" text) eqn:Hnew];
        simpl in E5; inversion E5; subst; simpl;
        (split; [| rewrite <- Ht; apply diff_text_not_empty]).
      * repeat split; try discriminate. now exists text.
      * repeat split; try discriminate. now exists text.
      * now split.
    + simpl in E5. inversion E5; subst; simpl.
      split; [now split | discriminate].
Qed.

(** X10. [fileDiffFor] is the text view of [getFileConflictDetail]: on the
    same arguments and from the same state it spawns the same commands,
    ends in the same state, throws what the other throws, and returns the
    rendering of the record the other returns. *)
Theorem fileDiffFor_renders_the_detail
        (file oursCommit theirsCommit : string) (mergeBase : option string)
        (st : state W) :
  fileDiffFor spawn file oursCommit theirsCommit mergeBase st
  = match getFileConflictDetail spawn file oursCommit theirsCommit
            mergeBase st with
    | (Ret d, st') => (Ret (rendering d), st')
    | (Throw e, st') => (Throw e, st')
    end.
Proof.
  assert (Hlast : forall s,
    bind (git spawn ["diff"; "-U3"; "--no-prefix"; "-M";
                     oursCommit; theirsCommit; "--"; file])
         (fun d => ret (diff_text d)) s
    = match content_check spawn file oursCommit theirsCommit s with
      | (Ret d, st') => (Ret (rendering d), st')
      | (Throw e, st') => (Throw e, st')
      end).
  { intros s. unfold content_check, bind.
    destruct (git spawn _ s) as [[d | e] s']; [| reflexivity].
    unfold classify_diff, ret.
    destruct (diff_text d) as [text |]; [| reflexivity].
    destruct (includes "deleted file mode" text);
      [| destruct (includes "new file mode" text)]; reflexivity. }
  unfold fileDiffFor, getFileConflictDetail, rename_check.
  destruct (nonempty mergeBase) as [mb |]; [| apply Hlast].
  unfold bind in *. unfold ret in *.
  destruct (list_renames spawn mb oursCommit st) as [[a | e] s1];
    [| reflexivity].
  destruct (list_renames spawn mb theirsCommit s1) as [[b | e] s2];
    [| reflexivity].
  destruct (find_rename (split_nl (stdout a)) file) as [[o n] |].
  - destruct (blob_diff spawn _ _ s2) as [[c | e] s3]; [| reflexivity].
    unfold rendering, rename_diff_output, text_or_identical. simpl.
    now destruct (diff_text c).
  - destruct (find_rename (split_nl (stdout b)) file) as [[o n] |].
    + destruct (blob_diff spawn _ _ s2) as [[c | e] s3]; [| reflexivity].
      unfold rendering, rename_diff_output, text_or_identical. simpl.
      now destruct (diff_text c).
    + apply Hlast.
Qed.

End Classifier.

(** ** Names and streams *)

Section Names.

Variable W : Type.
Variable spawn : list strlike -> option string -> W -> outcome CmdResult * W.

(** X11. The streams of a result that [runCmd] returns are trimmed, and
    the exit code is the one the host reported. *)
Theorem runCmd_returns_trimmed_streams
        (cmd : list strlike) (index : option string) (st st' : state W)
        (r : CmdResult) :
  runCmd spawn cmd index st = (Ret r, st') ->
  trim (stdout r) = stdout r /\ trim (stderr r) = stderr r /\
  exists raw,
    spawn cmd index (world st) = (Ret raw, world st') /\
    r = mkCmdResult (code raw) (trim (stdout raw)) (trim (stderr raw)).
Proof.
  unfold runCmd, start, host_spawn, bind, record.
  destruct (spawn cmd index (world st)) as [[raw | e] w'] eqn:Hs; simpl;
    intros H; inversion H; subst; simpl.
  repeat split; try apply trim_twice. now exists raw.
Qed.

Lemma git_trimmed (args : list string) (st st' : state W) (r : CmdResult) :
  git spawn args st = (Ret r, st') -> trim (stdout r) = stdout r.
Proof.
  unfold git, runCmd, start, host_spawn, bind, record.
  destruct (spawn _ None (world st)) as [[raw | e] w']; simpl;
    intros H; inversion H; subst; simpl. apply trim_twice.
Qed.

Lemma truthy_not_empty (s : string) : truthy s = true <-> s <> EmptyString.
Proof. destruct s; simpl; split; congruence. Qed.

(** X12. The name that [getCurrentRef] returns is not empty and has no
    white space around it. *)
Theorem getCurrentRef_returns_a_name (st st' : state W) (name : string) :
  getCurrentRef spawn st = (Ret name, st') ->
  name <> EmptyString /\ trim name = name.
Proof.
  unfold getCurrentRef. intros H.
  destruct (bind_run W H) as [[r [st1 [E1 E2]]] | [e [_ Habs]]];
    [| discriminate].
  destruct (succeeded r) eqn:Hs.
  { inversion E2; subst. split.
    - apply truthy_not_empty. now apply succeeded_truthy.
    - exact (git_trimmed _ _ _ _ E1). }
  destruct (bind_run W E2) as [[r' [st2 [E3 E4]]] | [e [_ Habs]]];
    [| discriminate].
  destruct (succeeded r') eqn:Hs'; [| discriminate].
  inversion E4; subst. split.
  - apply truthy_not_empty. now apply succeeded_truthy.
  - exact (git_trimmed _ _ _ _ E3).
Qed.

Lemma resolve_via_remotes_trimmed (ref_ : string) (remotes : list string)
      (st st' : state W) (res : Resolved) :
  resolve_via_remotes spawn ref_ remotes st = (Ret (Some res), st') ->
  trim (commit res) = commit res.
Proof.
  revert st. induction remotes as [| remote rest IH]; intros st E; simpl in E.
  - inversion E.
  - destruct (bind_run W E) as [[s [st1 [E1 E2]]] | [e [_ Habs]]];
      [| discriminate].
    destruct (succeeded s); [| exact (IH _ E2)].
    inversion E2; subst. simpl. exact (git_trimmed _ _ _ _ E1).
Qed.

(** X5. A commit id that [resolveCommit] returns is not empty and has no
    white space around it, whether the ref resolved directly or through a
    remote. *)
Theorem resolveCommit_commit_not_empty
        (ref_ : string) (st st' : state W) (res : Resolved) :
  resolveCommit spawn ref_ st = (Ret res, st') ->
  commit res <> EmptyString /\ trim (commit res) = commit res.
Proof.
  intros H. split.
  { apply truthy_not_empty. exact (resolveCommit_commit_truthy W spawn _ _ _ _ H). }
  unfold resolveCommit in H.
  destruct (bind_run W H) as [[r [st1 [E1 E2]]] | [e [_ Habs]]];
    [| discriminate].
  destruct (succeeded r).
  { inversion E2; subst. simpl. exact (git_trimmed _ _ _ _ E1). }
  destruct (bind_run W E2) as [[rr [st2 [_ E4]]] | [e [_ Habs]]];
    [| discriminate].
  destruct (bind_run W E4) as [[found [st3 [E5 E6]]] | [e [_ Habs]]];
    [| discriminate].
  destruct found as [res' |]; [| discriminate]. inversion E6; subst.
  exact (resolve_via_remotes_trimmed _ _ _ _ _ E5).
Qed.

Lemma getEmptyTreeHash_not_empty (st st' : state W) (t : string) :
  getEmptyTreeHash spawn st = (Ret t, st') -> truthy t = true.
Proof.
  unfold getEmptyTreeHash. intros H.
  destruct (bind_run W H) as [[r [st1 [_ E2]]] | [e [_ Habs]]];
    [| discriminate].
  destruct (succeeded r) eqn:Hs; inversion E2; subst;
    [now apply succeeded_truthy | reflexivity].
Qed.

Lemma settle_not_empty (emptyTree : strlike) (st st' : state W) (t : string) :
  names_a_tree emptyTree ->
  settle emptyTree st = (Ret t, st') -> truthy t = true.
Proof.
  unfold settle, names_a_tree.
  destruct emptyTree as [s | [s | e]]; intros Hn H; inversion H; now subst.
Qed.

Lemma revToTree_not_empty (rev : string) (emptyTree : strlike)
      (st st' : state W) (t : string) :
  names_a_tree emptyTree ->
  revToTree spawn rev emptyTree st = (Ret t, st') -> truthy t = true.
Proof.
  unfold revToTree. intros Hn H.
  destruct (negb (truthy rev)); [exact (settle_not_empty _ _ _ _ Hn H) |].
  destruct (bind_run W H) as [[r [st1 [_ E2]]] | [e [_ Habs]]];
    [| discriminate].
  destruct (succeeded r) eqn:Hs.
  - inversion E2; subst. now apply succeeded_truthy.
  - exact (settle_not_empty _ _ _ _ Hn E2).
Qed.

Lemma start_names_a_tree (st st' : state W) (pending : outcome string) :
  start (getEmptyTreeHash spawn) st = (Ret pending, st') ->
  names_a_tree (PromiseOf pending).
Proof.
  unfold start.
  destruct (getEmptyTreeHash spawn st) as [[t | e] s1] eqn:Ht;
    intros H; inversion H; subst; simpl; [| exact I].
  exact (getEmptyTreeHash_not_empty _ _ _ Ht).
Qed.

(** X13. The three trees that the resolution stage of [main] hands to the
    merge simulation are named: none of the names is empty, also when the
    merge base is missing and when the tool fails to name a tree. *)
Theorem resolved_trees_are_named
        (o : Options) (st st' : state W) (r : Resolution) :
  resolve_stage spawn o st = (Ret r, st') ->
  truthy (res_baseTree r) = true /\
  truthy (res_oursTree r) = true /\
  truthy (res_theirsTree r) = true.
Proof.
  unfold resolve_stage. intros E.
  repeat lazymatch type of E with
    | bind _ _ _ = (Ret _, _) =>
        let a := fresh "a" in
        let s := fresh "s" in
        let E1 := fresh "Step" in
        let E2 := fresh "E" in
        destruct (bind_run W E) as [[a [s [E1 E2]]] | [? [_ ?]]];
        [clear E; rename E2 into E | discriminate]
    | (if ?b then _ else _) _ = (Ret _, _) => destruct b
    | throw _ _ = (Ret _, _) => discriminate E
    end.
  all: inversion E; subst; simpl.
  all: match goal with
       | H : start (getEmptyTreeHash spawn) _ = (Ret _, _) |- _ =>
           apply start_names_a_tree in H
       end.
  all: repeat split.
  all: match goal with
       | Hn : names_a_tree ?v,
         H : revToTree spawn _ ?v _ = (Ret ?t, _) |- truthy ?t = true =>
           exact (revToTree_not_empty _ _ _ _ _ Hn H)
       end.
Qed.

(** X14. [getChangedFilesBetween] spawns one command.  It throws only what
    the host throws; otherwise it returns the lines of the output that
    are not empty when the tool exits with 0, and no name when the tool
    fails. *)
Theorem getChangedFilesBetween_lists_the_names
        (oursCommit theirsCommit : string) (st st' : state W)
        (out : outcome (list string)) :
  getChangedFilesBetween spawn oursCommit theirsCommit st = (out, st') ->
  exists res,
    extends st st'
      [Spawn (strs ["git"; "diff"; "--name-only"; oursCommit; theirsCommit])
             None res] /\
    match res with
    | Ret r =>
        exists fs,
          out = Ret fs /\
          forall f, In f fs <->
                    (code r = 0 /\ f <> EmptyString /\
                     In f (split_lines (stdout r)))
    | Throw e => out = Throw e
    end.
Proof.
  unfold getChangedFilesBetween. intros H.
  destruct (bind_run W H) as [[r [st1 [E1 E2]]] | [e [E1 ->]]].
  - pose proof (runCmd_run W spawn E1) as X. exists (Ret r).
    unfold succeeded in E2.
    destruct (Nat.eqb_spec (code r) 0) as [Hc | Hc]; simpl in E2.
    + destruct (truthy (stdout r)) eqn:Ht; inversion E2; subst.
      * split; [exact X |]. eexists. split; [reflexivity |].
        intros f. rewrite filter_In, truthy_not_empty. tauto.
      * split; [exact X |]. exists []. split; [reflexivity |].
        intros f. destruct (stdout r); [| discriminate]. simpl.
        split; [contradiction |]. intros [_ [Hf [Hin | []]]]. congruence.
    + inversion E2; subst. split; [exact X |]. exists [].
      split; [reflexivity |]. intros f. split; [contradiction | tauto].
  - exists (Throw e). split; [exact (runCmd_run W spawn E1) | reflexivity].
Qed.

(** X15. [TempIndex.runGitWithIndex] never runs a command under the
    ambient index: either the object holds a path that is not empty and
    the one command it spawns is bound to that path, or it throws
    without spawning and the state is unchanged. *)
Theorem runGitWithIndex_binds_the_scratch_index
        (t : ref) (args : list string) (st st' : state W)
        (out : outcome CmdResult) :
  TempIndex_runGitWithIndex spawn t args st = (out, st') ->
  (exists p,
      nth t (heap st) None = Some p /\ p <> EmptyString /\
      extends st st' [Spawn (strs ("git" :: args)) (Some p) out]) \/
  (nonempty (nth t (heap st) None) = None /\
   out = Throw (Error "Temporary index not created") /\ st' = st).
Proof.
  unfold TempIndex_runGitWithIndex, bind, get_path. intros H.
  destruct (nth t (heap st) None) as [p |] eqn:Hp; simpl in H.
  - destruct (truthy p) eqn:Ht.
    + left. exists p. repeat split.
      * now apply truthy_not_empty.
      * exact (runCmd_run W spawn H).
    + right. simpl. rewrite Ht. inversion H; subst. now repeat split.
  - right. inversion H; subst. now repeat split.
Qed.

Lemma remote_heads_run (remotes : list string) (st st' : state W)
      (b : string) :
  remote_heads spawn remotes st = (Ret (Some b), st') ->
  exists dt, extends st st' dt /\ remote_head_read dt.
Proof.
  revert st. induction remotes as [| r rest IH]; intros st E; simpl in E.
  - inversion E.
  - destruct (bind_run W E) as [[sym [st1 [E1 E2]]] | [e [_ Habs]]];
      [| discriminate].
    pose proof (runCmd_run W spawn E1) as X1.
    destruct (succeeded sym) eqn:Hs.
    + destruct (bind_run W E2) as [[le [st2 [E3 E4]]] | [e [_ Habs]]];
        [| discriminate].
      pose proof (runCmd_run W spawn E3) as X2.
      assert (st' = st2) by (destruct (code le =? 0)%nat; now inversion E4).
      subst st2. eexists. split.
      * exact (extends_trans W _ _ _ _ _ X1 X2).
      * exists (append "refs/remotes/" (append r "/HEAD")), sym.
        split; [now left | exact Hs].
    + destruct (IH _ E2) as [dt [X2 [ref_ [s [Hin Hs']]]]].
      eexists. split; [exact (extends_trans W _ _ _ _ _ X1 X2) |].
      exists ref_, s. split; [now right | exact Hs'].
Qed.

(** X16. Unless the HEAD of a remote was read, the branch that
    [detectDefaultBranch] returns is main, master, or a name that is not
    empty and differs from the current ref: the recency strategy never
    proposes the branch the user is on. *)
Theorem detectDefaultBranch_without_remote_head
        (currentRef : string) (st st' : state W) (b : string)
        (dt : list event) :
  detectDefaultBranch spawn currentRef st = (Ret b, st') ->
  extends st st' dt ->
  remote_head_read dt \/ b = "main" \/ b = "master" \/
  (b <> EmptyString /\ b <> currentRef).
Proof.
  unfold detectDefaultBranch. intros H Hdt.
  destruct (bind_run W H) as [[rem [st1 [E1 E2]]] | [e [_ Habs]]];
    [| discriminate].
  pose proof (runCmd_run W spawn E1) as X1.
  destruct (bind_run W E2) as [[found [st2 [E3 E4]]] | [e [_ Habs]]];
    [| discriminate].
  destruct found as [b' |].
  - left. inversion E4; subst b' st2.
    destruct (succeeded rem); [| discriminate].
    destruct (remote_heads_run _ _ _ _ E3) as [dt2 [X2 [ref_ [s [Hin Hs]]]]].
    rewrite (extends_inj W _ _ _ _ Hdt (extends_trans W _ _ _ _ _ X1 X2)).
    exists ref_, s. split; [| exact Hs]. apply in_or_app. now right.
  - right.
    destruct (bind_run W E4) as [[m [st3 [_ E5]]] | [e [_ Habs]]];
      [| discriminate].
    destruct (code m =? 0)%nat; [inversion E5; now left |].
    destruct (bind_run W E5) as [[m' [st4 [_ E6]]] | [e [_ Habs]]];
      [| discriminate].
    destruct (code m' =? 0)%nat; [inversion E6; right; now left |].
    destruct (bind_run W E6) as [[recent [st5 [_ E7]]] | [e [_ Habs]]];
      [| discriminate].
    right. right.
    destruct (succeeded recent); [| discriminate].
    destruct (filter (fun n => negb (String.eqb n currentRef)) _)
      as [| c cs] eqn:Hf; [discriminate E7 |].
    inversion E7; subst c st5.
    assert (Hin : In b (b :: cs)) by now left.
    rewrite <- Hf in Hin. apply filter_In in Hin. destruct Hin as [Hin Hne].
    apply filter_In in Hin. destruct Hin as [_ Ht]. split.
    + now apply truthy_not_empty.
    + apply negb_true_iff in Hne. now apply String.eqb_neq in Hne.
Qed.

End Names.

(* ================================================================= *)
(** * Part IX. The further properties on scripted worlds *)
(* ================================================================= *)

Section FurtherScenarios.

Import Scripted Scenario Repositories.

(** The structural report of a deletion names [f.txt], and the flag is
    set. *)
Lemma report_paths_witness :
  scan_report (split_lines removed_in_local_report) [] = ["f.txt"] /\
  report_has_conflicts removed_in_local_report = true.
Proof.
  split; [reflexivity |].
  apply (report_paths_imply_conflict_flag removed_in_local_report).
  discriminate.
Defined.

(** The run on the conflicting repository: the two index commands are
    bound to the scratch file, everything else is a query. *)
Lemma harmless_commands_witness :
  exists res st' scratch,
    main (spawn conflicting_repo) makeTempFile removeFile
         compare_with_main_in_detail initial
    = (Ret (1, Some res), st') /\
    extends initial st' (trace st') /\
    (forall p, scratch = Some p ->
               p <> EmptyString /\ returned_by makeTempFile p) /\
    Forall (permitted (harmless false scratch)) (trace st').
Proof.
  assert (Hrun : exists res st',
             main (spawn conflicting_repo) makeTempFile removeFile
                  compare_with_main_in_detail initial
             = (Ret (1, Some res), st'))
    by (vm_compute; eexists; eexists; reflexivity).
  destruct Hrun as [res [st' Hrun]].
  assert (Hext : extends initial st' (trace st')) by reflexivity.
  destruct (main_spawns_only_harmless_commands
              disk (spawn conflicting_repo) makeTempFile removeFile
              compare_with_main_in_detail initial st' _ (trace st') Hrun Hext)
    as [scratch [Hs F]].
  exists res, st', scratch. repeat split; try assumption; now apply Hs.
Defined.

(** A ref that a remote resolves: the commit id is not empty. *)
Lemma commit_not_empty_witness :
  exists st',
    resolveCommit (spawn remote_only_repo) "develop" initial
    = (Ret (mkResolved THEIRS "upstream/develop"), st') /\
    THEIRS <> EmptyString /\ trim THEIRS = THEIRS.
Proof.
  assert (Hrun : exists st',
             resolveCommit (spawn remote_only_repo) "develop" initial
             = (Ret (mkResolved THEIRS "upstream/develop"), st'))
    by (vm_compute; eexists; reflexivity).
  destruct Hrun as [st' Hrun]. exists st'. split; [exact Hrun |].
  exact (resolveCommit_commit_not_empty
           disk (spawn remote_only_repo) "develop" initial st'
           (mkResolved THEIRS "upstream/develop") Hrun).
Defined.


(** The keys of the result object do not follow the list of the
    conflicted files where a file name is an array index: the names
    [10], [2] and [b], reported in this order, are enumerated as [2],
    [10], [b]. *)
Example numeric_names_are_enumerated_first :
  own_keys (fold_left (fun obj f =>
                        assign obj f (mkDetail content None None None))
                      ["10"; "2"; "b"] empty_object)
  = ["2"; "10"; "b"] /\
  key_order ["b"; "07"; "7"; "4294967295"; "4294967294"]
  = ["7"; "4294967294"; "b"; "07"; "4294967295"].
Proof. split; vm_compute; reflexivity. Qed.

(** A file named [__proto__] gets no key: its detail record becomes the
    prototype of the result object. *)
Example proto_name_creates_no_key :
  own_keys (assign (assign empty_object "a.txt"
                           (mkDetail content None None None))
                   PROTO (mkDetail delete_modify None None None))
  = ["a.txt"] /\
  prototype (assign (assign empty_object "a.txt"
                            (mkDetail content None None None))
                    PROTO (mkDetail delete_modify None None None))
  = Some (mkDetail delete_modify None None None).
Proof. split; vm_compute; reflexivity. Qed.

Lemma scripted_host_throws_host_errors (sc : script) :
  host_throws_host_errors (spawn sc) makeTempFile removeFile.
Proof.
  repeat split.
  - intros cmd index w e w' H. discriminate.
  - intros w e w' H. discriminate.
  - intros p w e w'. unfold removeFile. destruct (mem p w); intros H.
    + discriminate.
    + inversion H. now exists "NotFound".
Qed.

(** The entry point on the conflicting repository: exit code 1. *)
Lemma exit_code_witness :
  host_throws_host_errors (spawn conflicting_repo) makeTempFile removeFile /\
  fst (entry_point (spawn conflicting_repo) makeTempFile removeFile
                   compare_with_main_in_detail initial) = 1.
Proof.
  split; [apply scripted_host_throws_host_errors |].
  assert (Hrun : exists res st',
             main (spawn conflicting_repo) makeTempFile removeFile
                  compare_with_main_in_detail initial
             = (Ret (1, Some res), st') /\
             conflicts res = true)
    by (vm_compute; eexists; eexists; split; reflexivity).
  destruct Hrun as [res [st' [Hrun Hflag]]].
  pose proof (entry_point_exit_code
                disk (spawn conflicting_repo) makeTempFile removeFile
                (scripted_host_throws_host_errors conflicting_repo)
                compare_with_main_in_detail initial) as H.
  rewrite Hrun, Hflag in H. exact H.
Defined.

(** A host on which the one call that is not awaited is rejected, and
    nothing else: the process ends with the exit code 1, although the
    repository has a conflict to report and no result is printed. *)
Example unhandled_rejection_exits_with_1 :
  main (spawn_without_empty_tree conflicting_repo) makeTempFile removeFile
       compare_with_main_in_detail initial
  = (Throw (Uncaught (HostError "NotFound")),
     snd (main (spawn_without_empty_tree conflicting_repo)
               makeTempFile removeFile compare_with_main_in_detail initial)) /\
  fst (entry_point (spawn_without_empty_tree conflicting_repo)
                   makeTempFile removeFile compare_with_main_in_detail
                   initial) = 1 /\
  map (fun e => match e with Spawn cmd _ _ => nth 1 (map show cmd) EmptyString
                end)
      (trace (snd (main (spawn_without_empty_tree conflicting_repo)
                        makeTempFile removeFile compare_with_main_in_detail
                        initial)))
  = ["rev-parse"; "symbolic-ref"; "rev-parse"; "rev-parse"; "hash-object";
     "merge-base"].
Proof. repeat split; vm_compute; reflexivity. Qed.


(** A file system that refuses the removal: the refusal is swallowed, the
    run returns as before, and the scratch file stays. *)
Example refused_removal_leaves_the_scratch_file :
  fst (main (Isolated.spawn (scripted_tool conflicting_repo))
            (Isolated.makeTempFile never_full)
            (Isolated.removeFile (fun _ _ => true))
            compare_with_main_in_detail one_file)
  = fst (main (Isolated.spawn (scripted_tool conflicting_repo))
              (Isolated.makeTempFile never_full)
              (Isolated.removeFile never_refuses)
              compare_with_main_in_detail one_file) /\
  Isolated.files_on_disk
    (snd (main (Isolated.spawn (scripted_tool conflicting_repo))
               (Isolated.makeTempFile never_full)
               (Isolated.removeFile (fun _ _ => true))
               compare_with_main_in_detail one_file))
  = SCRATCH :: Isolated.files_on_disk one_file.
Proof. split; vm_compute; reflexivity. Qed.

(** The record of a path that both sides renamed is well formed. *)
Lemma well_formed_detail_witness :
  exists d st',
    getFileConflictDetail (spawn both_renamed_repo)
      "a.txt" OURS THEIRS (Some BASE) initial = (Ret d, st') /\
    conflict_type d = rename_modify /\
    well_formed_detail "a.txt" (Some BASE) d.
Proof.
  assert (Hrun : exists d st',
             getFileConflictDetail (spawn both_renamed_repo)
               "a.txt" OURS THEIRS (Some BASE) initial = (Ret d, st') /\
             conflict_type d = rename_modify)
    by (vm_compute; eexists; eexists; split; reflexivity).
  destruct Hrun as [d [st' [Hrun Hkind]]].
  exists d, st'. split; [exact Hrun |]. split; [exact Hkind |].
  exact (getFileConflictDetail_is_well_formed
           disk (spawn both_renamed_repo) "a.txt" OURS THEIRS (Some BASE)
           initial st' d Hrun).
Defined.

(** A padded answer comes back trimmed. *)
Lemma trimmed_streams_witness :
  exists st',
    runCmd (spawn padded_repo) (strs ["git"; "remote"]) None initial
    = (Ret (mkCmdResult 0 "origin" "warning"), st') /\
    trim "origin" = "origin" /\ trim "warning" = "warning".
Proof.
  assert (Hrun : exists st',
             runCmd (spawn padded_repo) (strs ["git"; "remote"]) None initial
             = (Ret (mkCmdResult 0 "origin" "warning"), st'))
    by (vm_compute; eexists; reflexivity).
  destruct Hrun as [st' Hrun]. exists st'. split; [exact Hrun |].
  destruct (runCmd_returns_trimmed_streams
              disk (spawn padded_repo) (strs ["git"; "remote"]) None initial
              st' (mkCmdResult 0 "origin" "warning") Hrun) as [H1 [H2 _]].
  split; [exact H1 | exact H2].
Defined.

(** The current ref of the conflicting repository. *)
Lemma current_ref_witness :
  exists st',
    getCurrentRef (spawn conflicting_repo) initial = (Ret "feature", st') /\
    "feature" <> EmptyString /\ trim "feature" = "feature".
Proof.
  assert (Hrun : exists st',
             getCurrentRef (spawn conflicting_repo) initial
             = (Ret "feature", st'))
    by (vm_compute; eexists; reflexivity).
  destruct Hrun as [st' Hrun]. exists st'. split; [exact Hrun |].
  exact (getCurrentRef_returns_a_name
           disk (spawn conflicting_repo) initial st' "feature" Hrun).
Defined.

(** Without merge base the base tree is the empty tree, and it is
    named. *)
Lemma named_trees_witness :
  exists r st',
    resolve_stage (spawn orphan_repo) compare_with_main initial
    = (Ret r, st') /\
    res_baseTree r = WELL_KNOWN_EMPTY_TREE /\
    truthy (res_baseTree r) = true /\
    truthy (res_oursTree r) = true /\
    truthy (res_theirsTree r) = true.
Proof.
  assert (Hrun : exists r st',
             resolve_stage (spawn orphan_repo) compare_with_main initial
             = (Ret r, st') /\
             res_baseTree r = WELL_KNOWN_EMPTY_TREE)
    by (vm_compute; eexists; eexists; split; reflexivity).
  destruct Hrun as [r [st' [Hrun Hbase]]].
  exists r, st'. split; [exact Hrun |]. split; [exact Hbase |].
  exact (resolved_trees_are_named
           disk (spawn orphan_repo) compare_with_main initial st' r Hrun).
Defined.

(** The names of a listing with an empty line. *)
Lemma changed_names_witness :
  exists st',
    getChangedFilesBetween (spawn changed_names_repo) OURS THEIRS initial
    = (Ret ["a.txt"; "b.txt"], st') /\
    exists res,
      extends initial st'
        [Spawn (strs ["git"; "diff"; "--name-only"; OURS; THEIRS]) None res] /\
      match res with
      | Ret r =>
          exists fs,
            Ret ["a.txt"; "b.txt"] = Ret fs /\
            forall f, In f fs <->
                      (code r = 0 /\ f <> EmptyString /\
                       In f (split_lines (stdout r)))
      | Throw e => Ret ["a.txt"; "b.txt"] = Throw e
      end.
Proof.
  assert (Hrun : exists st',
             getChangedFilesBetween (spawn changed_names_repo)
               OURS THEIRS initial = (Ret ["a.txt"; "b.txt"], st'))
    by (vm_compute; eexists; reflexivity).
  destruct Hrun as [st' Hrun]. exists st'. split; [exact Hrun |].
  exact (getChangedFilesBetween_lists_the_names
           disk (spawn changed_names_repo) OURS THEIRS initial st'
           (Ret ["a.txt"; "b.txt"]) Hrun).
Defined.

(** The listing step on a created object is bound to the scratch file. *)
Lemma scratch_index_witness :
  exists out st',
    TempIndex_runGitWithIndex (spawn failing_read_tree_repo) 0
      ["ls-files"; "-u"; "--stage"] created = (out, st') /\
    ((exists p,
         nth 0 (heap created) None = Some p /\ p <> EmptyString /\
         extends created st'
           [Spawn (strs ["git"; "ls-files"; "-u"; "--stage"]) (Some p) out])
     \/
     (nonempty (nth 0 (heap created) None) = None /\
      out = Throw (Error "Temporary index not created") /\ st' = created)).
Proof.
  assert (Hrun : exists out st',
             TempIndex_runGitWithIndex (spawn failing_read_tree_repo) 0
               ["ls-files"; "-u"; "--stage"] created = (out, st'))
    by (vm_compute; eexists; eexists; reflexivity).
  destruct Hrun as [out [st' Hrun]].
  exists out, st'. split; [exact Hrun |].
  exact (runGitWithIndex_binds_the_scratch_index
           disk (spawn failing_read_tree_repo) 0
           ["ls-files"; "-u"; "--stage"] created st' out Hrun).
Defined.

(** With no remote, no main and no master, the most recent branch other
    than the current one is proposed. *)
Lemma recency_witness :
  exists st' dt,
    detectDefaultBranch (spawn recency_repo) "feature" initial
    = (Ret "develop", st') /\
    extends initial st' dt /\
    (remote_head_read dt \/ "develop" = "main" \/ "develop" = "master" \/
     ("develop" <> EmptyString /\ "develop" <> "feature")).
Proof.
  assert (Hrun : exists st' dt,
             detectDefaultBranch (spawn recency_repo) "feature" initial
             = (Ret "develop", st') /\
             extends initial st' dt)
    by (vm_compute; eexists; eexists; split; reflexivity).
  destruct Hrun as [st' [dt [Hrun Hext]]].
  exists st', dt. split; [exact Hrun |]. split; [exact Hext |].
  exact (detectDefaultBranch_without_remote_head
           disk (spawn recency_repo) "feature" initial st' "develop" dt
           Hrun Hext).
Defined.

End FurtherScenarios.
